(** * backuptool: content-addressed snapshots over SQLite

    A shallow embedding of [backuptool.py] (class [BackupTool]) and the
    properties of its snapshot / restore / prune operations.

    Layout of the development:
    - [SHA256]   : [hashlib.sha256(content).hexdigest()], bit for bit;
    - [Sqlite]   : the three tables of [_init_db], rows kept in rowid order,
                   and the connection with its uncommitted view;
    - [OS]       : the directory tree read by [os.walk] and the output
                   directory written by [os.makedirs] / [open(.., "wb")];
    - [BackupTool]: the methods, written in a state-and-exception monad;
    - the theorems. *)

From Stdlib Require Import ZArith List String Ascii Lia Bool.
From Stdlib.Strings Require Import Byte.
From stdpp Require Import base option list gmap strings sorting.

Local Open Scope Z_scope.

(** Raw file contents: what [f.read()] returns for a file opened ["rb"]. *)
Abbreviation bytes := (list byte).

#[export] Instance byte_eq_dec : EqDecision byte := Byte.byte_eq_dec.

(* ===================================================================== *)
(** ** SHA-256 (FIPS 180-4), as computed by [hashlib.sha256] *)
(* ===================================================================== *)

Module SHA256.

(** 32-bit words are carried by [Z]; every addition wraps explicitly. *)
Definition w32 (x : Z) : Z := Z.land x 0xffffffff.
Definition add32 (x y : Z) : Z := w32 (x + y).

Definition rotr (n x : Z) : Z :=
  Z.lor (Z.shiftr x n) (w32 (Z.shiftl x (32 - n))).
Definition shr (n x : Z) : Z := Z.shiftr x n.
Definition not32 (x : Z) : Z := Z.lxor x 0xffffffff.

Definition Ch (x y z : Z) : Z :=
  Z.lxor (Z.land x y) (Z.land (not32 x) z).
Definition Maj (x y z : Z) : Z :=
  Z.lxor (Z.lxor (Z.land x y) (Z.land x z)) (Z.land y z).
Definition Sigma0 (x : Z) : Z :=
  Z.lxor (Z.lxor (rotr 2 x) (rotr 13 x)) (rotr 22 x).
Definition Sigma1 (x : Z) : Z :=
  Z.lxor (Z.lxor (rotr 6 x) (rotr 11 x)) (rotr 25 x).
Definition sigma0 (x : Z) : Z :=
  Z.lxor (Z.lxor (rotr 7 x) (rotr 18 x)) (shr 3 x).
Definition sigma1 (x : Z) : Z :=
  Z.lxor (Z.lxor (rotr 17 x) (rotr 19 x)) (shr 10 x).

(** The constants are given by their definition: the first 32 bits of the
    fractional parts of the square roots ([H0], first 8 primes) and of the
    cube roots ([K], first 64 primes). *)
Definition is_prime (n : nat) : bool :=
  forallb (fun d => negb (Nat.eqb (Nat.modulo n d) 0)) (seq 2 (n - 2)).

Definition primes : list Z :=
  map Z.of_nat (List.filter is_prime (seq 2 310)).

(** The largest [r] below [2 ^ bits] with [r ^ k <= n], on top of [r]. *)
Fixpoint root_bits (k : Z) (bits : nat) (n r : Z) : Z :=
  match bits with
  | O => r
  | S bits' =>
      let c := r + 2 ^ Z.of_nat bits' in
      root_bits k bits' n (if c ^ k <=? n then c else r)
  end.

Definition frac_root (k : Z) (p : Z) : Z :=
  w32 (root_bits k 40 (p * 2 ^ (32 * k)) 0).

Definition K : list Z := map (frac_root 3) primes.

Definition H0 : list Z := map (frac_root 2) (firstn 8 primes).

Definition byte_val (b : byte) : Z := Z.of_N (Byte.to_N b).

(** Big-endian encoding of [x] on [n] bytes, as byte values. *)
Fixpoint be_bytes (n : nat) (x : Z) : list Z :=
  match n with
  | O => []
  | S n' => be_bytes n' (Z.shiftr x 8) ++ [Z.land x 0xff]
  end.

(** Padding: a 1 bit, zeros up to 56 mod 64, then the bit length on 64
    bits. *)
Definition pad (msg : bytes) : list Z :=
  let len := Z.of_nat (length msg) in
  let zeros := Z.to_nat ((55 - len) mod 64) in
  map byte_val msg ++ [0x80] ++ repeat 0 zeros ++ be_bytes 8 (8 * len).

Fixpoint be_words (fuel : nat) (bs : list Z) : list Z :=
  match fuel, bs with
  | S fuel', b0 :: b1 :: b2 :: b3 :: rest =>
      (Z.lor (Z.shiftl b0 24)
         (Z.lor (Z.shiftl b1 16) (Z.lor (Z.shiftl b2 8) b3)))
        :: be_words fuel' rest
  | _, _ => []
  end.

(** The message schedule, newest word first: [rev_w] holds W[t-1], W[t-2],
    ... so that W[t-2], W[t-7], W[t-15], W[t-16] sit at 1, 6, 14, 15. *)
Fixpoint extend (n : nat) (rev_w : list Z) : list Z :=
  match n with
  | O => rev_w
  | S n' =>
      let w := add32 (add32 (sigma1 (nth 1 rev_w 0)) (nth 6 rev_w 0))
                     (add32 (sigma0 (nth 14 rev_w 0)) (nth 15 rev_w 0)) in
      extend n' (w :: rev_w)
  end.

Definition schedule (block : list Z) : list Z :=
  rev (extend 48 (rev block)).

Record regs := Regs { ra : Z; rb : Z; rc : Z; rd : Z;
                      re : Z; rf : Z; rg : Z; rh : Z }.

Definition round (s : regs) (kw : Z * Z) : regs :=
  let t1 := add32 (add32 (add32 (rh s) (Sigma1 (re s)))
                         (add32 (Ch (re s) (rf s) (rg s)) (fst kw)))
                  (snd kw) in
  let t2 := add32 (Sigma0 (ra s)) (Maj (ra s) (rb s) (rc s)) in
  Regs (add32 t1 t2) (ra s) (rb s) (rc s)
       (add32 (rd s) t1) (re s) (rf s) (rg s).

Definition regs_of (h : list Z) : regs :=
  Regs (nth 0 h 0) (nth 1 h 0) (nth 2 h 0) (nth 3 h 0)
       (nth 4 h 0) (nth 5 h 0) (nth 6 h 0) (nth 7 h 0).

Definition compress (h : list Z) (block : list Z) : list Z :=
  let s := fold_left round (combine K (schedule block)) (regs_of h) in
  [ add32 (nth 0 h 0) (ra s); add32 (nth 1 h 0) (rb s);
    add32 (nth 2 h 0) (rc s); add32 (nth 3 h 0) (rd s);
    add32 (nth 4 h 0) (re s); add32 (nth 5 h 0) (rf s);
    add32 (nth 6 h 0) (rg s); add32 (nth 7 h 0) (rh s) ].

Fixpoint blocks (fuel : nat) (h : list Z) (ws : list Z) : list Z :=
  match fuel with
  | O => h
  | S fuel' =>
      match ws with
      | [] => h
      | _ => blocks fuel' (compress h (firstn 16 ws)) (skipn 16 ws)
      end
  end.

Definition digest_words (msg : bytes) : list Z :=
  let p := pad msg in
  let ws := be_words (length p) p in
  blocks (length ws) H0 ws.

Definition hex_digit (d : Z) : ascii :=
  if d <? 10 then ascii_of_N (Z.to_N (48 + d))
  else ascii_of_N (Z.to_N (87 + d)).

Fixpoint hex_of (n : nat) (x : Z) (acc : string) : string :=
  match n with
  | O => acc
  | S n' => hex_of n' (Z.shiftr x 4) (String (hex_digit (Z.land x 0xf)) acc)
  end.

(** [hashlib.sha256(content).hexdigest()]: 64 lowercase hex digits. *)
Definition hexdigest (msg : bytes) : string :=
  fold_right (fun w acc => hex_of 8 w acc) EmptyString (digest_words msg).

Definition bytes_of_string (s : string) : bytes := list_byte_of_string s.

End SHA256.

(* ===================================================================== *)
(** ** The SQLite database of [_init_db] *)
(* ===================================================================== *)

(** A path relative to some directory, as its components:
    ["subdir/file2.bin"] is [["subdir"; "file2.bin"]].  [os.path.join] is
    [++] and [os.path.dirname] is [removelast]. *)
Abbreviation path := (list string).

Module Sqlite.

(** [snapshots (id INTEGER PRIMARY KEY AUTOINCREMENT, timestamp TEXT)] *)
Record SnapshotRow := { s_id : Z; s_timestamp : string }.
(** [blobs (hash TEXT PRIMARY KEY, content BLOB, size INTEGER)] *)
Record BlobRow := { b_hash : string; b_content : bytes; b_size : Z }.
(** [files (snapshot_id INTEGER, path TEXT, blob_hash TEXT,
            PRIMARY KEY (snapshot_id, path))]
    The two FOREIGN KEY clauses are declarative only: the connection never
    issues [PRAGMA foreign_keys = ON], so SQLite does not enforce them. *)
Record FileRow := { f_snapshot_id : Z; f_path : path; f_blob_hash : string }.

#[export] Instance SnapshotRow_eq_dec : EqDecision SnapshotRow.
Proof. solve_decision. Defined.
#[export] Instance BlobRow_eq_dec : EqDecision BlobRow.
Proof. solve_decision. Defined.
#[export] Instance FileRow_eq_dec : EqDecision FileRow.
Proof. solve_decision. Defined.

(** Tables hold their rows in rowid (insertion) order.  [sqlite_sequence]
    is the counter SQLite keeps for the AUTOINCREMENT column: the largest
    id ever handed out ([0] when the table has no entry there). *)
Record DB := {
  snapshots : list SnapshotRow;
  sqlite_sequence : Z;
  blobs : list BlobRow;
  files : list FileRow }.

(** The database file right after [_init_db] ran on a new file. *)
Definition empty_db : DB :=
  {| snapshots := []; sqlite_sequence := 0; blobs := []; files := [] |}.

Definition max_int64 : Z := 9223372036854775807.

Definition max_rowid (rows : list SnapshotRow) : Z :=
  fold_right Z.max 0 (map s_id rows).

(** AUTOINCREMENT: one more than the largest id that ever existed. *)
Definition last_id (db : DB) : Z :=
  Z.max (max_rowid (snapshots db)) (sqlite_sequence db).

(** [INSERT INTO snapshots (timestamp) VALUES (?)] and [cur.lastrowid];
    [None] is SQLITE_FULL, raised once the largest id has been used. *)
Definition insert_snapshot (timestamp : string) (db : DB) : option (Z * DB) :=
  if bool_decide (max_int64 <= last_id db) then None
  else
    let new_id := last_id db + 1 in
    Some (new_id,
          {| snapshots := snapshots db ++ [{| s_id := new_id; s_timestamp := timestamp |}];
             sqlite_sequence := new_id;
             blobs := blobs db;
             files := files db |}).

(** [SELECT .. FROM blobs WHERE hash = ?] then [fetchone()] *)
Definition select_blob (h : string) (db : DB) : option BlobRow :=
  find (fun b => bool_decide (b_hash b = h)) (blobs db).

(** [INSERT INTO blobs (hash, content, size) VALUES (?, ?, ?)];
    [None] is the UNIQUE constraint failure on the primary key. *)
Definition insert_blob (row : BlobRow) (db : DB) : option DB :=
  match select_blob (b_hash row) db with
  | Some _ => None
  | None => Some {| snapshots := snapshots db;
                    sqlite_sequence := sqlite_sequence db;
                    blobs := blobs db ++ [row];
                    files := files db |}
  end.

Definition same_key (snapshot_id : Z) (p : path) (f : FileRow) : bool :=
  bool_decide (f_snapshot_id f = snapshot_id) && bool_decide (f_path f = p).

(** [INSERT INTO files (snapshot_id, path, blob_hash) VALUES (?, ?, ?)];
    [None] is the UNIQUE constraint failure on [(snapshot_id, path)]. *)
Definition insert_file (row : FileRow) (db : DB) : option DB :=
  if existsb (same_key (f_snapshot_id row) (f_path row)) (files db) then None
  else Some {| snapshots := snapshots db;
               sqlite_sequence := sqlite_sequence db;
               blobs := blobs db;
               files := files db ++ [row] |}.

(** [SELECT id FROM snapshots WHERE id = ?] then [fetchone()] *)
Definition select_snapshot (snapshot_id : Z) (db : DB) : option Z :=
  s_id <$> find (fun s => bool_decide (s_id s = snapshot_id)) (snapshots db).

(** [SELECT id, timestamp FROM snapshots ORDER BY id]: the ids are handed
    out in increasing order, so rowid order is id order. *)
Definition select_snapshots (db : DB) : list SnapshotRow := snapshots db.

(** [SELECT path, blob_hash FROM files WHERE snapshot_id = ?] *)
Definition select_files (snapshot_id : Z) (db : DB) : list (path * string) :=
  map (fun f => (f_path f, f_blob_hash f))
      (filter (fun f => f_snapshot_id f = snapshot_id) (files db)).

(** [SELECT id FROM snapshots WHERE id <= ?] *)
Definition select_ids_le (threshold : Z) (db : DB) : list Z :=
  map s_id (filter (fun s => s_id s <= threshold) (snapshots db)).

(** [DELETE FROM files WHERE snapshot_id <= ?] *)
Definition delete_files_le (threshold : Z) (db : DB) : DB :=
  {| snapshots := snapshots db;
     sqlite_sequence := sqlite_sequence db;
     blobs := blobs db;
     files := filter (fun f => ~ f_snapshot_id f <= threshold) (files db) |}.

(** [DELETE FROM snapshots WHERE id <= ?] *)
Definition delete_snapshots_le (threshold : Z) (db : DB) : DB :=
  {| snapshots := filter (fun s => ~ s_id s <= threshold) (snapshots db);
     sqlite_sequence := sqlite_sequence db;
     blobs := blobs db;
     files := files db |}.

(** [DELETE FROM blobs WHERE hash NOT IN
      (SELECT DISTINCT blob_hash FROM files)] *)
Definition delete_unreferenced_blobs (db : DB) : DB :=
  {| snapshots := snapshots db;
     sqlite_sequence := sqlite_sequence db;
     blobs := filter (fun b => b_hash b ∈ map f_blob_hash (files db))
                     (blobs db);
     files := files db |}.

(** A connection of Python's [sqlite3] module: INSERT and DELETE open a
    transaction implicitly and change only the connection's [current]
    view; [conn.commit()] makes that view the [committed] content of the
    database file. *)
Record Connection := { committed : DB; current : DB }.

End Sqlite.

(* ===================================================================== *)
(** ** The file system seen through [os] and [open] *)
(* ===================================================================== *)

Module OS.

(** What [snapshot] finds at [target_directory].  A file's data is [None]
    when opening or reading it raises (permission denied, vanished). *)
#[warnings="-register-all"]
Inductive Node :=
| File (data : option bytes)
| Dir (entries : list (string * Node)).

Definition is_dir (n : Node) : bool :=
  match n with Dir _ => true | File _ => false end.

(** The [files] of one [os.walk] triple, each with what reading it gives. *)
Definition walk_files (entries : list (string * Node))
  : list (string * option bytes) :=
  flat_map (fun e => match snd e with
                     | File data => [(fst e, data)]
                     | Dir _ => []
                     end) entries.

(** The [dirs] of one [os.walk] triple. *)
Definition walk_dirs (entries : list (string * Node)) : list string :=
  map fst (filter (fun e => is_dir (snd e) = true) entries).

(** [os.walk(top)], top-down, with [root] given relative to the directory
    the walk started from.  A [top] that is not a directory yields
    nothing: [os.walk] swallows the error of [scandir]. *)
Fixpoint walk (root : path) (top : Node)
  : list (path * list string * list (string * option bytes)) :=
  match top with
  | File _ => []
  | Dir entries =>
      (root, walk_dirs entries, walk_files entries)
        :: flat_map (fun e => match snd e with
                              | Dir _ => walk (root ++ [fst e]) (snd e)
                              | File _ => []
                              end) entries
  end.

(** [os.walk(target_directory)] where nothing may exist at the target. *)
Definition os_walk (target : option Node)
  : list (path * list string * list (string * option bytes)) :=
  match target with
  | None => []
  | Some top => walk [] top
  end.

(** The entry found by following [p] down from [n]. *)
Fixpoint lookup_node (p : path) (n : Node) : option Node :=
  match p with
  | [] => Some n
  | name :: rest =>
      match n with
      | File _ => None
      | Dir entries =>
          match find (fun e => bool_decide (fst e = name)) entries with
          | Some e => lookup_node rest (snd e)
          | None => None
          end
      end
  end.

Fixpoint nodupb (names : list string) : bool :=
  match names with
  | [] => true
  | n :: rest => negb (bool_decide (n ∈ rest)) && nodupb rest
  end.

(** A directory never lists one name twice. *)
Fixpoint well_formed (n : Node) : bool :=
  match n with
  | File _ => true
  | Dir entries =>
      nodupb (map fst entries)
      && forallb (fun e => well_formed (snd e)) entries
  end.

(** Every file below [n] can be read. *)
Fixpoint readable (n : Node) : bool :=
  match n with
  | File data => bool_decide (is_Some data)
  | Dir entries => forallb (fun e => readable (snd e)) entries
  end.

(** The contents of the readable files below [n]. *)
Fixpoint contents (n : Node) : list bytes :=
  match n with
  | File (Some data) => [data]
  | File None => []
  | Dir entries => flat_map (fun e => contents (snd e)) entries
  end.

(** The file system that [restore] writes to, keyed by absolute path. *)
Inductive Entry :=
| RegularFile (data : bytes)
| Directory.

#[export] Instance Entry_eq_dec : EqDecision Entry.
Proof. solve_decision. Defined.

Abbreviation FS := (gmap path Entry).

Inductive OSError :=
| FileExistsError
| FileNotFoundError
| NotADirectoryError
| IsADirectoryError.

#[export] Instance OSError_eq_dec : EqDecision OSError.
Proof. solve_decision. Defined.

(** [os.makedirs(name, exist_ok=True)]: walk down [name], creating every
    directory that is missing; a regular file in the way is an error. *)
Fixpoint makedirs_from (done todo : path) (fs : FS) : OSError + FS :=
  match fs !! done with
  | Some (RegularFile _) =>
      inl (match todo with [] => FileExistsError | _ => NotADirectoryError end)
  | found =>
      let fs1 := match found with
                 | None => <[done := Directory]> fs
                 | Some _ => fs
                 end in
      match todo with
      | [] => inr fs1
      | name :: rest => makedirs_from (done ++ [name]) rest fs1
      end
  end.

Definition makedirs (name : path) (fs : FS) : OSError + FS :=
  makedirs_from [] name fs.

(** [with open(out_path, "wb") as f: f.write(data)] *)
Definition write_file (out_path : path) (data : bytes) (fs : FS)
  : OSError + FS :=
  match fs !! removelast out_path with
  | None => inl FileNotFoundError
  | Some (RegularFile _) => inl NotADirectoryError
  | Some Directory =>
      match fs !! out_path with
      | Some Directory => inl IsADirectoryError
      | _ => inr (<[out_path := RegularFile data]> fs)
      end
  end.

End OS.

(* ===================================================================== *)
(** ** class BackupTool *)
(* ===================================================================== *)

Module BackupTool.
Import Sqlite OS.

Inductive Exception :=
| IntegrityError                (* sqlite3.IntegrityError *)
| OperationalError              (* sqlite3.OperationalError *)
| OSException (e : OSError).

(** One constructor per [print] of the class. *)
Inductive Message :=
| ErrorReading (rel_path : path)
    (* "Error reading {file_path}: {e}" *)
| SnapshotTaken (snapshot_id : Z) (timestamp : string)
    (* "Snapshot {snapshot_id} taken at {timestamp}" *)
| TableHeader
    (* "SNAPSHOT  TIMESTAMP" *)
| TableRow (snapshot_id : Z) (timestamp : string)
| NoSnapshotsFound
    (* "No snapshots found." *)
| SnapshotNotFound (snapshot_id : Z)
    (* "Snapshot {snapshot_id} not found." *)
| MissingBlob (blob_hash : string) (rel_path : path)
    (* "Error: missing blob {blob_hash} for file {path}" *)
| SnapshotRestored (snapshot_id : Z) (output_directory : path)
    (* "Snapshot {snapshot_id} restored to {output_directory}" *)
| NoSnapshotsToPrune
    (* "No snapshots to prune." *)
| PrunedSnapshots (to_delete : list Z).
    (* "Pruned snapshots: {to_delete}" *)

#[export] Instance Exception_eq_dec : EqDecision Exception.
Proof. solve_decision. Defined.
#[export] Instance Message_eq_dec : EqDecision Message.
Proof. solve_decision. Defined.

(** Everything a method can touch: [self.conn], the file system it writes
    to, and the standard output. *)
Record World := { conn : Connection; fs : FS; stdout : list Message }.

Inductive Outcome (A : Type) :=
| Return (a : A)
| Raise (e : Exception).
Arguments Return {A} a.
Arguments Raise {A} e.

(** A method body: it runs on a world and either returns or raises. *)
Definition M (A : Type) : Type := World -> Outcome A * World.

#[export] Instance M_ret : MRet M := fun A a w => (Return a, w).
#[export] Instance M_bind : MBind M := fun A B k m w =>
  match m w with
  | (Return a, w') => k a w'
  | (Raise e, w') => (Raise e, w')
  end.

Definition raise {A} (e : Exception) : M A := fun w => (Raise e, w).

(** A SELECT: reads the connection's current view. *)
Definition query {A} (q : DB -> A) : M A :=
  fun w => (Return (q (current (conn w))), w).

Definition set_current (db : DB) (w : World) : World :=
  {| conn := {| committed := committed (conn w); current := db |};
     fs := fs w; stdout := stdout w |}.

(** An INSERT or DELETE: changes the current view, or raises [e]. *)
Definition execute {A} (stmt : DB -> option (A * DB)) (e : Exception) : M A :=
  fun w => match stmt (current (conn w)) with
           | Some (a, db) => (Return a, set_current db w)
           | None => (Raise e, w)
           end.

Definition execute_ (stmt : DB -> option DB) (e : Exception) : M unit :=
  execute (fun db => pair tt <$> stmt db) e.

Definition delete (stmt : DB -> DB) : M unit :=
  fun w => (Return tt, set_current (stmt (current (conn w))) w).

(** [self.conn.commit()] *)
Definition commit : M unit :=
  fun w => (Return tt,
            {| conn := {| committed := current (conn w);
                          current := current (conn w) |};
               fs := fs w; stdout := stdout w |}).

Definition print (m : Message) : M unit :=
  fun w => (Return tt,
            {| conn := conn w; fs := fs w; stdout := stdout w ++ [m] |}).

(** [os.path.exists(p)] *)
Definition path_exists (p : path) : M bool :=
  fun w => (Return (bool_decide (is_Some (fs w !! p))), w).

(** A call into [os] or [open] that changes the file system. *)
Definition syscall (f : FS -> OSError + FS) : M unit :=
  fun w => match f (fs w) with
           | inr fs' => (Return tt,
                         {| conn := conn w; fs := fs'; stdout := stdout w |})
           | inl e => (Raise (OSException e), w)
           end.

(** [for x in l: body(x)] *)
Fixpoint for_each {A} (l : list A) (body : A -> M unit) : M unit :=
  match l with
  | [] => mret tt
  | x :: rest => body x ;; for_each rest body
  end.

(** [if not b: body] *)
Definition unless (b : bool) (body : M unit) : M unit :=
  if b then mret tt else body.

(** Lines 76-83 of [snapshot]: hash the content and insert the blob if it
    does not exist. *)
Definition store_blob (content : bytes) : M string :=
  let blob_hash := SHA256.hexdigest content in
  found ← query (select_blob blob_hash);
  match found with
  | Some _ => mret tt
  | None =>
      execute_ (insert_blob {| b_hash := blob_hash;
                               b_content := content;
                               b_size := Z.of_nat (length content) |})
               IntegrityError
  end ;;
  mret blob_hash.

(** The body of the inner loop of [snapshot], for one name of [files]. *)
Definition snapshot_file (snapshot_id : Z) (root : path)
    (file : string * option bytes) : M unit :=
  let rel_path := root ++ [fst file] in
  match snd file with
  | None => print (ErrorReading rel_path)
  | Some content =>
      blob_hash ← store_blob content;
      execute_ (insert_file {| f_snapshot_id := snapshot_id;
                               f_path := rel_path;
                               f_blob_hash := blob_hash |})
               IntegrityError
  end.

(** [snapshot(self, target_directory)].  [target_directory] is what the
    file system holds at that path ([None]: nothing), and [timestamp] is
    the formatted [datetime.datetime.now()]. *)
Definition snapshot (target_directory : option Node) (timestamp : string)
  : M unit :=
  snapshot_id ← execute (insert_snapshot timestamp) OperationalError;
  for_each (os_walk target_directory)
    (fun triple => for_each (snd triple)
                     (snapshot_file snapshot_id (fst (fst triple)))) ;;
  commit ;;
  print (SnapshotTaken snapshot_id timestamp).

(** [list_snapshots(self)] *)
Definition list_snapshots : M unit :=
  rows ← query select_snapshots;
  match rows with
  | [] => print NoSnapshotsFound
  | _ =>
      print TableHeader ;;
      for_each rows (fun row => print (TableRow (s_id row) (s_timestamp row)))
  end.

(** The body of the loop of [restore], for one row of [files]. *)
Definition restore_file (output_directory : path) (row : path * string)
  : M unit :=
  let out_path := output_directory ++ fst row in
  syscall (makedirs (removelast out_path)) ;;
  blob_row ← query (select_blob (snd row));
  match blob_row with
  | None => print (MissingBlob (snd row) (fst row))
  | Some b => syscall (write_file out_path (b_content b))
  end.

(** [restore(self, snapshot_id, output_directory)] *)
Definition restore (snapshot_id : Z) (output_directory : path) : M unit :=
  found ← query (select_snapshot snapshot_id);
  match found with
  | None => print (SnapshotNotFound snapshot_id)
  | Some _ =>
      present ← path_exists output_directory;
      unless present (syscall (makedirs output_directory)) ;;
      rows ← query (select_files snapshot_id);
      for_each rows (restore_file output_directory) ;;
      print (SnapshotRestored snapshot_id output_directory)
  end.

(** [prune(self, snapshot_id)] *)
Definition prune (snapshot_id : Z) : M unit :=
  to_delete ← query (select_ids_le snapshot_id);
  match to_delete with
  | [] => print NoSnapshotsToPrune
  | _ =>
      delete (delete_files_le snapshot_id) ;;
      delete (delete_snapshots_le snapshot_id) ;;
      delete delete_unreferenced_blobs ;;
      commit ;;
      print (PrunedSnapshots to_delete)
  end.

(** The four subcommands that [main] dispatches to a method. *)
Inductive Command :=
| CmdSnapshot (target_directory : option Node) (timestamp : string)
| CmdList
| CmdRestore (snapshot_number : Z) (output_directory : path)
| CmdPrune (snapshot : Z).

Definition call (c : Command) : M unit :=
  match c with
  | CmdSnapshot target_directory timestamp => snapshot target_directory timestamp
  | CmdList => list_snapshots
  | CmdRestore snapshot_number output_directory =>
      restore snapshot_number output_directory
  | CmdPrune snapshot => prune snapshot
  end.

(** [BackupTool(db_path)]: a new connection sees the committed content of
    the file; [_init_db] finds its three tables and changes nothing. *)
Definition connect (w : World) : World :=
  set_current (committed (conn w)) w.

(** [close(self)], or the end of the process after an uncaught exception:
    what was not committed is lost. *)
Definition close (w : World) : World :=
  set_current (committed (conn w)) w.

(** One run of the program on the database: open it, call methods until
    the first uncaught exception, close.  [main] is [process [c]]; the
    unit tests are processes of several calls. *)
Definition process (w : World) (cmds : list Command) : World :=
  close (snd (for_each cmds call (connect w))).

(** Any number of runs, one after the other, on the same database file. *)
Definition history (runs : list (list Command)) (w : World) : World :=
  fold_left process runs w.

(** A new database file, before anything was printed. *)
Definition new_world (fs0 : FS) : World :=
  {| conn := {| committed := empty_db; current := empty_db |};
     fs := fs0; stdout := [] |}.

(** The snapshot ids announced on standard output, in order. *)
Definition taken_ids (out : list Message) : list Z :=
  flat_map (fun m => match m with
                     | SnapshotTaken snapshot_id _ => [snapshot_id]
                     | _ => []
                     end) out.

End BackupTool.

Import Sqlite OS BackupTool.

(* ===================================================================== *)
(** ** Vocabulary of the statements *)
(* ===================================================================== *)

(** A body that leaves the connection alone and announces no snapshot. *)
Definition quiet {A} (m : M A) : Prop :=
  forall w, conn (snd (m w)) = conn w
            /\ taken_ids (stdout (snd (m w))) = taken_ids (stdout w).

(** What the three DELETE statements of [prune] leave, in the order in which
    the method issues them. *)
Definition pruned (threshold : Z) (db : DB) : DB :=
  delete_unreferenced_blobs
    (delete_snapshots_le threshold (delete_files_le threshold db)).

(** The world after one more line on standard output. *)
Definition printed (m : Message) (w : World) : World :=
  {| conn := conn w; fs := fs w; stdout := stdout w ++ [m] |}.

(** A database with two snapshots sharing one blob, as left by
    [test_prune]-like runs; used to exercise the statements. *)
Definition hello : bytes := SHA256.bytes_of_string "Hello World".
Definition tree1 : Node :=
  Dir [("file1.txt"%string, File (Some hello));
       ("subdir"%string,
        Dir [("file2.bin"%string, File (Some [x00; xff; x10]))])].
Definition entries2 : list (string * Node) :=
  [("file1.txt"%string, File (Some hello));
   ("notes"%string, File (Some (SHA256.bytes_of_string "Snapshot2")));
   ("empty"%string, Dir []);
   ("a"%string, Dir [("b"%string, Dir [("c.bin"%string, File (Some [x01; x02]))])])].
Definition tree2 : Node := Dir entries2.
Definition world1 : World :=
  snd (snapshot (Some tree1) "2024-01-01 10:00:00" (new_world ∅)).
Definition world2 : World :=
  snd (snapshot (Some tree2) "2024-01-02 10:00:00" world1).
Definition snapshot2 : SnapshotRow :=
  {| s_id := 2; s_timestamp := "2024-01-02 10:00:00" |}.
Definition blob_hello : BlobRow :=
  {| b_hash := SHA256.hexdigest hello; b_content := hello; b_size := 11 |}.
Definition file2_1 : FileRow :=
  {| f_snapshot_id := 2; f_path := ["file1.txt"%string];
     f_blob_hash := SHA256.hexdigest hello |}.

(** A property of the world that a body keeps, however it ends. *)
Definition preserves {A} (P : World -> Prop) (m : M A) : Prop :=
  forall w, P w -> P (snd (m w)).

(** Blob-store well-formedness: every row is keyed by the SHA-256 hex digest
    of its content and records the length of its content. *)
Definition blob_wf (b : BlobRow) : Prop :=
  b_hash b = SHA256.hexdigest (b_content b)
  /\ b_size b = Z.of_nat (length (b_content b)).

Definition blobs_wf (db : DB) : Prop := Forall blob_wf (blobs db).

#[export] Instance blob_wf_dec b : Decision (blob_wf b).
Proof. unfold blob_wf. apply _. Defined.
#[export] Instance blobs_wf_dec db : Decision (blobs_wf db).
Proof. unfold blobs_wf. apply _. Defined.

(** The invariant holds of the database file and of the connection's view. *)
Definition store_wf (w : World) : Prop :=
  blobs_wf (committed (conn w)) /\ blobs_wf (current (conn w)).

#[export] Instance store_wf_dec w : Decision (store_wf w).
Proof. unfold store_wf. apply _. Defined.

(** The loop of [snapshot] over all (relative path, data) pairs of the walk,
    in the order in which the two nested [for] loops reach them. *)
Definition walk_items (target : option Node) : list (path * option bytes) :=
  flat_map (fun triple => map (fun file => (fst (fst triple) ++ [fst file], snd file))
                              (snd triple))
           (os_walk target).

Definition snapshot_item (snapshot_id : Z) (item : path * option bytes) : M unit :=
  match snd item with
  | None => print (ErrorReading (fst item))
  | Some content =>
      blob_hash ← store_blob content;
      execute_ (insert_file {| f_snapshot_id := snapshot_id;
                               f_path := fst item;
                               f_blob_hash := blob_hash |})
               IntegrityError
  end.

(** The database right after the INSERT of a snapshot row. *)
Definition with_snapshot (snapshot_id : Z) (timestamp : string) (db : DB) : DB :=
  {| snapshots := snapshots db ++ [{| s_id := snapshot_id; s_timestamp := timestamp |}];
     sqlite_sequence := snapshot_id;
     blobs := blobs db;
     files := files db |}.

Definition committed_world (w : World) : World :=
  {| conn := {| committed := current (conn w); current := current (conn w) |};
     fs := fs w; stdout := stdout w |}.

(** The digest resolves to a blob in the connection's view. *)
Definition stored (h : string) (w : World) : Prop :=
  is_Some (select_blob h (current (conn w))).

(** The row that [snapshot] inserts for new content. *)
Definition blob_row (content : bytes) : BlobRow :=
  {| b_hash := SHA256.hexdigest content;
     b_content := content;
     b_size := Z.of_nat (length content) |}.

Definition with_blob (row : BlobRow) (db : DB) : DB :=
  {| snapshots := snapshots db; sqlite_sequence := sqlite_sequence db;
     blobs := blobs db ++ [row]; files := files db |}.

Definition with_file (row : FileRow) (db : DB) : DB :=
  {| snapshots := snapshots db; sqlite_sequence := sqlite_sequence db;
     blobs := blobs db; files := files db ++ [row] |}.

(** [1; 2; ..; n] *)
Definition first_ids (n : nat) : list Z := map Z.of_nat (seq 1 n).

(** What every run leaves in the database file: the AUTOINCREMENT counter
    counts the snapshots announced so far, which were numbered 1, 2, ... in
    order, and no stored snapshot has an id beyond the counter. *)
Definition ids_in_step (w : World) : Prop :=
  let db := committed (conn w) in
  let ids := taken_ids (stdout w) in
  ids = first_ids (length ids)
  /\ sqlite_sequence db = Z.of_nat (length ids)
  /\ (forall s, s ∈ snapshots db -> 1 <= s_id s <= Z.of_nat (length ids)).

(** Between two calls of one run nothing is left uncommitted. *)
Definition settled (w : World) : Prop :=
  current (conn w) = committed (conn w) /\ ids_in_step w.

(** A session in the manner of [test_prune], then a second process. *)
Definition sample_runs : list (list Command) :=
  [ [ CmdSnapshot (Some tree1) "2024-01-01 10:00:00";
      CmdSnapshot (Some tree2) "2024-01-02 10:00:00";
      CmdPrune 2;
      CmdList ];
    [ CmdSnapshot (Some tree1) "2024-01-03 10:00:00";
      CmdRestore 3 ["out"%string] ] ].

(** What the loop of [snapshot] leaves alone. *)
Definition loop_frame (c : DB) (rows : list SnapshotRow) (n : Z) (ids : list Z)
    (w : World) : Prop :=
  committed (conn w) = c
  /\ snapshots (current (conn w)) = rows
  /\ sqlite_sequence (current (conn w)) = n
  /\ taken_ids (stdout w) = ids.


(** All prefixes of a path, from [[]] to the path itself. *)
Fixpoint prefixes (p : path) : list path :=
  [] :: match p with
        | [] => []
        | x :: p' => map (cons x) (prefixes p')
        end.

Definition is_file (e : option Entry) : bool :=
  match e with Some (RegularFile _) => true | _ => false end.

Definition is_directory (e : option Entry) : bool :=
  match e with Some Directory => true | _ => false end.

(** No regular file sits at [p] or above it: [os.makedirs(p)] can succeed. *)
Definition clear_way (fs : FS) (p : path) : bool :=
  forallb (fun q => negb (is_file (fs !! q))) (prefixes p).

(** No path of the list is a prefix of another one, or equal to it. *)
Fixpoint prefix_free (paths : list path) : bool :=
  match paths with
  | [] => true
  | p :: rest =>
      forallb (fun q => negb (bool_decide (p `prefix_of` q))
                        && negb (bool_decide (q `prefix_of` p))) rest
      && prefix_free rest
  end.

(** The file system lets [restore] write files at [paths] below [out]:
    the output directory can be created, and for each path its directory can
    be created, no directory has its name, and no other path of the list is
    in its way. *)
Definition restorable (fs : FS) (out : path) (paths : list path) : bool :=
  clear_way fs out
  && forallb (fun p => negb (bool_decide (p = []))
                       && clear_way fs (out ++ removelast p)
                       && negb (is_directory (fs !! (out ++ p)))) paths
  && prefix_free paths.

(** The same, as the loop of [restore] needs it. *)
Definition loop_ok (out : path) (fs : FS) (paths : list path) : Prop :=
  (forall p, p ∈ paths ->
     p <> []
     /\ (forall q, q `prefix_of` (out ++ removelast p) -> is_file (fs !! q) = false)
     /\ is_directory (fs !! (out ++ p)) = false)
  /\ prefix_free paths = true.

(** The lines that the loop of [restore] prints: one for each row whose
    blob is missing, in the order of the rows. *)
Definition missing_reports (db : DB) (rows : list (path * string))
  : list Message :=
  flat_map (fun row => match select_blob (snd row) db with
                       | None => [MissingBlob (snd row) (fst row)]
                       | Some _ => []
                       end) rows.

(** [world1] after the blob of ["file1.txt"] was lost: the file entry of
    snapshot 1 still names its digest. *)
Definition damaged_db : DB :=
  {| snapshots := snapshots (current (conn world1));
     sqlite_sequence := sqlite_sequence (current (conn world1));
     blobs := tail (blobs (current (conn world1)));
     files := files (current (conn world1)) |}.
Definition damaged_world : World :=
  {| conn := {| committed := damaged_db; current := damaged_db |};
     fs := ∅; stdout := [] |}.

(** The (path, data) pairs of a walk that starts at [root]. *)
Definition items_of (root : path) (top : Node) : list (path * option bytes) :=
  flat_map (fun triple => map (fun file => (fst (fst triple) ++ [fst file], snd file))
                              (snd triple))
           (walk root top).

(** The rows that [snapshot] inserts into the files table. *)
Definition rows_of (snapshot_id : Z) (items : list (path * option bytes))
  : list FileRow :=
  flat_map (fun item => match snd item with
                        | Some content =>
                            [{| f_snapshot_id := snapshot_id;
                                f_path := fst item;
                                f_blob_hash := SHA256.hexdigest content |}]
                        | None => []
                        end) items.

(** No two different contents of the list have the same digest. *)
Definition no_collision (cs : list bytes) : bool :=
  forallb (fun c1 =>
             forallb (fun c2 =>
                        implb (bool_decide (SHA256.hexdigest c1 = SHA256.hexdigest c2))
                              (bool_decide (c1 = c2))) cs) cs.

(** Nothing exists below [out], and [out] can be created or is a
    directory. *)
Definition output_clear (fs : FS) (out : path) : bool :=
  clear_way fs out
  && forallb (fun k => implb (bool_decide (out `prefix_of` k))
                             (bool_decide (k = out)))
             (map fst (map_to_list fs)).

(** No file entry carries an id that SQLite has not handed out yet. *)
Definition ids_bounded (db : DB) : Prop :=
  Forall (fun f => f_snapshot_id f <= last_id db) (files db).

#[export] Instance ids_bounded_dec db : Decision (ids_bounded db).
Proof. unfold ids_bounded. apply _. Defined.

(** The (path, digest) pairs that [snapshot] records for the items it could
    read. *)
Definition entries_of (items : list (path * option bytes))
  : list (path * string) :=
  flat_map (fun item => match snd item with
                        | Some content => [(fst item, SHA256.hexdigest content)]
                        | None => []
                        end) items.

(** The lines that the loop of [snapshot] prints. *)
Definition read_errors (items : list (path * option bytes)) : list Message :=
  flat_map (fun item => match snd item with
                        | Some _ => []
                        | None => [ErrorReading (fst item)]
                        end) items.

(** What holds of the database in every state the tool can reach: the blob
    store is well formed, and no snapshot row or file entry carries an id
    beyond the AUTOINCREMENT counter. *)
Definition consistent (db : DB) : Prop :=
  blobs_wf db
  /\ 0 <= sqlite_sequence db
  /\ (forall s, s ∈ snapshots db -> s_id s <= sqlite_sequence db)
  /\ (forall f, f ∈ files db -> f_snapshot_id f <= sqlite_sequence db).

Definition store_consistent (w : World) : Prop :=
  consistent (committed (conn w)) /\ consistent (current (conn w)).

(** [damaged_world] with the other blob lost instead. *)
Definition damaged_db' : DB :=
  {| snapshots := snapshots (current (conn world1));
     sqlite_sequence := sqlite_sequence (current (conn world1));
     blobs := [blob_hello];
     files := files (current (conn world1)) |}.
Definition damaged_world' : World :=
  {| conn := {| committed := damaged_db'; current := damaged_db' |};
     fs := ∅; stdout := [] |}.

(** Induction on trees, with the hypothesis for every entry of a
    directory. *)
Fixpoint Node_forall_ind (P : Node -> Prop)
    (Hfile : forall data, P (File data))
    (Hdir : forall entries, Forall (fun e => P (snd e)) entries -> P (Dir entries))
    (n : Node) : P n :=
  match n with
  | File data => Hfile data
  | Dir entries =>
      Hdir entries
        ((fix go (l : list (string * Node)) : Forall (fun e => P (snd e)) l :=
            match l with
            | [] => List.Forall_nil _
            | e :: l' =>
                List.Forall_cons _ e l' (Node_forall_ind P Hfile Hdir (snd e)) (go l')
            end) entries)
  end.

(** A body that never writes to the file system. *)
Definition keeps_fs {A} (m : M A) : Prop :=
  forall w, fs (snd (m w)) = fs w.

(** A directory that lists the name ["a"] twice, which no file system
    does; its second file makes the INSERT into files fail. *)
Definition twice_a : Node :=
  Dir [("a"%string, File (Some hello)); ("a"%string, File (Some [x00]))].

(** A directory with a file that cannot be read. *)
Definition entries3 : list (string * Node) :=
  [("locked"%string, File None);
   ("file1.txt"%string, File (Some hello));
   ("d"%string, Dir [("gone"%string, File None);
                     ("copy.txt"%string, File (Some hello))])].

(** The primary key of a file entry. *)
Definition file_key (f : FileRow) : Z * path := (f_snapshot_id f, f_path f).

(** The primary keys of the three tables are unique, and the snapshot rows
    lie in strictly ascending order of their ids. *)
Definition keys_unique (db : DB) : Prop :=
  StronglySorted Z.lt (map s_id (snapshots db))
  /\ NoDup (map b_hash (blobs db))
  /\ NoDup (map file_key (files db)).

Definition store_keys_unique (w : World) : Prop :=
  keys_unique (committed (conn w)) /\ keys_unique (current (conn w)).

(** The two foreign keys of the files table hold: every file entry names a
    stored blob and a stored snapshot. *)
Definition references_hold (db : DB) : Prop :=
  Forall (fun f => is_Some (select_blob (f_blob_hash f) db)
                   /\ f_snapshot_id f ∈ map s_id (snapshots db))
         (files db).

#[export] Instance references_hold_dec db : Decision (references_hold db).
Proof. unfold references_hold. apply _. Defined.

Definition store_references_hold (w : World) : Prop :=
  references_hold (committed (conn w)) /\ references_hold (current (conn w)).

#[export] Instance store_references_hold_dec w :
  Decision (store_references_hold w).
Proof. unfold store_references_hold. apply _. Defined.

(** What [list_snapshots] prints for the rows of the snapshots table. *)
Definition listing (rows : list SnapshotRow) : list Message :=
  match rows with
  | [] => [NoSnapshotsFound]
  | _ => TableHeader :: map (fun row => TableRow (s_id row) (s_timestamp row)) rows
  end.

(** The world with another file system. *)
Definition with_fs (fs' : FS) (w : World) : World :=
  {| conn := conn w; fs := fs'; stdout := stdout w |}.

(** [if not os.path.exists(output_directory): os.makedirs(..)], on the
    file system alone. *)
Definition ensure_directory (out : path) (fs0 : FS) : OSError + FS :=
  if bool_decide (is_Some (fs0 !! out)) then inr fs0 else makedirs out fs0.

(** How [restore] into [out] may change the file system: what exists stays,
    directories stay directories, entries outside [out] keep their content,
    and nothing appears beside [out] and the directories above it. *)
Definition fs_grows (out : path) (fs1 fs2 : FS) : Prop :=
  (forall k, is_Some (fs1 !! k) -> is_Some (fs2 !! k))
  /\ (forall k, fs1 !! k = Some Directory -> fs2 !! k = Some Directory)
  /\ (forall k e, ~ out `prefix_of` k -> fs1 !! k = Some e -> fs2 !! k = Some e)
  /\ (forall k, ~ out `prefix_of` k -> ~ k `prefix_of` out -> fs2 !! k = fs1 !! k).

(** A place where the output directory of a restore is a regular file, and
    one with files beside the output directory. *)
Definition blocked_world : World :=
  with_fs (<[["restore"%string] := RegularFile hello]>
             (<[[] := Directory]> ∅)) world1.
Definition busy_world : World :=
  with_fs (<[["home"; "notes.txt"]%string := RegularFile [x01]]>
             (<[["home"%string] := Directory]> (<[[] := Directory]> ∅))) world1.
(* ===================================================================== *)
(** ** SHA-256 test vectors *)
(* ===================================================================== *)

Example sha256_constants :
  length SHA256.K = 64%nat
  /\ nth 0 SHA256.K 0 = 0x428a2f98 /\ nth 63 SHA256.K 0 = 0xc67178f2
  /\ nth 0 SHA256.H0 0 = 0x6a09e667 /\ nth 7 SHA256.H0 0 = 0x5be0cd19.
Proof. vm_compute. repeat split; reflexivity. Qed.

Example sha256_empty :
  SHA256.hexdigest [] =
  "e3b0c44298fc1c149afbf4c8996fb92427ae41e4649b934ca495991b7852b855"%string.
Proof. vm_compute. reflexivity. Qed.

Example sha256_abc :
  SHA256.hexdigest (SHA256.bytes_of_string "abc") =
  "ba7816bf8f01cfea414140de5dae2223b00361a396177a9cb410ff61f20015ad"%string.
Proof. vm_compute. reflexivity. Qed.

(** A message of 56 bytes, which takes two blocks. *)
Example sha256_two_blocks :
  SHA256.hexdigest
    (SHA256.bytes_of_string
       "abcdbcdecdefdefgefghfghighijhijkijkljklmklmnlmnomnopnopq") =
  "248d6a61d20638b8e5c026930c3e6039a33ce45964ff2167f6ecedd419db06c1"%string.
Proof. vm_compute. reflexivity. Qed.

(* ===================================================================== *)
(** ** Running method bodies *)
(* ===================================================================== *)

Lemma run_bind {A B} (m : M A) (k : A -> M B) (w : World) :
  (m ≫= k) w = match m w with
               | (Return a, w') => k a w'
               | (Raise e, w') => (Raise e, w')
               end.
Proof. reflexivity. Qed.

Lemma run_for_each_cons {A} (x : A) (l : list A) (body : A -> M unit) w :
  for_each (x :: l) body w = match body x w with
                             | (Return _, w') => for_each l body w'
                             | (Raise e, w') => (Raise e, w')
                             end.
Proof. reflexivity. Qed.

Lemma run_for_each_app {A} (l1 l2 : list A) (body : A -> M unit) w :
  for_each (l1 ++ l2) body w = match for_each l1 body w with
                               | (Return _, w') => for_each l2 body w'
                               | (Raise e, w') => (Raise e, w')
                               end.
Proof.
  revert w. induction l1 as [|x l1 IH]; intros w; [reflexivity|].
  rewrite <- app_comm_cons, !run_for_each_cons.
  destruct (body x w) as [[[]|e] w']; [apply IH | reflexivity].
Qed.

(** *** Bodies that leave the connection alone *)

Lemma taken_ids_app out1 out2 :
  taken_ids (out1 ++ out2) = taken_ids out1 ++ taken_ids out2.
Proof. apply flat_map_app. Qed.

Lemma quiet_ret {A} (a : A) : quiet (mret a).
Proof. intros w. split; reflexivity. Qed.

Lemma quiet_bind {A B} (m : M A) (k : A -> M B) :
  quiet m -> (forall a, quiet (k a)) -> quiet (m ≫= k).
Proof.
  intros Hm Hk w. rewrite run_bind. specialize (Hm w).
  destruct (m w) as [[a|e] w']; simpl in *; [|exact Hm].
  destruct Hm as [<- <-]. apply Hk.
Qed.

Lemma quiet_query {A} (q : DB -> A) : quiet (query q).
Proof. intros w. split; reflexivity. Qed.

Lemma quiet_print m : taken_ids [m] = [] -> quiet (print m).
Proof.
  intros Hm w. split; [reflexivity|]. simpl.
  rewrite taken_ids_app, Hm. apply app_nil_r.
Qed.

Lemma quiet_path_exists p : quiet (path_exists p).
Proof. intros w. split; reflexivity. Qed.

Lemma quiet_syscall f : quiet (syscall f).
Proof. intros w. unfold syscall. destruct (f (fs w)); split; reflexivity. Qed.

Lemma quiet_unless b m : quiet m -> quiet (unless b m).
Proof. intros Hm. destruct b; [apply quiet_ret | exact Hm]. Qed.

Lemma quiet_for_each {A} (l : list A) (body : A -> M unit) :
  (forall x, quiet (body x)) -> quiet (for_each l body).
Proof.
  intros Hb. induction l as [|x l IH]; [apply quiet_ret|].
  apply quiet_bind; [apply Hb | intros _; exact IH].
Qed.

Lemma quiet_restore_file out row : quiet (restore_file out row).
Proof.
  unfold restore_file.
  apply quiet_bind; [apply quiet_syscall | intros _].
  apply quiet_bind; [apply quiet_query | intros [b|]].
  - apply quiet_syscall.
  - apply quiet_print. reflexivity.
Qed.

Lemma quiet_restore snapshot_id out : quiet (restore snapshot_id out).
Proof.
  unfold restore.
  apply quiet_bind; [apply quiet_query | intros [i|]].
  2: apply quiet_print; reflexivity.
  apply quiet_bind; [apply quiet_path_exists | intros present].
  apply quiet_bind; [apply quiet_unless, quiet_syscall | intros _].
  apply quiet_bind; [apply quiet_query | intros rows].
  apply quiet_bind; [|intros _; apply quiet_print; reflexivity].
  apply quiet_for_each, quiet_restore_file.
Qed.

Lemma quiet_list_snapshots : quiet list_snapshots.
Proof.
  unfold list_snapshots.
  apply quiet_bind; [apply quiet_query|].
  intros [|r rows]; [apply quiet_print; reflexivity|].
  apply quiet_bind; [apply quiet_print; reflexivity|].
  intros _. apply quiet_for_each. intros row. apply quiet_print. reflexivity.
Qed.

(* ===================================================================== *)
(** ** restore *)
(* ===================================================================== *)

(** C9. [restore] never changes the persisted store.  Whatever the snapshot
    id and the output directory, and whether the call restores the files,
    reports a missing snapshot, reports missing blobs or raises, the
    connection after the call is the connection before it: the snapshots,
    blobs and files tables, in the committed database and in the
    connection's view, are the same. *)
Theorem restore_keeps_store :
  forall (snapshot_id : Z) (output_directory : path) (w : World),
    let w' := snd (restore snapshot_id output_directory w) in
    conn w' = conn w
    /\ snapshots (current (conn w')) = snapshots (current (conn w))
    /\ blobs (current (conn w')) = blobs (current (conn w))
    /\ files (current (conn w')) = files (current (conn w))
    /\ committed (conn w') = committed (conn w).
Proof.
  intros snapshot_id output_directory w w'.
  assert (conn w' = conn w) as -> by apply quiet_restore.
  repeat split.
Qed.

Lemma select_snapshot_None snapshot_id db :
  snapshot_id ∉ map s_id (snapshots db) -> select_snapshot snapshot_id db = None.
Proof.
  unfold select_snapshot. intros Hn.
  destruct (find _ _) as [s|] eqn:E; [|reflexivity].
  exfalso. apply Hn. apply find_some in E as [Hin Hs].
  apply bool_decide_eq_true in Hs. subst.
  apply list_elem_of_In, in_map, Hin.
Qed.

(** C7. [restore] of a snapshot id that is not in the snapshots table
    prints "Snapshot <id> not found." and returns; the connection and the
    file system are untouched, so no output directory and no file is
    created. *)
Theorem restore_unknown_snapshot :
  forall (snapshot_id : Z) (output_directory : path) (w : World),
    snapshot_id ∉ map s_id (snapshots (current (conn w))) ->
    restore snapshot_id output_directory w =
      (Return tt, {| conn := conn w;
                     fs := fs w;
                     stdout := stdout w ++ [SnapshotNotFound snapshot_id] |}).
Proof.
  intros snapshot_id output_directory w Hn.
  unfold restore. rewrite run_bind. unfold query at 1.
  rewrite (select_snapshot_None _ _ Hn). reflexivity.
Qed.

Lemma restore_unknown_snapshot_witness :
  (7 ∉ map s_id (snapshots (current (conn world1))))
  /\ restore 7 ["tmp"; "restore"]%string world1 =
       (Return tt, {| conn := conn world1;
                      fs := fs world1;
                      stdout := stdout world1 ++ [SnapshotNotFound 7] |}).
Proof.
  split; [compute_done|].
  apply (restore_unknown_snapshot 7 ["tmp"; "restore"]%string world1).
  compute_done.
Defined.

(* ===================================================================== *)
(** ** prune *)
(* ===================================================================== *)

Lemma run_prune threshold w :
  prune threshold w =
    match select_ids_le threshold (current (conn w)) with
    | [] => (Return tt, printed NoSnapshotsToPrune w)
    | ids =>
        let db' := pruned threshold (current (conn w)) in
        (Return tt, {| conn := {| committed := db'; current := db' |};
                       fs := fs w;
                       stdout := stdout w ++ [PrunedSnapshots ids] |})
    end.
Proof.
  unfold prune. rewrite run_bind. unfold query at 1.
  destruct (select_ids_le threshold (current (conn w))); reflexivity.
Qed.

Lemma select_ids_le_nil threshold db :
  select_ids_le threshold db = [] <->
  forall s, s ∈ snapshots db -> threshold < s_id s.
Proof.
  unfold select_ids_le. split.
  - intros H s Hs. destruct (decide (s_id s <= threshold)) as [Hle|]; [|lia].
    assert (s ∈ filter (fun s => s_id s <= threshold) (snapshots db)) as Hin
        by (apply list_elem_of_filter; auto).
    apply (list_elem_of_fmap_2 s_id) in Hin.
    change (s_id <$> _) with (map s_id (filter (fun s => s_id s <= threshold) (snapshots db))) in Hin.
    rewrite H in Hin. inversion Hin.
  - intros H. destruct (filter _ _) as [|s l] eqn:E; [reflexivity|].
    assert (s ∈ filter (fun s => s_id s <= threshold) (snapshots db)) as Hin
        by (rewrite E; left).
    apply list_elem_of_filter in Hin as [Hle Hin]. apply H in Hin. lia.
Qed.

Lemma filter_all {A} (P : A -> Prop) `{forall x, Decision (P x)} (l : list A) :
  (forall x, x ∈ l -> P x) -> filter P l = l.
Proof.
  induction l as [|x l IH]; intros Hall; [reflexivity|].
  rewrite filter_cons_True by (apply Hall; left).
  f_equal. apply IH. intros y Hy. apply Hall. right. exact Hy.
Qed.

Lemma prune_snapshots threshold w :
  snapshots (current (conn (snd (prune threshold w)))) =
  filter (fun s => ~ s_id s <= threshold) (snapshots (current (conn w))).
Proof.
  rewrite run_prune.
  destruct (select_ids_le threshold (current (conn w))) eqn:E; [|reflexivity].
  simpl. symmetry. apply filter_all. intros s Hs.
  apply select_ids_le_nil with (s := s) in E; [lia | exact Hs].
Qed.

Lemma prune_snapshots_elem threshold w s :
  s ∈ snapshots (current (conn (snd (prune threshold w)))) <->
  s ∈ snapshots (current (conn w)) /\ threshold < s_id s.
Proof.
  rewrite prune_snapshots, list_elem_of_filter.
  split; intros []; split; auto; lia.
Qed.

(** C3. [prune threshold] always returns.  Afterwards the snapshots table
    holds exactly the former rows with an id above the threshold, in their
    order: every snapshot with id <= threshold is gone and none with
    id > threshold is.  When some snapshot had id <= threshold, the file
    entries with a snapshot id <= threshold are gone with them, and the
    result is committed.  When no snapshot has id <= threshold the call only
    prints "No snapshots to prune." and changes nothing else; this is the
    case of every second call with the same threshold. *)
Theorem prune_removes_exactly :
  forall (threshold : Z) (w : World),
    let r := prune threshold w in
    let db := current (conn w) in
    let db' := current (conn (snd r)) in
    fst r = Return tt
    /\ snapshots db' = filter (fun s => ~ s_id s <= threshold) (snapshots db)
    /\ (forall s, s ∈ snapshots db' <-> s ∈ snapshots db /\ threshold < s_id s)
    /\ ((exists s, s ∈ snapshots db /\ s_id s <= threshold) ->
        files db' = filter (fun f => ~ f_snapshot_id f <= threshold) (files db)
        /\ committed (conn (snd r)) = db'
        /\ stdout (snd r) =
             stdout w ++ [PrunedSnapshots (select_ids_le threshold db)])
    /\ ((forall s, s ∈ snapshots db -> threshold < s_id s) ->
        r = (Return tt, printed NoSnapshotsToPrune w))
    /\ prune threshold (snd r) =
         (Return tt, printed NoSnapshotsToPrune (snd r)).
Proof.
  intros threshold w r db db'.
  pose proof (prune_snapshots threshold w) as Hsnap.
  pose proof (prune_snapshots_elem threshold w) as Hmem.
  split; [|split; [exact Hsnap|split; [exact Hmem|split; [|split]]]].
  - subst r. rewrite run_prune. destruct (select_ids_le _ _); reflexivity.
  - intros (s & Hs & Hle). subst r db db'. rewrite run_prune.
    destruct (select_ids_le threshold (current (conn w))) eqn:E.
    + apply select_ids_le_nil with (s := s) in E; [lia | exact Hs].
    + repeat split.
  - intros Hall. subst r. rewrite run_prune.
    apply select_ids_le_nil in Hall. fold db. rewrite Hall. reflexivity.
  - rewrite run_prune. fold db'.
    replace (select_ids_le threshold db') with (@nil Z); [reflexivity|].
    symmetry. apply select_ids_le_nil. intros s Hs. apply Hmem in Hs. lia.
Qed.

Lemma find_filter_keep {A} (p : A -> bool) (P : A -> Prop)
    `{forall x, Decision (P x)} (l : list A) (b : A) :
  find p l = Some b -> P b -> find p (filter P l) = Some b.
Proof.
  induction l as [|x l IH]; intros Hf HP; [discriminate|].
  simpl in Hf. destruct (p x) eqn:Hpx.
  - injection Hf as ->. rewrite filter_cons_True by exact HP.
    simpl. rewrite Hpx. reflexivity.
  - rewrite filter_cons. destruct (decide (P x)); [|auto].
    simpl. rewrite Hpx. auto.
Qed.

Lemma select_blob_elem h db b :
  select_blob h db = Some b -> b ∈ blobs db /\ b_hash b = h.
Proof.
  unfold select_blob. intros H. apply find_some in H as [Hin Hh].
  apply bool_decide_eq_true in Hh. split; [apply list_elem_of_In, Hin | exact Hh].
Qed.

(** C2. Take any [prune threshold] and any snapshot that is still in the
    snapshots table afterwards.  Its id is above the threshold, each of its
    file entries is still in the files table, and an entry whose digest
    resolved to a blob before the call resolves to that same blob after
    it: the blob is still in the blobs table. *)
Theorem prune_keeps_live_blobs :
  forall (threshold : Z) (w : World) (s : SnapshotRow) (f : FileRow)
         (b : BlobRow),
    let db := current (conn w) in
    let db' := current (conn (snd (prune threshold w))) in
    s ∈ snapshots db' ->
    f ∈ files db ->
    f_snapshot_id f = s_id s ->
    select_blob (f_blob_hash f) db = Some b ->
    threshold < s_id s
    /\ f ∈ files db'
    /\ select_blob (f_blob_hash f) db' = Some b
    /\ b ∈ blobs db'.
Proof.
  intros threshold w s f b db db' Hs Hf Hfs Hb.
  apply prune_snapshots_elem in Hs as [Hs Hlt]. split; [exact Hlt|].
  subst db'. rewrite run_prune. fold db.
  destruct (select_ids_le threshold db) eqn:E.
  { simpl. fold db. split; [exact Hf|]. split; [exact Hb|].
    apply select_blob_elem in Hb as [Hb _]. exact Hb. }
  simpl.
  assert (f ∈ files (pruned threshold db)) as Hf'.
  { simpl. apply list_elem_of_filter. split; [lia | exact Hf]. }
  split; [exact Hf'|].
  assert (select_blob (f_blob_hash f) (pruned threshold db) = Some b) as Hb'.
  { unfold select_blob. simpl. apply find_filter_keep; [exact Hb|].
    apply select_blob_elem in Hb as [_ ->].
    apply list_elem_of_In, in_map, list_elem_of_In.
    apply list_elem_of_filter. split; [lia | exact Hf]. }
  split; [exact Hb'|]. apply select_blob_elem in Hb' as [Hb' _]. exact Hb'.
Qed.

Lemma prune_keeps_live_blobs_witness :
  let db := current (conn world2) in
  let db' := current (conn (snd (prune 1 world2))) in
  (snapshot2 ∈ snapshots db'
   /\ file2_1 ∈ files db
   /\ f_snapshot_id file2_1 = s_id snapshot2
   /\ select_blob (f_blob_hash file2_1) db = Some blob_hello)
  /\ (1 < s_id snapshot2
      /\ file2_1 ∈ files db'
      /\ select_blob (f_blob_hash file2_1) db' = Some blob_hello
      /\ blob_hello ∈ blobs db').
Proof.
  split; [repeat split; compute_done|].
  apply (prune_keeps_live_blobs 1 world2 snapshot2 file2_1 blob_hello);
    compute_done.
Defined.

(* ===================================================================== *)
(** ** snapshot *)
(* ===================================================================== *)

Lemma run_for_each_map {A B} (g : A -> B) (l : list A) (body : B -> M unit) w :
  for_each (map g l) body w = for_each l (fun x => body (g x)) w.
Proof.
  revert w. induction l as [|x l IH]; intros w; [reflexivity|].
  simpl map. rewrite !run_for_each_cons.
  destruct (body (g x) w) as [[[]|e] w']; [apply IH | reflexivity].
Qed.

Lemma run_for_each_flat_map {A B} (g : A -> list B) (l : list A)
    (body : B -> M unit) w :
  for_each (flat_map g l) body w = for_each l (fun x => for_each (g x) body) w.
Proof.
  revert w. induction l as [|x l IH]; intros w; [reflexivity|].
  simpl flat_map. rewrite run_for_each_app, run_for_each_cons.
  destruct (for_each (g x) body w) as [[[]|e] w']; [apply IH | reflexivity].
Qed.

Lemma run_for_each_ext {A} (l : list A) (body1 body2 : A -> M unit) w :
  (forall x w, body1 x w = body2 x w) ->
  for_each l body1 w = for_each l body2 w.
Proof.
  intros Hext. revert w. induction l as [|x l IH]; intros w; [reflexivity|].
  rewrite !run_for_each_cons, Hext.
  destruct (body2 x w) as [[[]|e] w']; [apply IH | reflexivity].
Qed.

(** The two nested loops of [snapshot] are one loop over [walk_items]. *)
Lemma snapshot_loops snapshot_id target w :
  for_each (os_walk target)
    (fun triple => for_each (snd triple)
                     (snapshot_file snapshot_id (fst (fst triple)))) w
  = for_each (walk_items target) (snapshot_item snapshot_id) w.
Proof.
  unfold walk_items. rewrite run_for_each_flat_map.
  apply run_for_each_ext. intros triple w'.
  rewrite run_for_each_map. reflexivity.
Qed.

Lemma run_snapshot target timestamp w :
  snapshot target timestamp w =
    match insert_snapshot timestamp (current (conn w)) with
    | None => (Raise OperationalError, w)
    | Some (snapshot_id, db1) =>
        match for_each (walk_items target) (snapshot_item snapshot_id)
                       (set_current db1 w) with
        | (Return _, w2) =>
            (Return tt,
             printed (SnapshotTaken snapshot_id timestamp) (committed_world w2))
        | (Raise e, w2) => (Raise e, w2)
        end
    end.
Proof.
  unfold snapshot. rewrite run_bind. unfold execute at 1.
  destruct (insert_snapshot timestamp (current (conn w))) as [[snapshot_id db1]|];
    [|reflexivity].
  rewrite run_bind, snapshot_loops.
  destruct (for_each _ _ _) as [[[]|e] w2]; reflexivity.
Qed.

Lemma insert_snapshot_Some timestamp db :
  last_id db < max_int64 ->
  insert_snapshot timestamp db =
    Some (last_id db + 1, with_snapshot (last_id db + 1) timestamp db).
Proof.
  intros Hlt. unfold insert_snapshot.
  rewrite bool_decide_eq_false_2 by lia. reflexivity.
Qed.

Lemma insert_snapshot_inv timestamp db snapshot_id db1 :
  insert_snapshot timestamp db = Some (snapshot_id, db1) ->
  last_id db < max_int64 /\ snapshot_id = last_id db + 1
  /\ db1 = with_snapshot snapshot_id timestamp db.
Proof.
  unfold insert_snapshot. case_bool_decide; [discriminate|].
  intros [= <- <-]. repeat split. lia.
Qed.

(** C5, as the code has it.  [snapshot] makes no check of its target.  When
    nothing exists at the target, or when the target is a regular file,
    [os.walk] yields nothing and the call does not fail: provided SQLite
    can still hand out an id, it inserts and commits a snapshot row with
    the next id, adds no file entry and no blob, and announces the
    snapshot. *)
Theorem snapshot_of_invalid_target :
  forall (target : option Node) (timestamp : string) (w : World),
    (target = None \/ exists data, target = Some (File data)) ->
    last_id (current (conn w)) < max_int64 ->
    let db := current (conn w) in
    let snapshot_id := last_id db + 1 in
    let db' := with_snapshot snapshot_id timestamp db in
    snapshot target timestamp w =
      (Return tt, {| conn := {| committed := db'; current := db' |};
                     fs := fs w;
                     stdout := stdout w ++ [SnapshotTaken snapshot_id timestamp] |})
    /\ files db' = files db
    /\ blobs db' = blobs db.
Proof.
  intros target timestamp w Htarget Hlt db snapshot_id db'.
  split; [|split; reflexivity].
  rewrite run_snapshot, (insert_snapshot_Some _ _ Hlt).
  replace (walk_items target) with (@nil (path * option bytes)).
  - reflexivity.
  - destruct Htarget as [->|[data ->]]; reflexivity.
Qed.

Lemma snapshot_of_invalid_target_witness :
  snapshot None "2024-01-03 10:00:00" world1 =
    (Return tt,
     {| conn := {| committed := with_snapshot 2 "2024-01-03 10:00:00"
                                  (current (conn world1));
                   current := with_snapshot 2 "2024-01-03 10:00:00"
                                  (current (conn world1)) |};
        fs := fs world1;
        stdout := stdout world1 ++ [SnapshotTaken 2 "2024-01-03 10:00:00"] |}).
Proof.
  apply (snapshot_of_invalid_target None "2024-01-03 10:00:00" world1).
  - left. reflexivity.
  - vm_compute. reflexivity.
Defined.

(** C5, as the claim has it, fails: on a new database, [snapshot] of a
    target that does not exist returns normally, and the snapshots table
    then holds a committed row with id 1. *)
Lemma snapshot_of_invalid_target_counterexample :
  let w0 := new_world ∅ in
  let r := snapshot None "2024-01-01 10:00:00" w0 in
  fst r = Return tt
  /\ snapshots (committed (conn (snd r))) =
       [{| s_id := 1; s_timestamp := "2024-01-01 10:00:00" |}]
  /\ ~ (exists e, fst r = Raise e)
  /\ snapshots (committed (conn (snd r))) <> snapshots (committed (conn w0)).
Proof.
  vm_compute. repeat split; try discriminate.
  intros [e He]. discriminate.
Qed.

(* ===================================================================== *)
(** ** Properties kept by every statement of a body *)
(* ===================================================================== *)

Section Preserves.
Context (P : World -> Prop).

Lemma preserves_ret {A} (a : A) : preserves P (mret a).
Proof. intros w Hw. exact Hw. Qed.

Lemma preserves_bind {A B} (m : M A) (k : A -> M B) :
  preserves P m -> (forall a, preserves P (k a)) -> preserves P (m ≫= k).
Proof.
  intros Hm Hk w Hw. rewrite run_bind. specialize (Hm w Hw).
  destruct (m w) as [[a|e] w']; simpl in *; [|exact Hm].
  apply Hk, Hm.
Qed.

Lemma preserves_for_each {A} (l : list A) (body : A -> M unit) :
  (forall x, preserves P (body x)) -> preserves P (for_each l body).
Proof.
  intros Hb. induction l as [|x l IH]; [apply preserves_ret|].
  apply preserves_bind; [apply Hb | intros _; exact IH].
Qed.

Lemma preserves_for_each_in {A} (l : list A) (body : A -> M unit) :
  (forall x, x ∈ l -> preserves P (body x)) -> preserves P (for_each l body).
Proof.
  induction l as [|x l IH]; intros Hb; [apply preserves_ret|].
  apply preserves_bind; [apply Hb; left | intros _].
  apply IH. intros y Hy. apply Hb. right. exact Hy.
Qed.

Lemma preserves_unless b m : preserves P m -> preserves P (unless b m).
Proof. intros Hm. destruct b; [apply preserves_ret | exact Hm]. Qed.

(** Properties of the connection and of the snapshots announced. *)
Hypothesis P_frame :
  forall w w', conn w' = conn w ->
               taken_ids (stdout w') = taken_ids (stdout w) -> P w -> P w'.

Lemma preserves_quiet {A} (m : M A) : quiet m -> preserves P m.
Proof. intros Hm w Hw. apply (P_frame w); [apply Hm | apply Hm | exact Hw]. Qed.

Lemma preserves_execute {A} (stmt : DB -> option (A * DB)) e :
  (forall w a db, stmt (current (conn w)) = Some (a, db) ->
                  P w -> P (set_current db w)) ->
  preserves P (execute stmt e).
Proof.
  intros Hs w Hw. unfold execute.
  destruct (stmt (current (conn w))) as [[a db]|] eqn:E; simpl; eauto.
Qed.

Lemma preserves_execute_ (stmt : DB -> option DB) e :
  (forall w db, stmt (current (conn w)) = Some db ->
                P w -> P (set_current db w)) ->
  preserves P (execute_ stmt e).
Proof.
  intros Hs. apply preserves_execute. intros w [] db E Hw.
  destruct (stmt (current (conn w))) eqn:E'; simpl in E; [|discriminate].
  injection E as <-. eauto.
Qed.

Lemma preserves_store_blob content :
  (forall w db, insert_blob (blob_row content) (current (conn w)) = Some db ->
                P w -> P (set_current db w)) ->
  preserves P (store_blob content).
Proof.
  intros Hs. unfold store_blob.
  apply preserves_bind; [apply preserves_quiet, quiet_query|].
  intros found. apply preserves_bind; [|intros _; apply preserves_ret].
  destruct found; [apply preserves_ret | apply preserves_execute_, Hs].
Qed.

Lemma preserves_snapshot_item snapshot_id item :
  (forall w content db,
      snd item = Some content ->
      insert_blob (blob_row content) (current (conn w)) = Some db ->
      P w -> P (set_current db w)) ->
  (forall w row db, insert_file row (current (conn w)) = Some db ->
                    f_snapshot_id row = snapshot_id ->
                    P w -> P (set_current db w)) ->
  preserves P (snapshot_item snapshot_id item).
Proof.
  intros Hb Hf. unfold snapshot_item. destruct (snd item) as [content|].
  - apply preserves_bind.
    + apply preserves_store_blob. intros w db E. apply (Hb _ _ _ eq_refl E).
    + intros h. apply preserves_execute_. intros w db E.
      apply (Hf _ _ _ E). reflexivity.
  - apply preserves_quiet, quiet_print. reflexivity.
Qed.

Lemma preserves_restore snapshot_id out :
  preserves P (restore snapshot_id out).
Proof. apply preserves_quiet, quiet_restore. Qed.

Lemma preserves_list_snapshots : preserves P list_snapshots.
Proof. apply preserves_quiet, quiet_list_snapshots. Qed.

End Preserves.

(* ===================================================================== *)
(** ** The blob-store invariant *)
(* ===================================================================== *)

Lemma insert_blob_inv row db db' :
  insert_blob row db = Some db' ->
  select_blob (b_hash row) db = None
  /\ db' = {| snapshots := snapshots db; sqlite_sequence := sqlite_sequence db;
              blobs := blobs db ++ [row]; files := files db |}.
Proof.
  unfold insert_blob. destruct (select_blob (b_hash row) db); [discriminate|].
  intros [= <-]. split; reflexivity.
Qed.

Lemma insert_file_inv row db db' :
  insert_file row db = Some db' ->
  existsb (same_key (f_snapshot_id row) (f_path row)) (files db) = false
  /\ db' = {| snapshots := snapshots db; sqlite_sequence := sqlite_sequence db;
              blobs := blobs db; files := files db ++ [row] |}.
Proof.
  unfold insert_file. destruct (existsb _ _); [discriminate|].
  intros [= <-]. split; reflexivity.
Qed.

Lemma store_wf_frame w w' :
  conn w' = conn w -> taken_ids (stdout w') = taken_ids (stdout w) ->
  store_wf w -> store_wf w'.
Proof. unfold store_wf. intros -> _. auto. Qed.

Lemma store_wf_snapshot target timestamp : preserves store_wf (snapshot target timestamp).
Proof.
  intros w [Hc Hw]. rewrite run_snapshot.
  destruct (insert_snapshot timestamp (current (conn w))) as [[snapshot_id db1]|] eqn:E;
    [|split; assumption].
  apply insert_snapshot_inv in E as (_ & _ & ->).
  assert (store_wf (set_current (with_snapshot snapshot_id timestamp (current (conn w))) w))
    as H1 by (split; assumption).
  assert (preserves store_wf
            (for_each (walk_items target) (snapshot_item snapshot_id))) as Hloop.
  { apply preserves_for_each. intros item.
    apply preserves_snapshot_item; [apply store_wf_frame| |].
    - intros w0 content db _ Ei [Hc0 Hw0]. apply insert_blob_inv in Ei as [_ ->].
      split; [exact Hc0|]. unfold blobs_wf in *. simpl.
      apply Forall_app. split; [exact Hw0|].
      constructor; [split; reflexivity | constructor].
    - intros w0 row db Ei _ [Hc0 Hw0]. apply insert_file_inv in Ei as [_ ->].
      split; assumption. }
  specialize (Hloop _ H1).
  destruct (for_each _ _ _) as [[[]|e] w2]; simpl in *; [|exact Hloop].
  destruct Hloop as [_ Hw2]. split; exact Hw2.
Qed.

Lemma blobs_wf_pruned threshold db : blobs_wf db -> blobs_wf (pruned threshold db).
Proof.
  unfold blobs_wf. simpl. intros H.
  apply Forall_forall. intros b Hb. apply list_elem_of_filter in Hb as [_ Hb].
  rewrite Forall_forall in H. apply H, Hb.
Qed.

Lemma store_wf_prune threshold : preserves store_wf (prune threshold).
Proof.
  intros w [Hc Hw]. rewrite run_prune.
  destruct (select_ids_le threshold (current (conn w))); [split; assumption|].
  split; apply blobs_wf_pruned, Hw.
Qed.

(** C10. Every operation of the tool keeps the blob store well formed: if
    every blob row, in the database file and in the connection's view, is
    keyed by the SHA-256 hex digest of its content and records the byte
    length of its content, then the same holds after [snapshot],
    [list_snapshots], [restore] or [prune], however the call ends. *)
Theorem operations_keep_blobs_well_formed :
  forall (c : Command) (w : World),
    store_wf w -> store_wf (snd (call c w)).
Proof.
  intros [target timestamp| |snapshot_id out|threshold] w Hw; simpl.
  - apply store_wf_snapshot, Hw.
  - apply (preserves_list_snapshots _ store_wf_frame), Hw.
  - apply (preserves_restore _ store_wf_frame), Hw.
  - apply store_wf_prune, Hw.
Qed.

Lemma operations_keep_blobs_well_formed_witness :
  store_wf world1
  /\ store_wf (snd (call (CmdSnapshot (Some tree2) "2024-01-02 10:00:00") world1)).
Proof.
  split; [compute_done|].
  apply (operations_keep_blobs_well_formed
           (CmdSnapshot (Some tree2) "2024-01-02 10:00:00") world1).
  compute_done.
Defined.

(* ===================================================================== *)
(** ** Deduplication *)
(* ===================================================================== *)

Lemma run_store_blob content w :
  store_blob content w =
    match select_blob (SHA256.hexdigest content) (current (conn w)) with
    | Some _ => (Return (SHA256.hexdigest content), w)
    | None => (Return (SHA256.hexdigest content),
               set_current (with_blob (blob_row content) (current (conn w))) w)
    end.
Proof.
  unfold store_blob. rewrite run_bind. unfold query at 1.
  destruct (select_blob _ _) as [b|] eqn:E; [reflexivity|].
  rewrite run_bind. unfold execute_, execute, insert_blob. simpl.
  rewrite E. reflexivity.
Qed.

Lemma find_app_l {A} (p : A -> bool) (l l' : list A) (x : A) :
  find p l = Some x -> find p (l ++ l') = Some x.
Proof.
  induction l as [|y l IH]; [discriminate|]. simpl.
  destruct (p y); auto.
Qed.

Lemma select_blob_with_blob h row db :
  is_Some (select_blob h db) -> is_Some (select_blob h (with_blob row db)).
Proof.
  intros [b Hb]. exists b. unfold select_blob in *. simpl.
  apply find_app_l, Hb.
Qed.

Lemma select_blob_new row db :
  is_Some (select_blob (b_hash row) (with_blob row db)).
Proof.
  unfold select_blob. simpl.
  destruct (find (fun b => bool_decide (b_hash b = b_hash row)) (blobs db))
    as [b|] eqn:E.
  - exists b. apply find_app_l, E.
  - exists row. induction (blobs db) as [|y l IH]; simpl in *.
    + rewrite bool_decide_eq_true_2; reflexivity.
    + destruct (bool_decide (b_hash y = b_hash row)); [discriminate | auto].
Qed.

Lemma stored_frame h w w' :
  conn w' = conn w -> taken_ids (stdout w') = taken_ids (stdout w) ->
  stored h w -> stored h w'.
Proof. unfold stored. intros -> _. auto. Qed.

Lemma stored_snapshot_item h snapshot_id item :
  preserves (stored h) (snapshot_item snapshot_id item).
Proof.
  apply preserves_snapshot_item; [apply stored_frame| |].
  - intros w content db _ E Hs. apply insert_blob_inv in E as [_ ->].
    apply select_blob_with_blob, Hs.
  - intros w row db E _ Hs. apply insert_file_inv in E as [_ ->]. exact Hs.
Qed.

Lemma store_blob_stored content w :
  stored (SHA256.hexdigest content) (snd (store_blob content w)).
Proof.
  rewrite run_store_blob. destruct (select_blob _ _) as [b|] eqn:E; simpl.
  - exists b. exact E.
  - apply (select_blob_new (blob_row content)).
Qed.

Lemma run_snapshot_item_Some snapshot_id p content w :
  snapshot_item snapshot_id (p, Some content) w =
    match insert_file {| f_snapshot_id := snapshot_id; f_path := p;
                         f_blob_hash := SHA256.hexdigest content |}
                      (current (conn (snd (store_blob content w)))) with
    | Some db => (Return tt, set_current db (snd (store_blob content w)))
    | None => (Raise IntegrityError, snd (store_blob content w))
    end.
Proof.
  unfold snapshot_item. simpl. rewrite run_bind, run_store_blob.
  destruct (select_blob _ _); unfold execute_, execute; simpl;
    destruct (insert_file _ _); reflexivity.
Qed.

(** A loop of [snapshot] that returns has stored every content it read. *)
Lemma snapshot_loop_stores snapshot_id items :
  forall w w', for_each items (snapshot_item snapshot_id) w = (Return tt, w') ->
  forall p content, (p, Some content) ∈ items ->
                    stored (SHA256.hexdigest content) w'.
Proof.
  induction items as [|item items IH]; intros w w' Hrun p content Hin.
  { inversion Hin. }
  rewrite run_for_each_cons in Hrun.
  destruct (snapshot_item snapshot_id item w) as [[[]|e] w1] eqn:E1;
    [|discriminate].
  apply elem_of_cons in Hin as [<-|Hin]; [|eapply IH; eassumption].
  assert (stored (SHA256.hexdigest content) w1) as H1.
  { rewrite run_snapshot_item_Some in E1.
    destruct (insert_file _ _) as [db|] eqn:Ef; [|discriminate].
    injection E1 as <-. apply insert_file_inv in Ef as [_ ->].
    apply store_blob_stored. }
  pose proof (preserves_for_each (stored (SHA256.hexdigest content)) items
                (snapshot_item snapshot_id)
                (stored_snapshot_item _ snapshot_id) w1 H1) as H.
  rewrite Hrun in H. exact H.
Qed.

(** A loop of [snapshot] over contents that are all stored inserts no blob,
    however it ends. *)
Lemma snapshot_loop_no_new_blob snapshot_id items :
  forall w,
    (forall p content, (p, Some content) ∈ items ->
                       stored (SHA256.hexdigest content) w) ->
    let w' := snd (for_each items (snapshot_item snapshot_id) w) in
    blobs (current (conn w')) = blobs (current (conn w))
    /\ committed (conn w') = committed (conn w).
Proof.
  induction items as [|item items IH]; intros w Hall; [split; reflexivity|].
  cbv zeta. rewrite run_for_each_cons.
  assert (blobs (current (conn (snd (snapshot_item snapshot_id item w))))
          = blobs (current (conn w))
          /\ committed (conn (snd (snapshot_item snapshot_id item w)))
             = committed (conn w)) as H1.
  { destruct item as [p [content|]]; [|split; reflexivity].
    rewrite run_snapshot_item_Some, run_store_blob.
    destruct (Hall p content) as [b ->]; [left|]. simpl.
    destruct (insert_file _ _) eqn:Ef; simpl; [|split; reflexivity].
    apply insert_file_inv in Ef as [_ ->]. split; reflexivity. }
  destruct (snapshot_item snapshot_id item w) as [[[]|e] w1]; simpl in *;
    [|exact H1].
  destruct H1 as [Hb Hc].
  destruct (IH w1) as [Hb' Hc'].
  { intros p content Hin.
    assert (stored (SHA256.hexdigest content) w) as H by (apply (Hall p); right; exact Hin).
    unfold stored, select_blob in *. rewrite Hb. exact H. }
  split; congruence.
Qed.

(** C4. If [snapshot] of a directory returned, a second [snapshot] of the
    same directory in the same state stores no blob: the blobs table, in the
    connection's view and in the committed database, is the one left by the
    first call, so the blob count is unchanged.  And storing content is
    idempotent: the blob-insertion step always returns the digest, and run a
    second time on the same bytes it returns it again and changes nothing. *)
Theorem second_snapshot_adds_no_blob :
  forall (target : option Node) (timestamp1 timestamp2 : string)
         (w w1 : World) (content : bytes) (w0 : World),
    snapshot target timestamp1 w = (Return tt, w1) ->
    let w2 := snd (snapshot target timestamp2 w1) in
    (blobs (current (conn w2)) = blobs (current (conn w1))
     /\ blobs (committed (conn w2)) = blobs (committed (conn w1))
     /\ length (blobs (committed (conn w2))) = length (blobs (committed (conn w1))))
    /\ (let r1 := store_blob content w0 in
        fst r1 = Return (SHA256.hexdigest content)
        /\ store_blob content (snd r1) = (Return (SHA256.hexdigest content), snd r1)).
Proof.
  intros target timestamp1 timestamp2 w w1 content w0 Hfirst w2. split.
  - assert (blobs (current (conn w2)) = blobs (current (conn w1))
            /\ blobs (committed (conn w2)) = blobs (committed (conn w1))) as [H1 H2];
      [|repeat split; congruence].
    rewrite run_snapshot in Hfirst.
    destruct (insert_snapshot timestamp1 _) as [[id1 db1]|]; [|discriminate].
    destruct (for_each _ _ _) as [[[]|e] v] eqn:Eloop; [|discriminate].
    injection Hfirst as <-.
    pose proof (snapshot_loop_stores _ _ _ _ Eloop) as Hstored.
    subst w2. rewrite run_snapshot.
    destruct (insert_snapshot timestamp2 _) as [[id2 db2]|] eqn:E2;
      [|split; reflexivity].
    apply insert_snapshot_inv in E2 as (_ & _ & ->).
    pose proof (snapshot_loop_no_new_blob id2 (walk_items target)
                  (set_current (with_snapshot id2 timestamp2
                     (current (conn (printed (SnapshotTaken id1 timestamp1)
                                       (committed_world v)))))
                     (printed (SnapshotTaken id1 timestamp1) (committed_world v))))
      as Hno.
    simpl in Hno.
    destruct (for_each (walk_items target) (snapshot_item id2) _)
      as [[[]|e] v2]; simpl in *.
    + destruct Hno as [Hb _]; [|rewrite Hb; split; reflexivity].
      intros p c Hin. apply Hstored in Hin. exact Hin.
    + destruct Hno as [Hb Hc]; [|rewrite Hb, Hc; split; reflexivity].
      intros p c Hin. apply Hstored in Hin. exact Hin.
  - cbv zeta. rewrite run_store_blob.
    destruct (select_blob _ _) as [b|] eqn:E; cbn [fst snd].
    + split; [reflexivity|]. rewrite run_store_blob, E. reflexivity.
    + split; [reflexivity|]. rewrite run_store_blob.
      destruct (select_blob_new (blob_row content) (current (conn w0)))
        as [b' Hb'].
      change (b_hash (blob_row content)) with (SHA256.hexdigest content) in Hb'.
      cbn [set_current conn current]. rewrite Hb'. reflexivity.
Qed.

Lemma second_snapshot_adds_no_blob_witness :
  snapshot (Some tree1) "2024-01-01 10:00:00" (new_world ∅) = (Return tt, world1)
  /\ length (blobs (committed
               (conn (snd (snapshot (Some tree1) "2024-01-01 10:05:00" world1)))))
     = length (blobs (committed (conn world1))).
Proof.
  split; [vm_compute; reflexivity|].
  apply (second_snapshot_adds_no_blob (Some tree1) "2024-01-01 10:00:00"
           "2024-01-01 10:05:00" (new_world ∅) world1 hello (new_world ∅)).
  vm_compute. reflexivity.
Defined.

(* ===================================================================== *)
(** ** Snapshot identifiers *)
(* ===================================================================== *)

Lemma first_ids_succ n : first_ids (S n) = first_ids n ++ [Z.of_nat (S n)].
Proof. unfold first_ids. rewrite seq_S, map_app. reflexivity. Qed.

Lemma max_rowid_le rows n :
  0 <= n -> (forall s, s ∈ rows -> s_id s <= n) -> max_rowid rows <= n.
Proof.
  intros Hn. unfold max_rowid. induction rows as [|s rows IH]; intros Hall.
  - simpl. exact Hn.
  - simpl. apply Z.max_lub.
    + apply Hall. left.
    + apply IH. intros s' Hs'. apply Hall. right. exact Hs'.
Qed.

Lemma settled_last_id w :
  settled w -> last_id (current (conn w)) = Z.of_nat (length (taken_ids (stdout w))).
Proof.
  intros [-> (_ & Hseq & Hall)]. unfold last_id. rewrite Hseq.
  apply Z.max_r, max_rowid_le; [lia|]. intros s Hs. apply Hall in Hs. lia.
Qed.

Lemma ids_in_step_frame w w' :
  committed (conn w') = committed (conn w) ->
  taken_ids (stdout w') = taken_ids (stdout w) ->
  ids_in_step w -> ids_in_step w'.
Proof. unfold ids_in_step. intros -> ->. auto. Qed.

Lemma settled_frame w w' :
  conn w' = conn w -> taken_ids (stdout w') = taken_ids (stdout w) ->
  settled w -> settled w'.
Proof.
  intros Hc Ht [Hcur Hids]. split; [rewrite Hc; exact Hcur|].
  apply (ids_in_step_frame w); [rewrite Hc; reflexivity | exact Ht | exact Hids].
Qed.

Lemma loop_frame_snapshot_loop c rows n ids snapshot_id items :
  preserves (loop_frame c rows n ids)
            (for_each items (snapshot_item snapshot_id)).
Proof.
  apply preserves_for_each. intros item. apply preserves_snapshot_item.
  - unfold loop_frame. intros w w' -> ->. auto.
  - intros w content db _ E H. apply insert_blob_inv in E as [_ ->]. exact H.
  - intros w row db E _ H. apply insert_file_inv in E as [_ ->]. exact H.
Qed.

Lemma settled_snapshot target timestamp w :
  settled w ->
  match snapshot target timestamp w with
  | (Return _, w') => settled w'
  | (Raise _, w') => ids_in_step w'
  end.
Proof.
  intros Hw. pose proof (settled_last_id w Hw) as Hlast.
  destruct Hw as [Hcur (Hids & Hseq & Hall)].
  rewrite run_snapshot.
  destruct (insert_snapshot timestamp (current (conn w))) as [[snapshot_id db1]|] eqn:E.
  2: { unfold ids_in_step. auto. }
  apply insert_snapshot_inv in E as (_ & -> & ->). rewrite Hlast.
  set (k := length (taken_ids (stdout w))) in *.
  set (db1 := with_snapshot _ _ _).
  pose proof (loop_frame_snapshot_loop (committed (conn w)) (snapshots db1)
                (Z.of_nat k + 1) (taken_ids (stdout w)) (Z.of_nat k + 1)
                (walk_items target) (set_current db1 w)) as Hloop.
  destruct (for_each _ _ _) as [[[]|e] w2]; simpl in Hloop;
    destruct Hloop as (Hc2 & Hs2 & Hq2 & Ht2); try (repeat split; reflexivity).
  - assert (length (taken_ids (stdout w2 ++ [SnapshotTaken (Z.of_nat k + 1) timestamp]))
            = S k) as Hlen.
    { rewrite taken_ids_app, Ht2, length_app. simpl. fold k. lia. }
    split; [reflexivity|]. unfold ids_in_step. simpl. rewrite Hlen.
    split; [|split].
    + rewrite taken_ids_app, Ht2, first_ids_succ, <- Hids. simpl.
      do 2 f_equal. lia.
    + rewrite Hq2. lia.
    + rewrite Hs2. intros s Hs. simpl in Hs. rewrite Hcur in Hs.
      apply elem_of_app in Hs as [Hs|Hs].
      * apply Hall in Hs. lia.
      * apply list_elem_of_singleton in Hs as ->. simpl. lia.
  - unfold ids_in_step. rewrite Hc2, Ht2. subst k. auto.
Qed.

Lemma settled_prune threshold w : settled w -> settled (snd (prune threshold w)).
Proof.
  intros Hw. pose proof Hw as [Hcur (Hids & Hseq & Hall)]. rewrite run_prune.
  destruct (select_ids_le threshold (current (conn w))) eqn:E.
  - apply (settled_frame w); [reflexivity | | exact Hw].
    simpl. rewrite taken_ids_app. apply app_nil_r.
  - split; [reflexivity|]. unfold ids_in_step. simpl.
    rewrite taken_ids_app, app_nil_r. split; [exact Hids|]. split.
    + rewrite Hcur. exact Hseq.
    + intros s Hs. apply list_elem_of_filter in Hs as [_ Hs].
      rewrite Hcur in Hs. apply Hall, Hs.
Qed.

Lemma settled_call c w :
  settled w ->
  match call c w with
  | (Return _, w') => settled w'
  | (Raise _, w') => ids_in_step w'
  end.
Proof.
  intros Hw. destruct c as [target timestamp| |snapshot_id out|threshold]; simpl.
  - apply settled_snapshot, Hw.
  - pose proof (preserves_list_snapshots settled settled_frame w Hw) as H.
    destruct (list_snapshots w) as [[[]|e] w']; [exact H | apply H].
  - pose proof (preserves_restore settled settled_frame snapshot_id out w Hw) as H.
    destruct (restore snapshot_id out w) as [[[]|e] w']; [exact H | apply H].
  - pose proof (settled_prune threshold w Hw) as H.
    destruct (prune threshold w) as [[[]|e] w']; [exact H | apply H].
Qed.

Lemma settled_calls cmds :
  forall w, settled w -> ids_in_step (snd (for_each cmds call w)).
Proof.
  induction cmds as [|c cmds IH]; intros w Hw; [apply Hw|].
  rewrite run_for_each_cons. pose proof (settled_call c w Hw) as H.
  destruct (call c w) as [[[]|e] w']; [apply IH, H | exact H].
Qed.

Lemma ids_in_step_process w cmds : ids_in_step w -> ids_in_step (process w cmds).
Proof.
  intros Hw. unfold process, close.
  apply (ids_in_step_frame (snd (for_each cmds call (connect w))));
    [reflexivity | reflexivity |].
  apply settled_calls. split; [reflexivity|].
  apply (ids_in_step_frame w); [reflexivity | reflexivity | exact Hw].
Qed.

Lemma ids_in_step_history runs :
  forall w, ids_in_step w -> ids_in_step (history runs w).
Proof.
  induction runs as [|cmds runs IH]; intros w Hw; [exact Hw|].
  apply IH, ids_in_step_process, Hw.
Qed.

(** C6. Let the program run any number of times, each run any sequence of
    calls, on a database file that was new at the start.  The snapshot ids
    it has announced are then 1, 2, ..., k, in the order of the calls: the
    first is 1 and each next one is one more, whatever was pruned in
    between.  The AUTOINCREMENT counter of the file is k, every snapshot
    still stored has an id between 1 and k, and so the next snapshot gets
    k + 1, an id that no snapshot has had. *)
Theorem snapshot_ids_count_up :
  forall (runs : list (list Command)) (fs0 : FS),
    let w := history runs (new_world fs0) in
    let ids := taken_ids (stdout w) in
    ids = first_ids (length ids)
    /\ sqlite_sequence (committed (conn w)) = Z.of_nat (length ids)
    /\ (forall s, s ∈ snapshots (committed (conn w)) ->
                  1 <= s_id s <= Z.of_nat (length ids))
    /\ (forall timestamp,
          Z.of_nat (length ids) < max_int64 ->
          fst <$> insert_snapshot timestamp (committed (conn w))
          = Some (Z.of_nat (length ids) + 1)).
Proof.
  intros runs fs0 w ids.
  assert (ids_in_step w) as (H1 & H2 & H3).
  { apply ids_in_step_history. unfold ids_in_step. simpl.
    split; [reflexivity|]. split; [reflexivity|]. intros s Hs. inversion Hs. }
  split; [exact H1|]. split; [exact H2|]. split; [exact H3|].
  intros timestamp Hlt.
  assert (last_id (committed (conn w)) = Z.of_nat (length ids)) as Hlast.
  { unfold last_id. subst ids. rewrite H2.
    apply Z.max_r, max_rowid_le; [lia|]. intros s Hs. apply H3 in Hs. lia. }
  rewrite insert_snapshot_Some by lia. simpl. rewrite Hlast. reflexivity.
Qed.

(** Ids 1 and 2 are pruned in the first run; the snapshot of the second run
    is numbered 3. *)
Example snapshot_ids_sample :
  taken_ids (stdout (history sample_runs (new_world ∅))) = [1; 2; 3]
  /\ map s_id (snapshots (committed (conn (history sample_runs (new_world ∅)))))
     = [3].
Proof. vm_compute. split; reflexivity. Qed.

(* ===================================================================== *)
(** ** [os.makedirs] and [open(.., "wb")] *)
(* ===================================================================== *)

Lemma elem_of_prefixes (q p : path) : q ∈ prefixes p <-> q `prefix_of` p.
Proof.
  revert q. induction p as [|x p IH]; intros q; simpl.
  - rewrite list_elem_of_singleton. split.
    + intros ->. apply prefix_nil.
    + apply prefix_nil_inv.
  - rewrite elem_of_cons. split.
    + intros [->|Hq]; [apply prefix_nil|].
      apply list_elem_of_fmap in Hq as (q' & -> & Hq').
      apply prefix_cons, IH, Hq'.
    + destruct q as [|y q]; [left; reflexivity|]. intros Hq. right.
      pose proof (prefix_cons_inv_1 _ _ _ _ Hq) as ->.
      apply prefix_cons_inv_2 in Hq.
      apply list_elem_of_fmap. exists q. split; [reflexivity | apply IH, Hq].
Qed.

Lemma clear_way_spec fs p :
  clear_way fs p = true <->
  forall q, q `prefix_of` p -> is_file (fs !! q) = false.
Proof.
  unfold clear_way. rewrite forallb_forall. split.
  - intros H q Hq. apply negb_true_iff, H, list_elem_of_In, elem_of_prefixes, Hq.
  - intros H q Hq. apply negb_true_iff, H, elem_of_prefixes, list_elem_of_In, Hq.
Qed.

Lemma makedirs_from_keeps todo :
  forall done fs fs' k e,
    makedirs_from done todo fs = inr fs' ->
    fs !! k = Some e -> fs' !! k = Some e.
Proof.
  induction todo as [|name rest IH]; intros done fs fs' k e Hrun Hk; simpl in Hrun.
  - destruct (fs !! done) as [[d|]|] eqn:E; try discriminate;
      injection Hrun as <-; [exact Hk|].
    rewrite lookup_insert_ne; [exact Hk | congruence].
  - destruct (fs !! done) as [[d|]|] eqn:E; try discriminate.
    + eapply IH; eassumption.
    + eapply IH; [eassumption|].
      rewrite lookup_insert_ne; [exact Hk | congruence].
Qed.

Lemma makedirs_from_new todo :
  forall done fs fs' k e,
    makedirs_from done todo fs = inr fs' ->
    fs !! k = None -> fs' !! k = Some e ->
    e = Directory /\ done `prefix_of` k /\ k `prefix_of` (done ++ todo).
Proof.
  induction todo as [|name rest IH]; intros done fs fs' k e Hrun Hk Hk';
    simpl in Hrun.
  - destruct (fs !! done) as [[d|]|] eqn:E; try discriminate;
      injection Hrun as <-; [congruence|].
    destruct (decide (done = k)) as [->|Hne].
    + rewrite lookup_insert_eq in Hk'. injection Hk' as <-.
      rewrite app_nil_r. auto.
    + rewrite lookup_insert_ne in Hk' by exact Hne. congruence.
  - assert (forall fs1, makedirs_from (done ++ [name]) rest fs1 = inr fs' ->
                        fs1 !! k = None ->
                        e = Directory /\ done `prefix_of` k
                        /\ k `prefix_of` (done ++ name :: rest)) as Hrec.
    { intros fs1 Hrun1 Hk1.
      destruct (IH _ _ _ _ _ Hrun1 Hk1 Hk') as (He & Hp1 & Hp2).
      split; [exact He|]. split.
      - eapply prefix_app_l, Hp1.
      - rewrite <- app_assoc in Hp2. exact Hp2. }
    destruct (fs !! done) as [[d|]|] eqn:E; try discriminate.
    + apply (Hrec fs); assumption.
    + destruct (decide (done = k)) as [->|Hne].
      * pose proof (makedirs_from_keeps _ _ _ _ k Directory Hrun
                      (lookup_insert_eq _ _ _)) as Hd.
        rewrite Hd in Hk'. injection Hk' as <-.
        split; [reflexivity|]. split; [reflexivity | apply prefix_app_r; reflexivity].
      * apply (Hrec (<[done := Directory]> fs)); [exact Hrun|].
        rewrite lookup_insert_ne by exact Hne. exact Hk.
Qed.

Lemma makedirs_from_leaf todo :
  forall done fs fs',
    makedirs_from done todo fs = inr fs' ->
    fs' !! (done ++ todo) = Some Directory.
Proof.
  induction todo as [|name rest IH]; intros done fs fs' Hrun; simpl in Hrun.
  - rewrite app_nil_r.
    destruct (fs !! done) as [[d|]|] eqn:E; try discriminate;
      injection Hrun as <-; [exact E | apply lookup_insert_eq].
  - replace (done ++ name :: rest) with ((done ++ [name]) ++ rest)
      by (rewrite <- app_assoc; reflexivity).
    destruct (fs !! done) as [[d|]|] eqn:E; try discriminate;
      eapply IH; eassumption.
Qed.

Lemma makedirs_from_succeeds todo :
  forall done fs,
    (forall q, q `prefix_of` todo -> is_file (fs !! (done ++ q)) = false) ->
    exists fs', makedirs_from done todo fs = inr fs'.
Proof.
  induction todo as [|name rest IH]; intros done fs Hclear; simpl.
  - pose proof (Hclear [] (prefix_nil _)) as H0. rewrite app_nil_r in H0.
    destruct (fs !! done) as [[d|]|]; [discriminate| |]; eauto.
  - pose proof (Hclear [] (prefix_nil _)) as H0. rewrite app_nil_r in H0.
    assert (forall fs1, (forall k, is_file (fs1 !! k) = true -> is_file (fs !! k) = true) ->
                        exists fs', makedirs_from (done ++ [name]) rest fs1 = inr fs')
      as Hrec.
    { intros fs1 Hsub. apply IH. intros q Hq.
      destruct (is_file (fs1 !! _)) eqn:Ef; [|reflexivity].
      apply Hsub in Ef. rewrite <- app_assoc in Ef.
      rewrite Hclear in Ef; [discriminate | apply prefix_cons, Hq]. }
    destruct (fs !! done) as [[d|]|] eqn:E; [discriminate| |].
    + apply Hrec. auto.
    + apply Hrec. intros k.
      destruct (decide (done = k)) as [->|Hne].
      * rewrite lookup_insert_eq. discriminate.
      * rewrite lookup_insert_ne by exact Hne. auto.
Qed.

(** [os.makedirs], on the whole. *)
Lemma makedirs_succeeds name fs :
  (forall q, q `prefix_of` name -> is_file (fs !! q) = false) ->
  exists fs', makedirs name fs = inr fs'.
Proof. intros H. apply makedirs_from_succeeds. exact H. Qed.

Lemma makedirs_keeps name fs fs' k e :
  makedirs name fs = inr fs' -> fs !! k = Some e -> fs' !! k = Some e.
Proof. apply makedirs_from_keeps. Qed.

Lemma makedirs_leaf name fs fs' :
  makedirs name fs = inr fs' -> fs' !! name = Some Directory.
Proof. apply (makedirs_from_leaf name []). Qed.

Lemma makedirs_new name fs fs' k e :
  makedirs name fs = inr fs' -> fs !! k = None -> fs' !! k = Some e ->
  e = Directory /\ k `prefix_of` name.
Proof.
  intros Hrun Hk Hk'.
  destruct (makedirs_from_new _ _ _ _ _ _ Hrun Hk Hk') as (He & _ & Hp). auto.
Qed.

Lemma makedirs_untouched name fs fs' k :
  makedirs name fs = inr fs' -> ~ k `prefix_of` name -> fs' !! k = fs !! k.
Proof.
  intros Hrun Hk. destruct (fs !! k) as [e|] eqn:E.
  - eapply makedirs_keeps; eassumption.
  - destruct (fs' !! k) as [e|] eqn:E'; [|reflexivity].
    destruct (makedirs_new _ _ _ _ _ Hrun E E') as [_ Hp]. contradiction.
Qed.

Lemma makedirs_is_file name fs fs' k :
  makedirs name fs = inr fs' -> is_file (fs' !! k) = is_file (fs !! k).
Proof.
  intros Hrun. destruct (fs !! k) as [e|] eqn:E.
  - rewrite (makedirs_keeps _ _ _ _ _ Hrun E). reflexivity.
  - destruct (fs' !! k) as [e|] eqn:E'; [|reflexivity].
    destruct (makedirs_new _ _ _ _ _ Hrun E E') as [-> _]. reflexivity.
Qed.

Lemma makedirs_is_directory name fs fs' k :
  makedirs name fs = inr fs' -> is_directory (fs' !! k) = true ->
  is_directory (fs !! k) = true \/ k `prefix_of` name.
Proof.
  intros Hrun Hd. destruct (fs !! k) as [e|] eqn:E.
  - rewrite (makedirs_keeps _ _ _ _ _ Hrun E) in Hd. auto.
  - destruct (fs' !! k) as [e|] eqn:E'; [|discriminate].
    destruct (makedirs_new _ _ _ _ _ Hrun E E') as [_ Hp]. auto.
Qed.

Lemma write_file_succeeds out_path data fs :
  fs !! removelast out_path = Some Directory ->
  is_directory (fs !! out_path) = false ->
  write_file out_path data fs = inr (<[out_path := RegularFile data]> fs).
Proof.
  intros Hparent Hnot. unfold write_file. rewrite Hparent.
  destruct (fs !! out_path) as [[d|]|]; [reflexivity | discriminate | reflexivity].
Qed.

Lemma write_file_inv out_path data fs fs' :
  write_file out_path data fs = inr fs' ->
  fs' = <[out_path := RegularFile data]> fs.
Proof.
  unfold write_file. destruct (fs !! removelast out_path) as [[d|]|]; try discriminate.
  destruct (fs !! out_path) as [[d|]|]; try discriminate; intros [= <-]; reflexivity.
Qed.

(* ===================================================================== *)
(** ** The loop of restore *)
(* ===================================================================== *)

Lemma run_restore_file out p h w :
  restore_file out (p, h) w =
    match makedirs (removelast (out ++ p)) (fs w) with
    | inl e => (Raise (OSException e), w)
    | inr fs1 =>
        match select_blob h (current (conn w)) with
        | None =>
            (Return tt, {| conn := conn w; fs := fs1;
                           stdout := stdout w ++ [MissingBlob h p] |})
        | Some b =>
            match write_file (out ++ p) (b_content b) fs1 with
            | inl e => (Raise (OSException e),
                        {| conn := conn w; fs := fs1; stdout := stdout w |})
            | inr fs2 => (Return tt,
                          {| conn := conn w; fs := fs2; stdout := stdout w |})
            end
        end
    end.
Proof.
  unfold restore_file. rewrite run_bind. unfold syscall at 1. simpl.
  destruct (makedirs _ _) as [e|fs1]; [reflexivity|].
  rewrite run_bind. unfold query at 1. simpl.
  destruct (select_blob h _) as [b|]; [|reflexivity].
  unfold syscall. simpl. destruct (write_file _ _ _); reflexivity.
Qed.

Lemma prefix_removelast (l : path) : removelast l `prefix_of` l.
Proof.
  destruct (decide (l = [])) as [->|Hne]; [reflexivity|].
  exists [List.last l ""%string]. apply app_removelast_last, Hne.
Qed.

Lemma not_prefix_removelast (l : path) : l <> [] -> ~ l `prefix_of` removelast l.
Proof.
  intros Hne Hp.
  rewrite (app_removelast_last ""%string Hne) in Hp at 1.
  exact (prefix_snoc_not _ _ Hp).
Qed.

Lemma prefix_free_cons p rest :
  prefix_free (p :: rest) = true ->
  (forall q, q ∈ rest -> ~ p `prefix_of` q /\ ~ q `prefix_of` p)
  /\ prefix_free rest = true.
Proof.
  simpl. intros H. apply andb_true_iff in H as [H1 H2]. split; [|exact H2].
  intros q Hq. rewrite forallb_forall in H1.
  specialize (H1 q (proj1 (list_elem_of_In _ _) Hq)).
  apply andb_true_iff in H1 as [Ha Hb].
  apply negb_true_iff, bool_decide_eq_false in Ha.
  apply negb_true_iff, bool_decide_eq_false in Hb. auto.
Qed.

Lemma makedirs_file_inv name fs fs' k d :
  makedirs name fs = inr fs' ->
  fs' !! k = Some (RegularFile d) -> fs !! k = Some (RegularFile d).
Proof.
  intros Hrun Hk. destruct (fs !! k) as [e|] eqn:E.
  - rewrite (makedirs_keeps _ _ _ _ _ Hrun E) in Hk. exact Hk.
  - destruct (makedirs_new _ _ _ _ _ Hrun E Hk) as [? _]. discriminate.
Qed.

(** One turn of the loop, when the file system lets it through. *)
Lemma restore_file_step out p h w :
  p <> [] ->
  (forall q, q `prefix_of` (out ++ removelast p) -> is_file (fs w !! q) = false) ->
  is_directory (fs w !! (out ++ p)) = false ->
  exists fs1,
    makedirs (removelast (out ++ p)) (fs w) = inr fs1
    /\ restore_file out (p, h) w =
         match select_blob h (current (conn w)) with
         | None => (Return tt, {| conn := conn w; fs := fs1;
                                  stdout := stdout w ++ [MissingBlob h p] |})
         | Some b => (Return tt,
                      {| conn := conn w;
                         fs := <[out ++ p := RegularFile (b_content b)]> fs1;
                         stdout := stdout w |})
         end.
Proof.
  intros Hp Hclear Hdir.
  assert (removelast (out ++ p) = out ++ removelast p) as Hrl
      by (apply removelast_app, Hp).
  destruct (makedirs_succeeds (removelast (out ++ p)) (fs w)) as [fs1 Hmk].
  { rewrite Hrl. exact Hclear. }
  exists fs1. split; [exact Hmk|].
  rewrite run_restore_file, Hmk.
  destruct (select_blob h _) as [b|]; [|reflexivity].
  rewrite write_file_succeeds; [reflexivity | apply (makedirs_leaf _ _ _ Hmk) |].
  destruct (is_directory (fs1 !! (out ++ p))) eqn:E; [|reflexivity].
  destruct (makedirs_is_directory _ _ _ _ Hmk E) as [H|H].
  - congruence.
  - exfalso. apply (not_prefix_removelast (out ++ p)); [|exact H].
    destruct out; [exact Hp | discriminate].
Qed.

(** The loop of [restore] over rows that the file system lets through: it
    returns; a key that is not on the way to any row is untouched; every
    regular file it leaves was there before or is the blob of a row; and
    each row's path holds its blob, or is untouched when the blob is
    missing. *)
Lemma restore_loop out rows :
  forall w,
    loop_ok out (fs w) (map fst rows) ->
    exists fs',
      for_each rows (restore_file out) w =
        (Return tt,
         {| conn := conn w; fs := fs';
            stdout := stdout w ++ missing_reports (current (conn w)) rows |})
      /\ (forall k, (forall p, p ∈ map fst rows -> ~ k `prefix_of` (out ++ p)) ->
                    fs' !! k = fs w !! k)
      /\ (forall k d, fs' !! k = Some (RegularFile d) ->
                      fs w !! k = Some (RegularFile d)
                      \/ exists p h b, (p, h) ∈ rows /\ k = out ++ p
                                       /\ select_blob h (current (conn w)) = Some b
                                       /\ d = b_content b)
      /\ (forall p h, (p, h) ∈ rows ->
                      match select_blob h (current (conn w)) with
                      | None => fs' !! (out ++ p) = fs w !! (out ++ p)
                      | Some b => fs' !! (out ++ p) = Some (RegularFile (b_content b))
                      end).
Proof.
  induction rows as [|[p h] rows IH]; intros w [Hrows Hfree].
  { exists (fs w). simpl. rewrite app_nil_r. destruct w. repeat split; auto.
    intros p h Hin. inversion Hin. }
  simpl in Hrows, Hfree.
  assert (p ∈ p :: map fst rows) as Hhead by (apply list_elem_of_here).
  destruct (Hrows p Hhead) as (Hp & Hclear & Hdir).
  apply prefix_free_cons in Hfree as [Hothers Hfree].
  destruct (restore_file_step out p h w Hp Hclear Hdir) as (fs1 & Hmk & Hstep).
  assert (removelast (out ++ p) = out ++ removelast p) as Hrl
      by (apply removelast_app, Hp).
  (* the world after this turn *)
  set (w1 := match select_blob h (current (conn w)) with
             | None => {| conn := conn w; fs := fs1;
                          stdout := stdout w ++ [MissingBlob h p] |}
             | Some b => {| conn := conn w;
                            fs := <[out ++ p := RegularFile (b_content b)]> fs1;
                            stdout := stdout w |}
             end).
  assert (restore_file out (p, h) w = (Return tt, w1)) as Hstep1.
  { rewrite Hstep. subst w1. destruct (select_blob h _); reflexivity. }
  assert (conn w1 = conn w) as Hconn
      by (subst w1; destruct (select_blob h _); reflexivity).
  assert (forall k, k <> out ++ p -> fs w1 !! k = fs1 !! k) as Hfs1.
  { intros k Hk. subst w1. destruct (select_blob h _); simpl; [|reflexivity].
    apply lookup_insert_ne. congruence. }
  assert (forall k, is_file (fs w1 !! k) = true ->
                    k = out ++ p \/ is_file (fs w !! k) = true) as Hfiles1.
  { intros k Hk. destruct (decide (k = out ++ p)) as [|Hne]; [left; assumption|].
    right. rewrite (Hfs1 k Hne), (makedirs_is_file _ _ _ _ Hmk) in Hk. exact Hk. }
  assert (forall k, k <> out ++ p -> ~ k `prefix_of` (out ++ p) ->
                    fs w1 !! k = fs w !! k) as Hsame1.
  { intros k Hne Hnp. rewrite (Hfs1 k Hne).
    apply (makedirs_untouched _ _ _ _ Hmk). intros Hpre. apply Hnp.
    etrans; [exact Hpre | apply prefix_removelast]. }
  (* the rest of the rows can still be written *)
  assert (loop_ok out (fs w1) (map fst rows)) as Hok1.
  { split; [|exact Hfree]. intros p' Hp'.
    destruct (Hrows p' (list_elem_of_further _ _ _ Hp')) as (Hp'0 & Hclear' & Hdir').
    destruct (Hothers p' Hp') as [Hn1 Hn2].
    split; [exact Hp'0|]. split.
    - intros q Hq. destruct (is_file (fs w1 !! q)) eqn:Ef; [|reflexivity].
      apply Hfiles1 in Ef as [->|Ef].
      + exfalso. apply Hn1. apply (prefix_app_inv out).
        etrans; [exact Hq|]. apply prefix_app, prefix_removelast.
      + rewrite (Hclear' q Hq) in Ef. discriminate.
    - assert (out ++ p' <> out ++ p) as Hne.
      { intros Heq. apply app_inv_head in Heq. subst p'. apply Hn1. reflexivity. }
      rewrite (Hfs1 _ Hne).
      destruct (is_directory (fs1 !! (out ++ p'))) eqn:Ed; [|reflexivity].
      destruct (makedirs_is_directory _ _ _ _ Hmk Ed) as [H|H]; [congruence|].
      exfalso. apply Hn2. apply (prefix_app_inv out).
      etrans; [exact H | apply prefix_removelast]. }
  destruct (IH w1 Hok1) as (fs' & Hrun & Huntouched & Hfiles & Hpaths).
  rewrite Hconn in Hrun, Hfiles, Hpaths.
  exists fs'. split; [|split; [|split]].
  - rewrite run_for_each_cons, Hstep1, Hrun. f_equal. f_equal.
    subst w1. simpl. destruct (select_blob h _); simpl;
      [reflexivity | rewrite <- app_assoc; reflexivity].
  - intros k Hk. rewrite Huntouched.
    + apply Hsame1.
      * intros ->. apply (Hk p); [left | reflexivity].
      * apply Hk. left.
    + intros p' Hp'. apply Hk. right. exact Hp'.
  - intros k d Hk. apply Hfiles in Hk as [Hk|(p' & h' & b' & Hin & -> & Hb & ->)].
    + destruct (decide (k = out ++ p)) as [->|Hne].
      * subst w1. destruct (select_blob h _) as [b|] eqn:Eb; simpl in Hk.
        -- rewrite lookup_insert_eq in Hk. injection Hk as <-.
           right. exists p, h, b. split; [left|]. auto.
        -- left. apply (makedirs_file_inv _ _ _ _ _ Hmk), Hk.
      * left. rewrite (Hfs1 k Hne) in Hk.
        apply (makedirs_file_inv _ _ _ _ _ Hmk), Hk.
    + right. exists p', h', b'. split; [right; exact Hin|]. auto.
  - intros p' h' Hin. apply elem_of_cons in Hin as [[= -> ->]|Hin].
    + assert (fs' !! (out ++ p) = fs w1 !! (out ++ p)) as ->.
      { apply Huntouched. intros p' Hp' Hpre.
        destruct (Hothers p' Hp') as [Hn1 _].
        apply Hn1. apply (prefix_app_inv out), Hpre. }
      subst w1. destruct (select_blob h _) as [b|]; simpl.
      * apply lookup_insert_eq.
      * apply (makedirs_untouched _ _ _ _ Hmk).
        apply not_prefix_removelast. destruct out; [exact Hp | discriminate].
    + specialize (Hpaths p' h' Hin).
      destruct (select_blob h' _) as [b'|]; [exact Hpaths|].
      rewrite Hpaths.
      assert (p' ∈ map fst rows) as Hp'.
      { apply list_elem_of_In, (in_map fst _ (p', h')), list_elem_of_In, Hin. }
      destruct (Hothers p' Hp') as [Hn1 Hn2].
      apply Hsame1.
      * intros Heq. apply app_inv_head in Heq. subst p'. apply Hn1. reflexivity.
      * intros Hpre. apply Hn2. apply (prefix_app_inv out), Hpre.
Qed.

(* ===================================================================== *)
(** ** restore, on the whole *)
(* ===================================================================== *)

Lemma select_snapshot_Some snapshot_id db :
  snapshot_id ∈ map s_id (snapshots db) ->
  select_snapshot snapshot_id db = Some snapshot_id.
Proof.
  unfold select_snapshot. intros Hin.
  apply list_elem_of_In, in_map_iff in Hin as (s & Hs & Hin).
  destruct (find _ _) as [s'|] eqn:E.
  - apply find_some in E as [_ E]. apply bool_decide_eq_true in E.
    simpl. congruence.
  - exfalso. apply (find_none _ _ E) in Hin.
    apply bool_decide_eq_false in Hin. contradiction.
Qed.

Lemma not_prefix_app_l (out p : path) : p <> [] -> ~ (out ++ p) `prefix_of` out.
Proof.
  intros Hp H. apply prefix_length in H. rewrite length_app in H.
  destruct p; [congruence | simpl in H; lia].
Qed.

Lemma elem_of_missing_reports db rows p h :
  (p, h) ∈ rows -> select_blob h db = None ->
  MissingBlob h p ∈ missing_reports db rows.
Proof.
  intros Hin Hnone. unfold missing_reports.
  apply list_elem_of_In, in_flat_map. exists (p, h).
  split; [apply list_elem_of_In, Hin|]. simpl. rewrite Hnone. left. reflexivity.
Qed.

(** [restore] of a stored snapshot into a place that lets it through. *)
Lemma restore_spec snapshot_id out w :
  let db := current (conn w) in
  let rows := select_files snapshot_id db in
  snapshot_id ∈ map s_id (snapshots db) ->
  (forall q, q `prefix_of` out -> is_file (fs w !! q) = false) ->
  (forall p, p ∈ map fst rows ->
     p <> []
     /\ (forall q, q `prefix_of` (out ++ removelast p) -> is_file (fs w !! q) = false)
     /\ is_directory (fs w !! (out ++ p)) = false) ->
  prefix_free (map fst rows) = true ->
  exists fs',
    restore snapshot_id out w =
      (Return tt,
       {| conn := conn w; fs := fs';
          stdout := stdout w ++ missing_reports db rows
                             ++ [SnapshotRestored snapshot_id out] |})
    /\ (forall k d, fs' !! k = Some (RegularFile d) ->
                    fs w !! k = Some (RegularFile d)
                    \/ exists p h b, (p, h) ∈ rows /\ k = out ++ p
                                     /\ select_blob h db = Some b
                                     /\ d = b_content b)
    /\ (forall p h, (p, h) ∈ rows ->
                    match select_blob h db with
                    | None => fs' !! (out ++ p) = fs w !! (out ++ p)
                    | Some b => fs' !! (out ++ p) = Some (RegularFile (b_content b))
                    end).
Proof.
  intros db rows Hid Hout Hrows Hfree.
  (* the output directory, once it is known to exist *)
  assert (exists fs0,
             (unless (bool_decide (is_Some (fs w !! out)))
                     (syscall (makedirs out))) w
             = (Return tt, {| conn := conn w; fs := fs0; stdout := stdout w |})
             /\ (forall k, is_file (fs0 !! k) = is_file (fs w !! k))
             /\ (forall k d, fs0 !! k = Some (RegularFile d) ->
                             fs w !! k = Some (RegularFile d))
             /\ (forall k, ~ k `prefix_of` out -> fs0 !! k = fs w !! k))
    as (fs0 & Hensure & Hfile0 & Hinv0 & Hsame0).
  { case_bool_decide as Hex.
    - exists (fs w). destruct w. simpl. repeat split; auto.
    - destruct (makedirs_succeeds out (fs w) Hout) as [fs0 Hmk].
      exists fs0. unfold unless, syscall. rewrite Hmk. repeat split.
      + intros k. apply (makedirs_is_file _ _ _ _ Hmk).
      + intros k d. apply (makedirs_file_inv _ _ _ _ _ Hmk).
      + intros k. apply (makedirs_untouched _ _ _ _ Hmk). }
  set (w0 := {| conn := conn w; fs := fs0; stdout := stdout w |}) in *.
  assert (loop_ok out (fs w0) (map fst rows)) as Hok.
  { split; [|exact Hfree]. intros p Hp.
    destruct (Hrows p Hp) as (Hp0 & Hclear & Hdir).
    split; [exact Hp0|]. split.
    - intros q Hq. simpl. rewrite Hfile0. apply Hclear, Hq.
    - simpl. rewrite Hsame0; [exact Hdir | apply not_prefix_app_l, Hp0]. }
  destruct (restore_loop out rows w0 Hok) as (fs' & Hloop & _ & Hfiles & Hpaths).
  exists fs'. split; [|split].
  - unfold restore. rewrite run_bind. unfold query at 1.
    fold db. rewrite (select_snapshot_Some _ _ Hid).
    rewrite run_bind. unfold path_exists at 1.
    rewrite run_bind, Hensure.
    rewrite run_bind. unfold query at 1.
    change (select_files snapshot_id (current (conn w0))) with rows.
    rewrite run_bind, Hloop. unfold print. simpl.
    rewrite <- app_assoc. reflexivity.
  - intros k d Hk. apply Hfiles in Hk as [Hk|Hk]; [left; apply Hinv0, Hk | right; exact Hk].
  - intros p h Hin. specialize (Hpaths p h Hin). simpl in Hpaths. fold db in Hpaths.
    destruct (select_blob h db) as [b|]; [exact Hpaths|].
    rewrite Hpaths. apply Hsame0, not_prefix_app_l.
    apply (Hrows p).
    apply list_elem_of_In, (in_map fst _ (p, h)), list_elem_of_In, Hin.
Qed.

Lemma restorable_spec fs out paths :
  restorable fs out paths = true ->
  (forall q, q `prefix_of` out -> is_file (fs !! q) = false)
  /\ (forall p, p ∈ paths ->
        p <> []
        /\ (forall q, q `prefix_of` (out ++ removelast p) -> is_file (fs !! q) = false)
        /\ is_directory (fs !! (out ++ p)) = false)
  /\ prefix_free paths = true.
Proof.
  unfold restorable. intros H.
  apply andb_true_iff in H as [H Hfree].
  apply andb_true_iff in H as [Hout Hall].
  split; [apply clear_way_spec, Hout|]. split; [|exact Hfree].
  intros p Hp. rewrite forallb_forall in Hall.
  specialize (Hall p (proj1 (list_elem_of_In _ _) Hp)).
  apply andb_true_iff in Hall as [Hall Hdir].
  apply andb_true_iff in Hall as [Hne Hclear].
  apply negb_true_iff, bool_decide_eq_false in Hne.
  apply negb_true_iff in Hdir.
  split; [exact Hne|]. split; [apply clear_way_spec, Hclear | exact Hdir].
Qed.

(** C8. Restore a stored snapshot into a place where its files can be
    written.  Then [restore] returns normally, whatever blobs are missing.
    For a file entry whose blob is missing, the line "Error: missing blob
    <digest> for file <path>" is on standard output and what the output
    directory holds at the entry's path is what it held before: nothing is
    written there.  Every file entry whose blob is present, before or after
    a missing one, has its file written with the exact content of the
    blob. *)
Theorem restore_skips_missing_blobs :
  forall (snapshot_id : Z) (output_directory : path) (w : World),
    let db := current (conn w) in
    let rows := select_files snapshot_id db in
    snapshot_id ∈ map s_id (snapshots db) ->
    restorable (fs w) output_directory (map fst rows) = true ->
    exists w',
      restore snapshot_id output_directory w = (Return tt, w')
      /\ conn w' = conn w
      /\ forall p h, (p, h) ∈ rows ->
           match select_blob h db with
           | None =>
               MissingBlob h p ∈ stdout w'
               /\ fs w' !! (output_directory ++ p) = fs w !! (output_directory ++ p)
           | Some b =>
               fs w' !! (output_directory ++ p) = Some (RegularFile (b_content b))
           end.
Proof.
  intros snapshot_id out w db rows Hid Hok.
  apply restorable_spec in Hok as (Hout & Hrows & Hfree).
  destruct (restore_spec snapshot_id out w Hid Hout Hrows Hfree)
    as (fs' & Hrun & _ & Hpaths).
  eexists. split; [exact Hrun|]. split; [reflexivity|].
  intros p h Hin. specialize (Hpaths p h Hin). simpl.
  fold db rows in Hpaths |- *.
  destruct (select_blob h db) as [b|] eqn:Eb; [exact Hpaths|].
  split; [|exact Hpaths].
  apply elem_of_app. right. apply elem_of_app. left.
  apply elem_of_missing_reports; assumption.
Qed.

Lemma restore_skips_missing_blobs_witness :
  let out := ["restore"%string] in
  let db := current (conn damaged_world) in
  (1 ∈ map s_id (snapshots db)
   /\ restorable (fs damaged_world) out (map fst (select_files 1 db)) = true
   /\ select_blob (SHA256.hexdigest hello) db = None)
  /\ exists w',
       restore 1 out damaged_world = (Return tt, w')
       /\ MissingBlob (SHA256.hexdigest hello) ["file1.txt"%string] ∈ stdout w'
       /\ fs w' !! (out ++ ["file1.txt"%string])
          = fs damaged_world !! (out ++ ["file1.txt"%string])
       /\ fs w' !! (out ++ ["subdir"; "file2.bin"]%string)
          = Some (RegularFile [x00; xff; x10]).
Proof.
  intros out db.
  split; [split; [compute_done | split; vm_compute; reflexivity]|].
  destruct (restore_skips_missing_blobs 1 out damaged_world)
    as (w1 & Hrun & _ & Hrows); [compute_done | vm_compute; reflexivity |].
  exists w1. split; [exact Hrun|].
  pose proof (Hrows ["file1.txt"%string] (SHA256.hexdigest hello)) as H1.
  pose proof (Hrows ["subdir"; "file2.bin"]%string
                (SHA256.hexdigest [x00; xff; x10])) as H2.
  assert (select_blob (SHA256.hexdigest hello) (current (conn damaged_world))
          = None) as E1 by (vm_compute; reflexivity).
  assert (select_blob (SHA256.hexdigest [x00; xff; x10])
            (current (conn damaged_world))
          = Some (blob_row [x00; xff; x10])) as E2 by (vm_compute; reflexivity).
  rewrite E1 in H1. rewrite E2 in H2.
  destruct H1 as [Hmsg Hfs]; [compute_done|].
  split; [exact Hmsg|]. split; [exact Hfs|].
  apply H2. compute_done.
Defined.

(** The directory of a file whose blob is missing is still created:
    [os.makedirs] runs before the blob is looked up. *)
Example restore_makes_directory_of_missing_blob :
  let w' := snd (restore 1 ["restore"%string] damaged_world') in
  stdout w' =
    [MissingBlob (SHA256.hexdigest [x00; xff; x10]) ["subdir"; "file2.bin"]%string;
     SnapshotRestored 1 ["restore"%string]]
  /\ fs w' !! ["restore"; "subdir"]%string = Some Directory
  /\ fs w' !! ["restore"; "subdir"; "file2.bin"]%string = None
  /\ fs w' !! ["restore"; "file1.txt"]%string = Some (RegularFile hello).
Proof. vm_compute. repeat split; reflexivity. Qed.

(* ===================================================================== *)
(** ** The walk of a directory tree *)
(* ===================================================================== *)

Lemma flat_map_flat_map {A B C} (f : B -> list C) (g : A -> list B) (l : list A) :
  flat_map f (flat_map g l) = flat_map (fun x => flat_map f (g x)) l.
Proof.
  induction l as [|x l IH]; [reflexivity|].
  simpl. rewrite flat_map_app, IH. reflexivity.
Qed.

Lemma items_of_dir root entries :
  items_of root (Dir entries) =
    map (fun file => (root ++ [fst file], snd file)) (walk_files entries)
    ++ flat_map (fun e => match snd e with
                          | Dir _ => items_of (root ++ [fst e]) (snd e)
                          | File _ => []
                          end) entries.
Proof.
  unfold items_of. simpl. f_equal.
  rewrite flat_map_flat_map. apply flat_map_ext. intros [name [data|es]]; reflexivity.
Qed.

Lemma elem_of_walk_files entries name data :
  (name, data) ∈ walk_files entries <-> (name, File data) ∈ entries.
Proof.
  unfold walk_files. rewrite list_elem_of_In, in_flat_map. split.
  - intros ([n [d|es]] & Hin & Hx); simpl in Hx; [|contradiction].
    destruct Hx as [[= <- <-]|[]]. apply list_elem_of_In, Hin.
  - intros Hin. exists (name, File data).
    split; [apply list_elem_of_In, Hin | left; reflexivity].
Qed.

(** The items of a directory: its files, and the items of its
    subdirectories. *)
Lemma elem_of_items_of_dir root entries q data :
  (q, data) ∈ items_of root (Dir entries) <->
  (exists name, (name, File data) ∈ entries /\ q = root ++ [name])
  \/ (exists name es, (name, Dir es) ∈ entries
                      /\ (q, data) ∈ items_of (root ++ [name]) (Dir es)).
Proof.
  rewrite items_of_dir, elem_of_app. split.
  - intros [H|H].
    + left. apply list_elem_of_fmap in H as ([name d] & [= -> ->] & Hin).
      exists name. split; [apply elem_of_walk_files, Hin | reflexivity].
    + right. apply list_elem_of_In, in_flat_map in H as ([name [d|es]] & Hin & Hx);
        simpl in Hx; [contradiction|].
      exists name, es. split; apply list_elem_of_In; assumption.
  - intros [(name & Hin & ->)|(name & es & Hin & Hx)].
    + left. apply list_elem_of_fmap. exists (name, data).
      split; [reflexivity | apply elem_of_walk_files, Hin].
    + right. apply list_elem_of_In, in_flat_map. exists (name, Dir es).
      split; apply list_elem_of_In; assumption.
Qed.

(** Every item lies strictly below the root of its walk. *)
Lemma items_of_below top :
  forall root q data, (q, data) ∈ items_of root top ->
                      exists p, p <> [] /\ q = root ++ p.
Proof.
  induction top as [d|entries IH] using Node_forall_ind; intros root q data Hin.
  { inversion Hin. }
  apply elem_of_items_of_dir in Hin as [(name & _ & ->)|(name & es & Hin & Hx)].
  - exists [name]. split; [discriminate | reflexivity].
  - rewrite Forall_forall in IH.
    destruct (IH (name, Dir es) Hin _ _ _ Hx) as (p & Hp & ->).
    exists (name :: p). split; [discriminate|].
    rewrite <- app_assoc. reflexivity.
Qed.

Lemma nodupb_spec (names : list string) : nodupb names = true <-> NoDup names.
Proof.
  induction names as [|n names IH]; simpl.
  - split; [constructor | reflexivity].
  - rewrite andb_true_iff, negb_true_iff, bool_decide_eq_false, IH, NoDup_cons.
    reflexivity.
Qed.

Lemma well_formed_dir entries :
  well_formed (Dir entries) = true <->
  NoDup (map fst entries) /\ forall e, e ∈ entries -> well_formed (snd e) = true.
Proof.
  simpl. rewrite andb_true_iff, nodupb_spec, forallb_forall.
  split; intros [H1 H2]; (split; [exact H1|]); intros e He;
    apply H2; apply list_elem_of_In; exact He.
Qed.

Lemma find_name (entries : list (string * Node)) (name : string) (child : Node) :
  NoDup (map fst entries) -> (name, child) ∈ entries ->
  find (fun e => bool_decide (fst e = name)) entries = Some (name, child).
Proof.
  induction entries as [|[n c] entries IH]; intros Hnd Hin; [inversion Hin|].
  simpl in *. apply NoDup_cons in Hnd as [Hn Hnd].
  apply elem_of_cons in Hin as [[= <- <-]|Hin].
  - rewrite bool_decide_eq_true_2; reflexivity.
  - rewrite bool_decide_eq_false_2; [apply IH; assumption|].
    intros ->. apply Hn.
    apply list_elem_of_In, (in_map fst _ (name, child)), list_elem_of_In, Hin.
Qed.

Lemma find_name_inv (entries : list (string * Node)) (name : string) e :
  find (fun e => bool_decide (fst e = name)) entries = Some e ->
  e ∈ entries /\ fst e = name.
Proof.
  intros H. apply find_some in H as [Hin He].
  apply bool_decide_eq_true in He. split; [apply list_elem_of_In, Hin | exact He].
Qed.

(** The walk reaches exactly the files of the tree. *)
Lemma elem_of_items_of top :
  well_formed top = true ->
  forall root q data,
    (q, data) ∈ items_of root top <->
    exists p, p <> [] /\ q = root ++ p /\ lookup_node p top = Some (File data).
Proof.
  induction top as [d|entries IH] using Node_forall_ind; intros Hwf root q data.
  { split; [intros Hin; inversion Hin|].
    intros ([|n p] & Hp & _ & Hl); [congruence | discriminate]. }
  apply well_formed_dir in Hwf as [Hnd Hwf]. rewrite Forall_forall in IH.
  rewrite elem_of_items_of_dir. split.
  - intros [(name & Hin & ->)|(name & es & Hin & Hx)].
    + exists [name]. split; [discriminate|]. split; [reflexivity|].
      simpl. rewrite (find_name _ _ _ Hnd Hin). reflexivity.
    + apply (IH (name, Dir es) Hin (Hwf _ Hin)) in Hx as (p & Hp & -> & Hl).
      exists (name :: p). split; [discriminate|].
      split; [rewrite <- app_assoc; reflexivity|].
      simpl. rewrite (find_name _ _ _ Hnd Hin). exact Hl.
  - intros ([|name p] & Hp & -> & Hl); [congruence|]. simpl in Hl.
    destruct (find _ entries) as [[n child]|] eqn:E; [|discriminate].
    apply find_name_inv in E as [Hin Hn]. simpl in Hn, Hl. subst n.
    destruct child as [d|es].
    + left. destruct p; [|discriminate]. injection Hl as ->.
      exists name. auto.
    + right. exists name, es. split; [exact Hin|].
      apply (IH (name, Dir es) Hin (Hwf _ Hin)).
      exists p. split; [intros ->; discriminate|].
      split; [rewrite <- app_assoc; reflexivity | exact Hl].
Qed.

Lemma items_of_readable top :
  readable top = true ->
  forall root q data, (q, data) ∈ items_of root top -> is_Some data.
Proof.
  induction top as [d|entries IH] using Node_forall_ind; intros Hr root q data Hin.
  { inversion Hin. }
  simpl in Hr. rewrite forallb_forall in Hr. rewrite Forall_forall in IH.
  apply elem_of_items_of_dir in Hin as [(name & Hin & _)|(name & es & Hin & Hx)].
  - apply list_elem_of_In, Hr in Hin. simpl in Hin.
    apply bool_decide_eq_true in Hin. exact Hin.
  - apply (IH (name, Dir es) Hin) in Hx; [exact Hx|].
    apply (Hr (name, Dir es)), list_elem_of_In, Hin.
Qed.

Lemma items_of_contents top :
  forall root q content,
    (q, Some content) ∈ items_of root top -> content ∈ contents top.
Proof.
  induction top as [d|entries IH] using Node_forall_ind; intros root q content Hin.
  { inversion Hin. }
  rewrite Forall_forall in IH. simpl.
  apply list_elem_of_In, in_flat_map.
  apply elem_of_items_of_dir in Hin as [(name & Hin & _)|(name & es & Hin & Hx)].
  - exists (name, File (Some content)).
    split; [apply list_elem_of_In, Hin | left; reflexivity].
  - exists (name, Dir es). split; [apply list_elem_of_In, Hin|].
    apply list_elem_of_In. apply (IH (name, Dir es) Hin _ _ _ Hx).
Qed.

(* ===================================================================== *)
(** ** The paths of a walk *)
(* ===================================================================== *)

Lemma walk_files_names_NoDup (entries : list (string * Node)) :
  NoDup (map fst entries) -> NoDup (map fst (walk_files entries)).
Proof.
  induction entries as [|[n c] entries IH]; intros Hnd; [constructor|].
  simpl in Hnd. apply NoDup_cons in Hnd as [Hn Hnd].
  change (walk_files ((n, c) :: entries))
    with (match c with File data => [(n, data)] | Dir _ => [] end
          ++ walk_files entries).
  destruct c as [data|es]; simpl; [|apply IH, Hnd].
  apply NoDup_cons. split; [|apply IH, Hnd].
  intros Hin. apply Hn.
  apply list_elem_of_In, in_map_iff in Hin as ([n' d] & Hn' & Hin).
  simpl in Hn'. subst n'.
  apply list_elem_of_In, elem_of_walk_files in Hin.
  apply list_elem_of_In, (in_map fst _ (n, File d)), list_elem_of_In, Hin.
Qed.

Lemma elem_of_map_fst {A B} (x : A) (l : list (A * B)) :
  x ∈ map fst l <-> exists y, (x, y) ∈ l.
Proof.
  rewrite list_elem_of_In, in_map_iff. split.
  - intros ([a b] & <- & Hin). exists b. apply list_elem_of_In, Hin.
  - intros [y Hin]. exists (x, y). split; [reflexivity | apply list_elem_of_In, Hin].
Qed.

(** The walk reaches no path twice. *)
Lemma items_of_NoDup top :
  well_formed top = true -> forall root, NoDup (map fst (items_of root top)).
Proof.
  induction top as [d|entries IH] using Node_forall_ind; intros Hwf root.
  { constructor. }
  apply well_formed_dir in Hwf as [Hnd Hwf]. rewrite Forall_forall in IH.
  rewrite items_of_dir, map_app. apply NoDup_app. split; [|split].
  - rewrite map_map. simpl.
    rewrite <- (map_map fst (fun n => root ++ [n])).
    assert (Inj (=) (=) (fun n : string => root ++ [n])) as Hinj.
    { intros n1 n2 Heq. apply app_inv_head in Heq. congruence. }
    apply (NoDup_fmap_2 _), walk_files_names_NoDup, Hnd.
  - intros q Hq Hq'.
    apply elem_of_map_fst in Hq as [d Hq].
    apply list_elem_of_fmap in Hq as ([name d1] & [= -> ->] & _).
    apply elem_of_map_fst in Hq' as [d2 Hq'].
    apply list_elem_of_In, in_flat_map in Hq' as ([n' [d0|es]] & _ & Hx);
      simpl in Hx; [contradiction|].
    apply list_elem_of_In, items_of_below in Hx as (p & Hp & Heq).
    rewrite <- app_assoc in Heq. apply app_inv_head in Heq.
    simpl in Heq. injection Heq as _ Heq. congruence.
  - assert (forall es : list (string * Node),
              NoDup (map fst es) ->
              (forall e, e ∈ es -> well_formed (snd e) = true) ->
              (forall e, e ∈ es -> well_formed (snd e) = true ->
                         forall root, NoDup (map fst (items_of root (snd e)))) ->
              NoDup (map fst (flat_map
                       (fun e => match snd e with
                                 | Dir _ => items_of (root ++ [fst e]) (snd e)
                                 | File _ => []
                                 end) es))) as Hdirs.
    { clear. induction es as [|[n c] es IHes]; intros Hnd Hwf IH; [constructor|].
      simpl in Hnd. apply NoDup_cons in Hnd as [Hn Hnd].
      simpl flat_map. rewrite map_app. apply NoDup_app. split; [|split].
      - destruct c as [d|es']; [constructor|].
        apply (IH (n, Dir es')); [left | apply (Hwf (n, Dir es')); left].
      - intros q Hq Hq'. destruct c as [d|es']; [inversion Hq|].
        apply elem_of_map_fst in Hq as [d Hq].
        apply items_of_below in Hq as (p & _ & ->).
        apply elem_of_map_fst in Hq' as [d' Hq'].
        apply list_elem_of_In, in_flat_map in Hq' as ([n' [d0|es0]] & Hin & Hx);
          simpl in Hx; [contradiction|].
        apply list_elem_of_In, items_of_below in Hx as (p' & _ & Heq).
        rewrite <- !app_assoc in Heq. apply app_inv_head in Heq.
        simpl in Heq. injection Heq as -> _. apply Hn.
        apply (in_map fst _ (n', Dir es0)), list_elem_of_In in Hin. exact Hin.
      - apply IHes; [exact Hnd | |].
        + intros e He. apply Hwf. right. exact He.
        + intros e He. apply IH. right. exact He. }
    apply Hdirs; [exact Hnd | exact Hwf |].
    intros e He Hwfe root'. apply IH; assumption.
Qed.

Lemma lookup_node_app p r top :
  lookup_node (p ++ r) top = lookup_node p top ≫= lookup_node r.
Proof.
  revert top. induction p as [|name p IH]; intros top; [reflexivity|].
  simpl. destruct top as [d|entries]; [reflexivity|].
  destruct (find _ entries) as [e|]; [apply IH | reflexivity].
Qed.

(** No file of a tree lies below another file. *)
Lemma items_of_prefix top p q d1 d2 :
  well_formed top = true ->
  (p, d1) ∈ items_of [] top -> (q, d2) ∈ items_of [] top ->
  p `prefix_of` q -> p = q.
Proof.
  intros Hwf Hp Hq [r ->].
  apply (elem_of_items_of top Hwf) in Hp as (p' & _ & -> & Hlp).
  apply (elem_of_items_of top Hwf) in Hq as (q' & _ & Heq & Hlq).
  simpl in *. subst q'. rewrite lookup_node_app, Hlp in Hlq. simpl in Hlq.
  destruct r; [symmetry; apply app_nil_r | discriminate].
Qed.

Lemma prefix_free_intro (l : list path) :
  NoDup l ->
  (forall p q, p ∈ l -> q ∈ l -> p `prefix_of` q -> p = q) ->
  prefix_free l = true.
Proof.
  induction l as [|p l IH]; intros Hnd Hpre; [reflexivity|].
  apply NoDup_cons in Hnd as [Hp Hnd]. simpl. apply andb_true_iff. split.
  - apply forallb_forall. intros q Hq. apply list_elem_of_In in Hq.
    apply andb_true_iff. split; apply negb_true_iff, bool_decide_eq_false;
      intros Hpq.
    + apply Hp. rewrite (Hpre p q); [exact Hq | left | right; exact Hq | exact Hpq].
    + apply Hp. rewrite <- (Hpre q p); [exact Hq | right; exact Hq | left | exact Hpq].
  - apply IH; [exact Hnd|]. intros p' q' Hp' Hq'. apply Hpre; right; assumption.
Qed.

Lemma elem_of_entries_of items p h :
  (p, h) ∈ entries_of items <->
  exists content, (p, Some content) ∈ items /\ h = SHA256.hexdigest content.
Proof.
  unfold entries_of. rewrite list_elem_of_In, in_flat_map. split.
  - intros ([q [c|]] & Hin & Hx); simpl in Hx; [|contradiction].
    destruct Hx as [[= <- <-]|[]]. exists c.
    split; [apply list_elem_of_In, Hin | reflexivity].
  - intros (c & Hin & ->). exists (p, Some c).
    split; [apply list_elem_of_In, Hin | left; reflexivity].
Qed.

Lemma entries_of_NoDup items :
  NoDup (map fst items) -> NoDup (map fst (entries_of items)).
Proof.
  induction items as [|[q d] items IH]; intros Hnd; [constructor|].
  simpl in Hnd. apply NoDup_cons in Hnd as [Hq Hnd].
  change (entries_of ((q, d) :: items))
    with (match d with Some c => [(q, SHA256.hexdigest c)] | None => [] end
          ++ entries_of items).
  destruct d as [c|]; simpl; [|apply IH, Hnd].
  apply NoDup_cons. split; [|apply IH, Hnd].
  intros Hin. apply Hq. apply elem_of_map_fst in Hin as [h Hin].
  apply elem_of_entries_of in Hin as (c' & Hin & _).
  apply elem_of_map_fst. eauto.
Qed.

(* ===================================================================== *)
(** ** What snapshot stores *)
(* ===================================================================== *)

(** The loop of [snapshot] over paths that are new to the snapshot: it
    returns, and it has added one file entry per item it could read. *)
Lemma snapshot_loop_spec snapshot_id items :
  forall w,
    NoDup (map fst items) ->
    (forall f, f ∈ files (current (conn w)) -> f_snapshot_id f = snapshot_id ->
               f_path f ∉ map fst items) ->
    exists w',
      for_each items (snapshot_item snapshot_id) w = (Return tt, w')
      /\ files (current (conn w')) =
           files (current (conn w)) ++ rows_of snapshot_id items
      /\ snapshots (current (conn w')) = snapshots (current (conn w))
      /\ fs w' = fs w
      /\ stdout w' = stdout w ++ read_errors items.
Proof.
  induction items as [|[p d] items IH]; intros w Hnd Hnew.
  { exists w. simpl. rewrite !app_nil_r. auto. }
  simpl in Hnd. apply NoDup_cons in Hnd as [Hp Hnd].
  rewrite run_for_each_cons.
  assert (exists w1,
             snapshot_item snapshot_id (p, d) w = (Return tt, w1)
             /\ files (current (conn w1)) =
                  files (current (conn w)) ++ rows_of snapshot_id [(p, d)]
             /\ snapshots (current (conn w1)) = snapshots (current (conn w))
             /\ fs w1 = fs w
             /\ stdout w1 = stdout w ++ read_errors [(p, d)])
    as (w1 & -> & Hf1 & Hs1 & Hfs1 & Ho1).
  { destruct d as [content|].
    - rewrite run_snapshot_item_Some, run_store_blob.
      assert (forall db, files db = files (current (conn w)) ->
                insert_file {| f_snapshot_id := snapshot_id; f_path := p;
                               f_blob_hash := SHA256.hexdigest content |} db
                = Some (with_file {| f_snapshot_id := snapshot_id; f_path := p;
                                     f_blob_hash := SHA256.hexdigest content |} db))
        as Hins.
      { intros db Hdb. unfold insert_file. simpl.
        destruct (existsb _ _) eqn:E; [|reflexivity]. exfalso.
        rewrite Hdb in E.
        apply existsb_exists in E as (f & Hin & Hkey).
        apply andb_true_iff in Hkey as [Hk1 Hk2].
        apply bool_decide_eq_true in Hk1. apply bool_decide_eq_true in Hk2.
        apply (Hnew f); [apply list_elem_of_In, Hin | exact Hk1|].
        rewrite Hk2. left. }
      destruct (select_blob _ _); simpl; rewrite Hins by reflexivity;
        eexists; (split; [reflexivity|]); simpl; rewrite !app_nil_r; auto.
    - eexists. split; [reflexivity|]. simpl. rewrite !app_nil_r. auto. }
  destruct (IH w1 Hnd) as (w' & Hrun & Hf & Hs & Hfs & Ho).
  { intros f Hf Hid. rewrite Hf1 in Hf. apply elem_of_app in Hf as [Hf|Hf].
    - intros Hin. apply (Hnew f Hf Hid). right. exact Hin.
    - destruct d as [content|]; [|inversion Hf].
      apply list_elem_of_singleton in Hf as ->. exact Hp. }
  exists w'. split; [exact Hrun|].
  rewrite Hf, Hs, Hfs, Ho, Hf1, Hs1, Hfs1, Ho1, <- !app_assoc.
  unfold rows_of, read_errors. simpl. rewrite !app_nil_r. auto.
Qed.

Lemma filter_none {A} (P : A -> Prop) `{forall x, Decision (P x)} (l : list A) :
  (forall x, x ∈ l -> ~ P x) -> filter P l = [].
Proof.
  induction l as [|x l IH]; intros Hnone; [reflexivity|].
  rewrite filter_cons_False by (apply Hnone; left).
  apply IH. intros y Hy. apply Hnone. right. exact Hy.
Qed.

Lemma select_files_new snapshot_id db db' items :
  files db' = files db ++ rows_of snapshot_id items ->
  (forall f, f ∈ files db -> f_snapshot_id f <> snapshot_id) ->
  select_files snapshot_id db' = entries_of items.
Proof.
  intros Hfiles Hold. unfold select_files. rewrite Hfiles, filter_app, map_app.
  replace (filter (fun f => f_snapshot_id f = snapshot_id) (files db))
    with (@nil FileRow).
  2: { symmetry. apply filter_none. exact Hold. }
  simpl. clear. induction items as [|[p [c|]] items IH]; [reflexivity| |exact IH].
  change (rows_of snapshot_id ((p, Some c) :: items))
    with ({| f_snapshot_id := snapshot_id; f_path := p;
             f_blob_hash := SHA256.hexdigest c |} :: rows_of snapshot_id items).
  rewrite filter_cons_True by reflexivity. simpl. f_equal. exact IH.
Qed.

Lemma no_collision_spec cs c1 c2 :
  no_collision cs = true -> c1 ∈ cs -> c2 ∈ cs ->
  SHA256.hexdigest c1 = SHA256.hexdigest c2 -> c1 = c2.
Proof.
  unfold no_collision. rewrite forallb_forall. intros H H1 H2 Heq.
  apply list_elem_of_In, H in H1. rewrite forallb_forall in H1.
  apply list_elem_of_In, H1 in H2.
  rewrite bool_decide_eq_true_2 in H2 by exact Heq.
  apply bool_decide_eq_true in H2. exact H2.
Qed.

Lemma output_clear_spec fs out :
  output_clear fs out = true ->
  (forall q, q `prefix_of` out -> is_file (fs !! q) = false)
  /\ (forall k, out `prefix_of` k -> k <> out -> fs !! k = None).
Proof.
  unfold output_clear. intros H. apply andb_true_iff in H as [Hway Hbelow].
  split; [apply clear_way_spec, Hway|].
  intros k Hk Hne. destruct (fs !! k) as [e|] eqn:E; [|reflexivity].
  exfalso. rewrite forallb_forall in Hbelow.
  assert (In k (map fst (map_to_list fs))) as Hin.
  { apply (in_map fst _ (k, e)), list_elem_of_In, elem_of_map_to_list, E. }
  apply Hbelow in Hin. rewrite bool_decide_eq_true_2 in Hin by exact Hk.
  apply bool_decide_eq_true in Hin. contradiction.
Qed.

(* ===================================================================== *)
(** ** snapshot, then restore *)
(* ===================================================================== *)

Lemma read_errors_readable items :
  (forall q d, (q, d) ∈ items -> is_Some d) -> read_errors items = [].
Proof.
  induction items as [|[q d] items IH]; intros Hall; [reflexivity|].
  destruct (Hall q d) as [c ->]; [left|]. simpl. apply IH.
  intros q' d' Hin. apply (Hall q'). right. exact Hin.
Qed.

Lemma blobs_wf_snapshot_loop snapshot_id items :
  preserves (fun w => blobs_wf (current (conn w)))
            (for_each items (snapshot_item snapshot_id)).
Proof.
  apply preserves_for_each. intros item. apply preserves_snapshot_item.
  - intros w w' -> _. auto.
  - intros w content db _ E Hw. apply insert_blob_inv in E as [_ ->].
    unfold blobs_wf in *. simpl. apply Forall_app. split; [exact Hw|].
    constructor; [split; reflexivity | constructor].
  - intros w row db E _ Hw. apply insert_file_inv in E as [_ ->]. exact Hw.
Qed.

Lemma contents_snapshot_loop (allowed : list bytes) snapshot_id items :
  (forall q content, (q, Some content) ∈ items -> content ∈ allowed) ->
  preserves (fun w => forall b, b ∈ blobs (current (conn w)) ->
                                b_content b ∈ allowed)
            (for_each items (snapshot_item snapshot_id)).
Proof.
  intros Hitems. apply preserves_for_each_in. intros [q d] Hin.
  apply preserves_snapshot_item.
  - intros w w' -> _. auto.
  - intros w content db Hd E Hw. simpl in Hd. subst d.
    apply insert_blob_inv in E as [_ ->]. simpl. intros b Hb.
    apply elem_of_app in Hb as [Hb|Hb]; [apply Hw, Hb|].
    apply list_elem_of_singleton in Hb as ->. simpl. eapply Hitems, Hin.
  - intros w row db E _ Hw. apply insert_file_inv in E as [_ ->]. exact Hw.
Qed.

(** A digest of allowed content resolves to that content. *)
Lemma select_blob_content db (allowed : list bytes) content b :
  blobs_wf db ->
  (forall b, b ∈ blobs db -> b_content b ∈ allowed) ->
  no_collision allowed = true ->
  content ∈ allowed ->
  select_blob (SHA256.hexdigest content) db = Some b ->
  b_content b = content.
Proof.
  intros Hwf Hall Hnc Hc Hb. apply select_blob_elem in Hb as [Hin Hh].
  unfold blobs_wf in Hwf. rewrite Forall_forall in Hwf.
  destruct (Hwf b Hin) as [Hkey _].
  apply (no_collision_spec allowed); [exact Hnc | apply Hall, Hin | exact Hc|].
  congruence.
Qed.

(** C1. Take a directory whose files can all be read, a store whose blobs
    are keyed by their digests, and an output directory that does not exist
    or is empty; suppose no two different contents among the files and the
    stored blobs share a SHA-256 digest.  Then [snapshot] returns and
    announces the next id, [restore] of that id returns, and afterwards the
    regular files below the output directory are exactly the files of the
    directory: the same relative paths, each with the bytes that the file
    had when the snapshot was taken. *)
Theorem snapshot_restore_round_trip :
  forall (entries : list (string * Node)) (timestamp : string)
         (output_directory : path) (w : World),
    let top := Dir entries in
    let db := current (conn w) in
    let snapshot_id := last_id db + 1 in
    well_formed top = true ->
    readable top = true ->
    no_collision (map b_content (blobs db) ++ contents top) = true ->
    blobs_wf db ->
    ids_bounded db ->
    last_id db < max_int64 ->
    output_clear (fs w) output_directory = true ->
    exists w1 w2,
      snapshot (Some top) timestamp w = (Return tt, w1)
      /\ stdout w1 = stdout w ++ [SnapshotTaken snapshot_id timestamp]
      /\ restore snapshot_id output_directory w1 = (Return tt, w2)
      /\ forall p data,
           fs w2 !! (output_directory ++ p) = Some (RegularFile data)
           <-> lookup_node p top = Some (File (Some data)).
Proof.
  intros entries timestamp out w top db snapshot_id
         Hwf Hread Hnc Hblobs Hids Hlast Hclear.
  set (items := items_of [] top).
  set (allowed := map b_content (blobs db) ++ contents top) in *.
  set (db1 := with_snapshot snapshot_id timestamp db).
  apply output_clear_spec in Hclear as [Hway Hbelow].
  assert (forall q d, (q, d) ∈ items -> q <> []) as Hne.
  { intros q d Hin. apply items_of_below in Hin as (p & Hp & ->). exact Hp. }
  (* the loop of snapshot *)
  destruct (snapshot_loop_spec snapshot_id items (set_current db1 w))
    as (wb & Hloop & Hfiles & Hsnaps & Hfs & Hout).
  { apply items_of_NoDup, Hwf. }
  { intros f Hf Hid. unfold ids_bounded in Hids. rewrite Forall_forall in Hids.
    apply Hids in Hf. subst snapshot_id. lia. }
  assert (blobs_wf (current (conn wb))) as Hwfb.
  { pose proof (blobs_wf_snapshot_loop snapshot_id items (set_current db1 w) Hblobs)
      as H. rewrite Hloop in H. exact H. }
  assert (forall b, b ∈ blobs (current (conn wb)) -> b_content b ∈ allowed) as Hallb.
  { pose proof (contents_snapshot_loop allowed snapshot_id items) as H.
    specialize (H (fun q c Hin => proj2 (elem_of_app _ _ _)
                     (or_intror (items_of_contents top [] q c Hin)))).
    specialize (H (set_current db1 w)). rewrite Hloop in H. apply H.
    intros b Hb. apply elem_of_app. left.
    apply list_elem_of_In, in_map, list_elem_of_In, Hb. }
  pose proof (snapshot_loop_stores _ _ _ _ Hloop) as Hstored.
  assert (forall q c b, (q, Some c) ∈ items ->
            select_blob (SHA256.hexdigest c) (current (conn wb)) = Some b ->
            b_content b = c) as Hresolve.
  { intros q c b Hin. apply (select_blob_content _ allowed); try assumption.
    apply elem_of_app. right. apply (items_of_contents top [] q c Hin). }
  set (w1 := printed (SnapshotTaken snapshot_id timestamp) (committed_world wb)).
  assert (snapshot (Some top) timestamp w = (Return tt, w1)) as Hsnap.
  { rewrite run_snapshot, (insert_snapshot_Some _ _ Hlast).
    change (walk_items (Some top)) with items. fold db snapshot_id db1.
    rewrite Hloop. reflexivity. }
  (* the rows of the new snapshot *)
  assert (select_files snapshot_id (current (conn w1)) = entries_of items) as Hrowsq.
  { apply (select_files_new _ db1); [exact Hfiles|].
    intros f Hf. unfold ids_bounded in Hids. rewrite Forall_forall in Hids.
    apply Hids in Hf. subst snapshot_id. lia. }
  assert (forall p, p ∈ map fst (entries_of items) ->
                    exists c, (p, Some c) ∈ items) as Hitem.
  { intros p Hp. apply elem_of_map_fst in Hp as [h Hp].
    apply elem_of_entries_of in Hp as (c & Hin & _). eauto. }
  destruct (restore_spec snapshot_id out w1) as (fs2 & Hrestore & Hwritten & Hpaths).
  { change (snapshots (current (conn w1))) with (snapshots (current (conn wb))).
    rewrite Hsnaps. simpl. rewrite map_app. apply elem_of_app. right. left. }
  { change (fs w1) with (fs wb). rewrite Hfs. exact Hway. }
  { rewrite Hrowsq. change (fs w1) with (fs wb). rewrite Hfs. simpl.
    intros p Hp. destruct (Hitem p Hp) as [c Hin].
    pose proof (Hne _ _ Hin) as Hp0. split; [exact Hp0|]. split.
    - intros q Hq.
      destruct (prefix_weak_total q out (out ++ removelast p) Hq
                  (prefix_app_r _ _ _ (reflexivity out))) as [Hqo|Hoq].
      + apply Hway, Hqo.
      + destruct (decide (q = out)) as [->|Hqne]; [apply Hway; reflexivity|].
        rewrite (Hbelow q Hoq Hqne). reflexivity.
    - rewrite (Hbelow (out ++ p)); [reflexivity | apply prefix_app_r; reflexivity|].
      intros Heq. apply (not_prefix_app_l out p Hp0). rewrite Heq. reflexivity. }
  { rewrite Hrowsq. apply prefix_free_intro.
    - apply entries_of_NoDup, items_of_NoDup, Hwf.
    - intros p q Hp Hq Hpq.
      destruct (Hitem p Hp) as [c1 H1]. destruct (Hitem q Hq) as [c2 H2].
      apply (items_of_prefix top p q _ _ Hwf H1 H2 Hpq). }
  rewrite Hrowsq in Hwritten, Hpaths.
  change (current (conn w1)) with (current (conn wb)) in Hwritten, Hpaths.
  change (fs w1) with (fs wb) in Hwritten, Hpaths. rewrite Hfs in Hwritten, Hpaths.
  simpl in Hwritten, Hpaths.
  exists w1. eexists. split; [exact Hsnap|]. split; [|split; [exact Hrestore|]].
  { subst w1. simpl. rewrite Hout. simpl.
    rewrite (read_errors_readable items), app_nil_r; [reflexivity|].
    intros q d Hin. apply (items_of_readable top Hread [] q d Hin). }
  intros p data. simpl. split.
  - intros Hfile. apply Hwritten in Hfile as [Hold|(p' & h & b & Hin & Heq & Hb & ->)].
    + exfalso. destruct (decide (out ++ p = out)) as [Heq|Hneq].
      * pose proof (Hway out (reflexivity out)) as Hf.
        rewrite <- Heq, Hold in Hf. discriminate.
      * rewrite (Hbelow (out ++ p)) in Hold;
          [discriminate | apply prefix_app_r; reflexivity | exact Hneq].
    + apply app_inv_head in Heq. subst p'.
      apply elem_of_entries_of in Hin as (c & Hin & ->).
      rewrite (Hresolve p c b Hin Hb).
      apply (elem_of_items_of top Hwf) in Hin as (p' & _ & Heq & Hl).
      simpl in Heq. subst p'. exact Hl.
  - intros Hl.
    assert ((p, Some data) ∈ items) as Hin.
    { apply (elem_of_items_of top Hwf). exists p.
      split; [intros ->; discriminate|]. split; [reflexivity | exact Hl]. }
    assert ((p, SHA256.hexdigest data) ∈ entries_of items) as Hrow
        by (apply elem_of_entries_of; eauto).
    specialize (Hpaths p _ Hrow).
    destruct (Hstored p data Hin) as [b Hb]. rewrite Hb in Hpaths.
    rewrite Hpaths, (Hresolve p data b Hin Hb). reflexivity.
Qed.

Lemma snapshot_restore_round_trip_witness :
  let out := ["tmp"; "restore"]%string in
  let db := current (conn world1) in
  (well_formed tree2 = true
   /\ readable tree2 = true
   /\ no_collision (map b_content (blobs db) ++ contents tree2) = true
   /\ blobs_wf db
   /\ ids_bounded db
   /\ last_id db < max_int64
   /\ output_clear (fs world1) out = true)
  /\ exists w1 w2,
       snapshot (Some tree2) "2024-01-02 10:00:00" world1 = (Return tt, w1)
       /\ stdout w1 = stdout world1 ++ [SnapshotTaken 2 "2024-01-02 10:00:00"]
       /\ restore 2 out w1 = (Return tt, w2)
       /\ forall p data,
            fs w2 !! (out ++ p) = Some (RegularFile data)
            <-> lookup_node p tree2 = Some (File (Some data)).
Proof.
  intros out db.
  split; [repeat split; compute_done|].
  apply (snapshot_restore_round_trip entries2 "2024-01-02 10:00:00" out world1);
    compute_done.
Defined.

(** The files of [tree2] after the round trip, and its empty directory,
    which [restore] does not create. *)
Example round_trip_sample :
  let w1 := snd (snapshot (Some tree2) "2024-01-02 10:00:00" world1) in
  let w2 := snd (restore 2 ["tmp"; "restore"]%string w1) in
  fs w2 !! ["tmp"; "restore"; "a"; "b"; "c.bin"]%string
    = Some (RegularFile [x01; x02])
  /\ fs w2 !! ["tmp"; "restore"; "file1.txt"]%string = Some (RegularFile hello)
  /\ fs w2 !! ["tmp"; "restore"; "empty"]%string = None
  /\ length (blobs (current (conn w1))) = 4%nat.
Proof. vm_compute. repeat split; reflexivity. Qed.

(* ===================================================================== *)
(** ** The states the tool can reach *)
(* ===================================================================== *)

Lemma consistent_last_id db : consistent db -> last_id db = sqlite_sequence db.
Proof.
  intros (_ & H0 & Hs & _). unfold last_id.
  apply Z.max_r, max_rowid_le; assumption.
Qed.

Lemma consistent_ids_bounded db : consistent db -> ids_bounded db.
Proof.
  intros H. pose proof (consistent_last_id db H) as Hl.
  destruct H as (_ & _ & _ & Hf). unfold ids_bounded.
  apply Forall_forall. intros f Hin. rewrite Hl. apply Hf, Hin.
Qed.

Lemma consistent_pruned threshold db : consistent db -> consistent (pruned threshold db).
Proof.
  intros (Hb & H0 & Hs & Hf). split; [apply blobs_wf_pruned, Hb|].
  split; [exact H0|]. split; simpl.
  - intros s Hin. apply list_elem_of_filter in Hin as [_ Hin]. apply Hs, Hin.
  - intros f Hin. apply list_elem_of_filter in Hin as [_ Hin]. apply Hf, Hin.
Qed.

Lemma store_consistent_frame w w' :
  conn w' = conn w -> taken_ids (stdout w') = taken_ids (stdout w) ->
  store_consistent w -> store_consistent w'.
Proof. unfold store_consistent. intros -> _. auto. Qed.

Lemma store_consistent_snapshot target timestamp :
  preserves store_consistent (snapshot target timestamp).
Proof.
  intros w [Hc Hw]. rewrite run_snapshot.
  destruct (insert_snapshot timestamp (current (conn w))) as [[snapshot_id db1]|] eqn:E;
    [|split; assumption].
  apply insert_snapshot_inv in E as (_ & -> & ->).
  rewrite (consistent_last_id _ Hw).
  set (snapshot_id := sqlite_sequence (current (conn w)) + 1).
  set (Q := fun v : World => store_consistent v
                             /\ snapshot_id <= sqlite_sequence (current (conn v))).
  assert (preserves Q (for_each (walk_items target) (snapshot_item snapshot_id)))
    as Hloop.
  { apply preserves_for_each. intros item. apply preserves_snapshot_item.
    - unfold Q, store_consistent. intros v v' -> _. auto.
    - intros v content db _ Ei [[Hcv (Hb & H0 & Hs & Hf)] Hid].
      apply insert_blob_inv in Ei as [_ ->].
      split; [split; [exact Hcv|] | exact Hid].
      split; [|repeat split; assumption].
      unfold blobs_wf in *. simpl. apply Forall_app. split; [exact Hb|].
      constructor; [split; reflexivity | constructor].
    - intros v row db Ei Hrow [[Hcv (Hb & H0 & Hs & Hf)] Hid].
      apply insert_file_inv in Ei as [_ ->].
      split; [split; [exact Hcv|] | exact Hid].
      split; [exact Hb|]. split; [exact H0|]. split; [exact Hs|].
      simpl. intros f Hin. apply elem_of_app in Hin as [Hin|Hin]; [apply Hf, Hin|].
      apply list_elem_of_singleton in Hin as ->. rewrite Hrow. exact Hid. }
  assert (Q (set_current (with_snapshot snapshot_id timestamp (current (conn w))) w))
    as H1.
  { destruct Hw as (Hb & H0 & Hs & Hf).
    split; [split; [exact Hc|] | simpl; lia].
    split; [exact Hb|]. simpl. split; [subst snapshot_id; lia|]. split.
    - intros s Hin. apply elem_of_app in Hin as [Hin|Hin].
      + apply Hs in Hin. subst snapshot_id. lia.
      + apply list_elem_of_singleton in Hin as ->. simpl. lia.
    - intros f Hin. apply Hf in Hin. subst snapshot_id. lia. }
  specialize (Hloop _ H1).
  destruct (for_each _ _ _) as [[[]|e] w2]; simpl in *; [|apply Hloop].
  destruct Hloop as [[_ Hw2] _]. split; exact Hw2.
Qed.

Lemma store_consistent_call c : preserves store_consistent (call c).
Proof.
  destruct c as [target timestamp| |snapshot_id out|threshold]; simpl.
  - apply store_consistent_snapshot.
  - apply (preserves_list_snapshots _ store_consistent_frame).
  - apply (preserves_restore _ store_consistent_frame).
  - intros w [Hc Hw]. rewrite run_prune.
    destruct (select_ids_le threshold (current (conn w))); [split; assumption|].
    split; apply consistent_pruned, Hw.
Qed.

(** Whatever was run on a database file that was new at the start, the
    file satisfies the conditions under which a snapshot is restored
    exactly: its blob store is well formed and its file entries carry ids
    that were handed out. *)
Lemma history_consistent (runs : list (list Command)) (fs0 : FS) :
  let db := committed (conn (history runs (new_world fs0))) in
  blobs_wf db /\ ids_bounded db.
Proof.
  assert (forall w, consistent (committed (conn w)) ->
                    consistent (committed (conn (history runs w)))) as H.
  { induction runs as [|cmds runs IH]; intros w Hw; [exact Hw|].
    simpl. apply IH. unfold process, close. simpl.
    apply (preserves_for_each store_consistent cmds call store_consistent_call
             (connect w)).
    split; exact Hw. }
  simpl. specialize (H (new_world fs0)).
  assert (consistent (committed (conn (new_world fs0)))) as H0.
  { split; [constructor|]. simpl. split; [lia|].
    split; intros x Hin; inversion Hin. }
  apply H in H0. split; [apply H0 | apply consistent_ids_bounded, H0].
Qed.

(* ===================================================================== *)
(** ** What snapshot, list and prune leave alone *)
(* ===================================================================== *)

Lemma keeps_fs_ret {A} (a : A) : keeps_fs (mret a).
Proof. intros w. reflexivity. Qed.

Lemma keeps_fs_bind {A B} (m : M A) (k : A -> M B) :
  keeps_fs m -> (forall a, keeps_fs (k a)) -> keeps_fs (m ≫= k).
Proof.
  intros Hm Hk w. rewrite run_bind. specialize (Hm w).
  destruct (m w) as [[a|e] w']; simpl in *; [|exact Hm].
  rewrite Hk. exact Hm.
Qed.

Lemma keeps_fs_for_each {A} (l : list A) (body : A -> M unit) :
  (forall x, keeps_fs (body x)) -> keeps_fs (for_each l body).
Proof.
  intros Hb. induction l as [|x l IH]; [apply keeps_fs_ret|].
  apply keeps_fs_bind; [apply Hb | intros _; exact IH].
Qed.

Lemma keeps_fs_query {A} (q : DB -> A) : keeps_fs (query q).
Proof. intros w. reflexivity. Qed.

Lemma keeps_fs_execute {A} (stmt : DB -> option (A * DB)) e :
  keeps_fs (execute stmt e).
Proof. intros w. unfold execute. destruct (stmt _) as [[a db]|]; reflexivity. Qed.

Lemma keeps_fs_delete stmt : keeps_fs (delete stmt).
Proof. intros w. reflexivity. Qed.

Lemma keeps_fs_commit : keeps_fs commit.
Proof. intros w. reflexivity. Qed.

Lemma keeps_fs_print m : keeps_fs (print m).
Proof. intros w. reflexivity. Qed.

Lemma keeps_fs_snapshot target timestamp : keeps_fs (snapshot target timestamp).
Proof.
  unfold snapshot.
  apply keeps_fs_bind; [apply keeps_fs_execute | intros snapshot_id].
  apply keeps_fs_bind.
  - apply keeps_fs_for_each. intros triple. apply keeps_fs_for_each. intros file.
    unfold snapshot_file. destruct (snd file); [|apply keeps_fs_print].
    apply keeps_fs_bind; [|intros h; apply keeps_fs_execute].
    unfold store_blob.
    apply keeps_fs_bind; [apply keeps_fs_query | intros found].
    apply keeps_fs_bind; [|intros _; apply keeps_fs_ret].
    destruct found; [apply keeps_fs_ret | apply keeps_fs_execute].
  - intros _. apply keeps_fs_bind; [apply keeps_fs_commit|].
    intros _. apply keeps_fs_print.
Qed.

Lemma keeps_fs_list_snapshots : keeps_fs list_snapshots.
Proof.
  unfold list_snapshots.
  apply keeps_fs_bind; [apply keeps_fs_query | intros [|r rows]].
  - apply keeps_fs_print.
  - apply keeps_fs_bind; [apply keeps_fs_print | intros _].
    apply keeps_fs_for_each. intros row. apply keeps_fs_print.
Qed.

Lemma keeps_fs_prune threshold : keeps_fs (prune threshold).
Proof.
  intros w. rewrite run_prune. destruct (select_ids_le _ _); reflexivity.
Qed.

(** X9. [snapshot], [list_snapshots] and [prune] never write to the file
    system: whatever they are called on and however they end, every path
    holds afterwards what it held before.  Only [restore] writes files. *)
Theorem only_restore_writes_files :
  forall (c : Command) (w : World),
    (forall snapshot_number output_directory,
        c <> CmdRestore snapshot_number output_directory) ->
    fs (snd (call c w)) = fs w.
Proof.
  intros [target timestamp| |snapshot_id out|threshold] w Hc; simpl.
  - apply keeps_fs_snapshot.
  - apply keeps_fs_list_snapshots.
  - exfalso. apply (Hc snapshot_id out). reflexivity.
  - apply keeps_fs_prune.
Qed.

Lemma only_restore_writes_files_witness :
  (forall snapshot_number output_directory,
      CmdPrune 1 <> CmdRestore snapshot_number output_directory)
  /\ fs (snd (call (CmdPrune 1) world2)) = fs world2.
Proof.
  split; [discriminate|].
  apply (only_restore_writes_files (CmdPrune 1) world2). discriminate.
Defined.

(* ===================================================================== *)
(** ** A snapshot that fails *)
(* ===================================================================== *)

Lemma snapshot_loop_raises snapshot_id items :
  forall w e w',
    for_each items (snapshot_item snapshot_id) w = (Raise e, w') ->
    e = IntegrityError.
Proof.
  induction items as [|[p d] items IH]; intros w e w' Hrun; [discriminate|].
  rewrite run_for_each_cons in Hrun.
  destruct (snapshot_item snapshot_id (p, d) w) as [[[]|e1] w1] eqn:E1.
  - eapply IH, Hrun.
  - injection Hrun as -> ->. destruct d as [content|]; [|discriminate].
    rewrite run_snapshot_item_Some in E1.
    destruct (insert_file _ _); [discriminate|]. congruence.
Qed.

Lemma snapshot_raises_frame :
  forall (target : option Node) (timestamp : string) (w w' : World)
         (e : Exception),
    snapshot target timestamp w = (Raise e, w') ->
    (e = OperationalError \/ e = IntegrityError)
    /\ committed (conn w') = committed (conn w)
    /\ taken_ids (stdout w') = taken_ids (stdout w)
    /\ fs w' = fs w.
Proof.
  intros target timestamp w w' e Hrun.
  pose proof (keeps_fs_snapshot target timestamp w) as Hfs.
  rewrite Hrun in Hfs. simpl in Hfs.
  rewrite run_snapshot in Hrun.
  destruct (insert_snapshot timestamp (current (conn w))) as [[snapshot_id db1]|].
  2: { injection Hrun as <- <-. auto. }
  pose proof (loop_frame_snapshot_loop (committed (conn w)) (snapshots db1)
                (sqlite_sequence db1) (taken_ids (stdout w)) snapshot_id
                (walk_items target) (set_current db1 w)) as Hframe.
  destruct (for_each _ _ _) as [[[]|e2] w2] eqn:Eloop; [discriminate|].
  injection Hrun as -> ->.
  destruct Hframe as (Hc & _ & _ & Ht); [repeat split|].
  split; [right; eapply snapshot_loop_raises, Eloop | auto].
Qed.

(** X2. A call of [snapshot] that raises has committed nothing.  The only
    exceptions it can raise come from SQLite (a file that cannot be read is
    skipped, not raised); the database file is then as it was before the
    call, no snapshot has been announced, and the file system is
    untouched. *)
Theorem failed_snapshot_commits_nothing :
  forall (target : option Node) (timestamp : string) (w w' : World)
         (e : Exception),
    snapshot target timestamp w = (Raise e, w') ->
    (e = OperationalError \/ e = IntegrityError)
    /\ committed (conn w') = committed (conn w)
    /\ taken_ids (stdout w') = taken_ids (stdout w)
    /\ fs w' = fs w.
Proof. exact snapshot_raises_frame. Qed.

Lemma failed_snapshot_commits_nothing_witness :
  let r := snapshot (Some twice_a) "2024-01-05 10:00:00" world1 in
  r = (Raise IntegrityError, snd r)
  /\ committed (conn (snd r)) = committed (conn world1)
  /\ map s_id (snapshots (current (conn (snd r)))) = [1; 2].
Proof.
  intros r.
  assert (r = (Raise IntegrityError, snd r)) as Hr by (vm_compute; reflexivity).
  split; [exact Hr|]. split; [|vm_compute; reflexivity].
  apply (failed_snapshot_commits_nothing (Some twice_a) "2024-01-05 10:00:00"
           world1 (snd r) IntegrityError Hr).
Defined.

(* ===================================================================== *)
(** ** What a snapshot records *)
(* ===================================================================== *)

Lemma elem_of_read_errors items p :
  ErrorReading p ∈ read_errors items <-> (p, None) ∈ items.
Proof.
  unfold read_errors. rewrite list_elem_of_In, in_flat_map. split.
  - intros ([q [c|]] & Hin & Hx); simpl in Hx; [contradiction|].
    destruct Hx as [[= <-]|[]]. apply list_elem_of_In, Hin.
  - intros Hin. exists (p, None).
    split; [apply list_elem_of_In, Hin | left; reflexivity].
Qed.

Lemma select_files_other snapshot_id other db db' items :
  files db' = files db ++ rows_of snapshot_id items ->
  other <> snapshot_id ->
  select_files other db' = select_files other db.
Proof.
  intros Hfiles Hne. unfold select_files. rewrite Hfiles, filter_app, map_app.
  replace (filter (fun f => f_snapshot_id f = other) (rows_of snapshot_id items))
    with (@nil FileRow); [apply app_nil_r|].
  symmetry. apply filter_none. intros f Hin Hid. apply Hne.
  unfold rows_of in Hin. apply list_elem_of_In, in_flat_map in Hin
    as ([p [c|]] & _ & Hx); simpl in Hx; [|contradiction].
  destruct Hx as [<-|[]]. simpl in Hid. congruence.
Qed.

(** X1. [snapshot] of a directory returns normally even when some of its
    files cannot be read.  It prints one "Error reading" line for each file
    that cannot be read, then announces the snapshot.  The file entries of
    the new snapshot are exactly the files that could be read, each under
    its relative path with the SHA-256 digest of its content, and each
    resolves to a blob; the entries of every other snapshot are untouched,
    and everything is committed. *)
Theorem snapshot_records_readable_files :
  forall (entries : list (string * Node)) (timestamp : string) (w : World),
    let top := Dir entries in
    let db := current (conn w) in
    let snapshot_id := last_id db + 1 in
    well_formed top = true ->
    ids_bounded db ->
    last_id db < max_int64 ->
    exists w1,
      snapshot (Some top) timestamp w = (Return tt, w1)
      /\ committed (conn w1) = current (conn w1)
      /\ stdout w1 = stdout w ++ read_errors (items_of [] top)
                              ++ [SnapshotTaken snapshot_id timestamp]
      /\ (forall p, ErrorReading p ∈ read_errors (items_of [] top)
                    <-> lookup_node p top = Some (File None))
      /\ (forall p h,
             (p, h) ∈ select_files snapshot_id (current (conn w1))
             <-> exists content,
                   lookup_node p top = Some (File (Some content))
                   /\ h = SHA256.hexdigest content)
      /\ (forall p h,
             (p, h) ∈ select_files snapshot_id (current (conn w1)) ->
             is_Some (select_blob h (current (conn w1))))
      /\ (forall other, other <> snapshot_id ->
             select_files other (current (conn w1)) = select_files other db).
Proof.
  intros entries timestamp w top db snapshot_id Hwf Hids Hlast.
  set (items := items_of [] top).
  set (db1 := with_snapshot snapshot_id timestamp db).
  assert (forall f, f ∈ files db -> f_snapshot_id f <> snapshot_id) as Hold.
  { intros f Hf. unfold ids_bounded in Hids. rewrite Forall_forall in Hids.
    apply Hids in Hf. subst snapshot_id. lia. }
  destruct (snapshot_loop_spec snapshot_id items (set_current db1 w))
    as (wb & Hloop & Hfiles & Hsnaps & Hfs & Hout).
  { apply items_of_NoDup, Hwf. }
  { intros f Hf Hid. exfalso. apply (Hold f Hf Hid). }
  pose proof (snapshot_loop_stores _ _ _ _ Hloop) as Hstored.
  assert (forall p d, (p, d) ∈ items <-> lookup_node p top = Some (File d)) as Hitems.
  { intros p d. unfold items. rewrite (elem_of_items_of top Hwf). split.
    - intros (p' & _ & -> & Hl). exact Hl.
    - intros Hl. exists p. split; [intros ->; discriminate | auto]. }
  assert (select_files snapshot_id (current (conn wb)) = entries_of items) as Hrows
      by (apply (select_files_new _ db1); assumption).
  exists (printed (SnapshotTaken snapshot_id timestamp) (committed_world wb)).
  split.
  { rewrite run_snapshot, (insert_snapshot_Some _ _ Hlast).
    change (walk_items (Some top)) with items. fold db snapshot_id db1.
    rewrite Hloop. reflexivity. }
  split; [reflexivity|]. split.
  { simpl. rewrite Hout, <- app_assoc. reflexivity. }
  split.
  { intros p. rewrite elem_of_read_errors. apply Hitems. }
  simpl. rewrite Hrows. split; [|split].
  - intros p h. rewrite elem_of_entries_of. split.
    + intros (c & Hin & ->). exists c. split; [apply Hitems, Hin | reflexivity].
    + intros (c & Hl & ->). exists c. split; [apply Hitems, Hl | reflexivity].
  - intros p h Hin. apply elem_of_entries_of in Hin as (c & Hin & ->).
    apply (Hstored p c Hin).
  - intros other Hne. apply (select_files_other snapshot_id other db1 _ items);
      assumption.
Qed.

Lemma snapshot_records_readable_files_witness :
  let db := current (conn world1) in
  (well_formed (Dir entries3) = true /\ ids_bounded db /\ last_id db < max_int64)
  /\ exists w1,
       snapshot (Some (Dir entries3)) "2024-01-06 10:00:00" world1 = (Return tt, w1)
       /\ stdout w1 = stdout world1
                        ++ [ErrorReading ["locked"%string];
                            ErrorReading ["d"; "gone"]%string;
                            SnapshotTaken 2 "2024-01-06 10:00:00"]
       /\ select_files 2 (current (conn w1))
          = [(["file1.txt"%string], SHA256.hexdigest hello);
             (["d"; "copy.txt"]%string, SHA256.hexdigest hello)].
Proof.
  intros db. split; [repeat split; compute_done|].
  destruct (snapshot_records_readable_files entries3 "2024-01-06 10:00:00" world1)
    as (w1 & Hrun & _); [compute_done..|].
  exists w1. split; [exact Hrun|].
  assert (w1 = snd (snapshot (Some (Dir entries3)) "2024-01-06 10:00:00" world1))
    as -> by (rewrite Hrun; reflexivity).
  split; vm_compute; reflexivity.
Defined.

(* ===================================================================== *)
(** ** Primary keys *)
(* ===================================================================== *)

Lemma max_rowid_ge rows s : s ∈ rows -> s_id s <= max_rowid rows.
Proof.
  unfold max_rowid. induction rows as [|r rows IH]; intros Hin; [inversion Hin|].
  simpl. apply elem_of_cons in Hin as [->|Hin]; [lia|].
  specialize (IH Hin). lia.
Qed.

Lemma StronglySorted_map_filter {A} (f : A -> Z) (P : A -> Prop)
    `{forall x, Decision (P x)} (l : list A) :
  StronglySorted Z.lt (map f l) -> StronglySorted Z.lt (map f (filter P l)).
Proof.
  induction l as [|x l IH]; intros Hs; [constructor|].
  simpl in Hs. apply StronglySorted_cons in Hs as [Hall Hs].
  rewrite filter_cons. destruct (decide (P x)); [|apply IH, Hs].
  simpl. apply StronglySorted_cons. split; [|apply IH, Hs].
  rewrite Forall_forall in Hall. apply Forall_forall. intros y Hy. apply Hall.
  apply list_elem_of_In, in_map_iff in Hy as (a & <- & Ha).
  apply list_elem_of_In, list_elem_of_filter in Ha as [_ Ha].
  apply list_elem_of_In, in_map, list_elem_of_In, Ha.
Qed.

Lemma NoDup_map_filter {A B} (f : A -> B) (P : A -> Prop)
    `{forall x, Decision (P x)} (l : list A) :
  NoDup (map f l) -> NoDup (map f (filter P l)).
Proof.
  intros Hnd. apply (sublist_NoDup _ (map f l)); [exact Hnd|].
  apply (fmap_sublist f), sublist_filter.
Qed.

Lemma keys_unique_pruned threshold db :
  keys_unique db -> keys_unique (pruned threshold db).
Proof.
  intros (Hs & Hb & Hf). split; [|split]; simpl.
  - apply StronglySorted_map_filter, Hs.
  - apply NoDup_map_filter, Hb.
  - apply NoDup_map_filter, Hf.
Qed.

Lemma keys_unique_with_snapshot timestamp db :
  keys_unique db -> keys_unique (with_snapshot (last_id db + 1) timestamp db).
Proof.
  intros (Hs & Hb & Hf). split; [|split; assumption].
  simpl. rewrite map_app. apply StronglySorted_app_2; [|exact Hs|].
  - intros x1 x2 H1 H2. apply list_elem_of_singleton in H2 as ->.
    apply list_elem_of_In, in_map_iff in H1 as (s & <- & Hin).
    apply list_elem_of_In, max_rowid_ge in Hin.
    unfold last_id, max_rowid in *. simpl. lia.
  - repeat constructor.
Qed.

Lemma keys_unique_with_blob row db :
  select_blob (b_hash row) db = None ->
  keys_unique db -> keys_unique (with_blob row db).
Proof.
  intros Hnone (Hs & Hb & Hf). split; [exact Hs|]. split; [|exact Hf].
  simpl. rewrite map_app. apply NoDup_app. split; [exact Hb|].
  split; [|repeat constructor; inversion 1].
  intros h Hin Hh. apply list_elem_of_singleton in Hh as ->.
  apply list_elem_of_In, in_map_iff in Hin as (b & Hbh & Hin).
  apply (find_none _ _ Hnone) in Hin. apply bool_decide_eq_false in Hin.
  contradiction.
Qed.

Lemma keys_unique_with_file row db :
  existsb (same_key (f_snapshot_id row) (f_path row)) (files db) = false ->
  keys_unique db -> keys_unique (with_file row db).
Proof.
  intros Hnone (Hs & Hb & Hf). split; [exact Hs|]. split; [exact Hb|].
  simpl. rewrite map_app. apply NoDup_app. split; [exact Hf|].
  split; [|repeat constructor; inversion 1].
  intros k Hin Hk. apply list_elem_of_singleton in Hk as ->.
  apply list_elem_of_In, in_map_iff in Hin as (f & Hkey & Hin).
  assert (existsb (same_key (f_snapshot_id row) (f_path row)) (files db) = true)
    as Ht; [|congruence].
  apply existsb_exists. exists f. split; [exact Hin|].
  unfold file_key in Hkey. injection Hkey as H1 H2.
  unfold same_key. rewrite !bool_decide_eq_true_2 by assumption. reflexivity.
Qed.

Lemma store_keys_unique_frame w w' :
  conn w' = conn w -> taken_ids (stdout w') = taken_ids (stdout w) ->
  store_keys_unique w -> store_keys_unique w'.
Proof. unfold store_keys_unique. intros -> _. auto. Qed.

Lemma store_keys_unique_call c : preserves store_keys_unique (call c).
Proof.
  destruct c as [target timestamp| |snapshot_id out|threshold]; simpl.
  - intros w [Hc Hw]. rewrite run_snapshot.
    destruct (insert_snapshot timestamp (current (conn w))) as [[snapshot_id db1]|] eqn:E;
      [|split; assumption].
    apply insert_snapshot_inv in E as (_ & -> & ->).
    assert (preserves store_keys_unique
              (for_each (walk_items target)
                        (snapshot_item (last_id (current (conn w)) + 1)))) as Hloop.
    { apply preserves_for_each. intros item.
      apply preserves_snapshot_item; [apply store_keys_unique_frame| |].
      - intros v content db _ Ei [Hcv Hv]. apply insert_blob_inv in Ei as [Hn ->].
        split; [exact Hcv | apply keys_unique_with_blob; assumption].
      - intros v row db Ei _ [Hcv Hv]. apply insert_file_inv in Ei as [Hn ->].
        split; [exact Hcv | apply keys_unique_with_file; assumption]. }
    specialize (Hloop (set_current (with_snapshot (last_id (current (conn w)) + 1)
                                      timestamp (current (conn w))) w)).
    destruct (for_each _ _ _) as [[[]|e] w2]; simpl in *.
    + destruct Hloop as [_ H2];
        [split; [exact Hc | apply keys_unique_with_snapshot, Hw]|].
      split; exact H2.
    + apply Hloop. split; [exact Hc | apply keys_unique_with_snapshot, Hw].
  - apply (preserves_list_snapshots _ store_keys_unique_frame).
  - apply (preserves_restore _ store_keys_unique_frame).
  - intros w [Hc Hw]. rewrite run_prune.
    destruct (select_ids_le threshold (current (conn w))); [split; assumption|].
    split; apply keys_unique_pruned, Hw.
Qed.

(** X3. Every operation keeps the primary keys of the three tables unique:
    no two blobs have the same digest, so content that several files or
    snapshots share is stored once; no two file entries have the same
    snapshot id and path; and the snapshot rows stay in strictly ascending
    order of their ids.  This holds of the database file and of the
    connection's view, however the call ends. *)
Theorem operations_keep_keys_unique :
  forall (c : Command) (w : World),
    store_keys_unique w -> store_keys_unique (snd (call c w)).
Proof. intros c w. apply store_keys_unique_call. Qed.

Lemma operations_keep_keys_unique_witness :
  store_keys_unique world1
  /\ store_keys_unique
       (snd (call (CmdSnapshot (Some (Dir entries3)) "2024-01-06 10:00:00") world1)).
Proof.
  assert (store_keys_unique world1) as H.
  { unfold store_keys_unique, keys_unique.
    repeat split; try compute_done;
      vm_compute; repeat constructor. }
  split; [exact H|].
  apply (operations_keep_keys_unique
           (CmdSnapshot (Some (Dir entries3)) "2024-01-06 10:00:00") world1 H).
Defined.

(* ===================================================================== *)
(** ** list_snapshots *)
(* ===================================================================== *)

Lemma run_for_each_print {A} (g : A -> Message) (l : list A) w :
  for_each l (fun x => print (g x)) w =
    (Return tt, {| conn := conn w; fs := fs w; stdout := stdout w ++ map g l |}).
Proof.
  revert w. induction l as [|x l IH]; intros w.
  - simpl. rewrite app_nil_r. destruct w. reflexivity.
  - rewrite run_for_each_cons. unfold print at 1. rewrite IH. simpl.
    rewrite <- app_assoc. reflexivity.
Qed.

Lemma run_list_snapshots w :
  list_snapshots w =
    (Return tt, {| conn := conn w; fs := fs w;
                   stdout := stdout w ++ listing (snapshots (current (conn w))) |}).
Proof.
  unfold list_snapshots. rewrite run_bind. unfold query at 1, select_snapshots.
  destruct (snapshots (current (conn w))) as [|r rows]; [reflexivity|].
  rewrite run_bind. unfold print at 1. rewrite run_for_each_print. simpl.
  rewrite <- app_assoc. reflexivity.
Qed.

Lemma history_settled runs :
  forall w, current (conn w) = committed (conn w) ->
            current (conn (history runs w)) = committed (conn (history runs w)).
Proof.
  induction runs as [|cmds runs IH]; intros w Hw; [exact Hw|].
  simpl. apply IH. reflexivity.
Qed.

Lemma history_keys_unique runs :
  forall w, keys_unique (committed (conn w)) ->
            keys_unique (committed (conn (history runs w))).
Proof.
  induction runs as [|cmds runs IH]; intros w Hw; [exact Hw|].
  simpl. apply IH. unfold process, close. simpl.
  apply (preserves_for_each store_keys_unique cmds call store_keys_unique_call
           (connect w)).
  split; exact Hw.
Qed.

(** X10. On a database that was new at the start, after any runs of any
    calls, [list_snapshots] returns normally, changes nothing, and prints
    either "No snapshots found." when the snapshots table is empty, or the
    header followed by one line per stored snapshot; the lines come in
    strictly ascending order of the snapshot ids. *)
Theorem list_snapshots_in_order :
  forall (runs : list (list Command)) (fs0 : FS),
    let w := history runs (new_world fs0) in
    let rows := snapshots (committed (conn w)) in
    list_snapshots w =
      (Return tt, {| conn := conn w; fs := fs w;
                     stdout := stdout w ++ listing rows |})
    /\ StronglySorted Z.lt (map s_id rows)
    /\ (rows = [] <-> listing rows = [NoSnapshotsFound]).
Proof.
  intros runs fs0 w rows. split; [|split].
  - rewrite run_list_snapshots. subst rows w.
    rewrite history_settled; reflexivity.
  - apply (history_keys_unique runs (new_world fs0)).
    repeat split; simpl; constructor.
  - destruct rows; simpl; split; try reflexivity; discriminate.
Qed.

Example list_snapshots_sample :
  listing (snapshots (committed (conn (history sample_runs (new_world ∅)))))
  = [TableHeader; TableRow 3 "2024-01-03 10:00:00"].
Proof. vm_compute. reflexivity. Qed.

(* ===================================================================== *)
(** ** Foreign keys *)
(* ===================================================================== *)

Lemma references_hold_blobs db db' :
  snapshots db' = snapshots db -> files db' = files db ->
  (forall h, is_Some (select_blob h db) -> is_Some (select_blob h db')) ->
  references_hold db -> references_hold db'.
Proof.
  unfold references_hold. intros -> -> Hgrow H.
  eapply Forall_impl; [exact H|]. intros f [H1 H2]. split; [apply Hgrow, H1 | exact H2].
Qed.

Lemma references_hold_pruned threshold db :
  references_hold db -> references_hold (pruned threshold db).
Proof.
  unfold references_hold. rewrite !Forall_forall. intros H f Hin.
  simpl in Hin. apply list_elem_of_filter in Hin as [Hgt Hin].
  destruct (H f Hin) as [[b Hb] Hs]. split.
  - exists b. unfold select_blob. simpl. apply find_filter_keep; [exact Hb|].
    apply select_blob_elem in Hb as [_ ->].
    apply list_elem_of_In, in_map, list_elem_of_In.
    apply list_elem_of_filter. split; assumption.
  - simpl. apply list_elem_of_In, in_map_iff in Hs as (s & Hid & Hs).
    apply list_elem_of_In, in_map_iff. exists s. split; [exact Hid|].
    apply list_elem_of_In, list_elem_of_filter.
    split; [rewrite Hid; exact Hgt | apply list_elem_of_In, Hs].
Qed.

(** What the loop of [snapshot] keeps while it fills snapshot
    [snapshot_id]. *)
Lemma references_snapshot_item snapshot_id item :
  preserves (fun w => store_references_hold w
                      /\ snapshot_id ∈ map s_id (snapshots (current (conn w))))
            (snapshot_item snapshot_id item).
Proof.
  intros w [[Hc Hw] Hid]. destruct item as [p [content|]].
  2: { simpl. repeat split; assumption. }
  rewrite run_snapshot_item_Some.
  pose proof (store_blob_stored content w) as Hstored.
  assert (references_hold (current (conn (snd (store_blob content w))))
          /\ committed (conn (snd (store_blob content w))) = committed (conn w)
          /\ snapshots (current (conn (snd (store_blob content w))))
             = snapshots (current (conn w))) as (Hw1 & Hc1 & Hs1).
  { rewrite run_store_blob. destruct (select_blob _ _); simpl; [auto|].
    split; [|auto].
    apply (references_hold_blobs (current (conn w))); try reflexivity; [|exact Hw].
    intros h. apply select_blob_with_blob. }
  remember (snd (store_blob content w)) as w1 eqn:Ew1. clear Ew1.
  unfold stored in Hstored.
  destruct (insert_file _ _) as [db|] eqn:E; cbn [snd].
  - apply insert_file_inv in E as [_ ->]. unfold store_references_hold.
    cbn [set_current conn committed current snapshots].
    assert (snapshot_id ∈ map s_id (snapshots (current (conn w1)))) as Hid1
        by (rewrite Hs1; exact Hid).
    split; [split; [rewrite Hc1; exact Hc|] | exact Hid1].
    unfold references_hold in *. cbn [files]. apply Forall_app. split; [exact Hw1|].
    constructor; [|constructor]. split; [exact Hstored | exact Hid1].
  - unfold store_references_hold. rewrite Hc1, Hs1. repeat split; assumption.
Qed.

Lemma store_references_hold_frame w w' :
  conn w' = conn w -> taken_ids (stdout w') = taken_ids (stdout w) ->
  store_references_hold w -> store_references_hold w'.
Proof. unfold store_references_hold. intros -> _. auto. Qed.

Lemma store_references_hold_call c : preserves store_references_hold (call c).
Proof.
  destruct c as [target timestamp| |snapshot_id out|threshold]; simpl.
  - intros w [Hc Hw]. rewrite run_snapshot.
    destruct (insert_snapshot timestamp (current (conn w))) as [[snapshot_id db1]|] eqn:E;
      [|split; assumption].
    apply insert_snapshot_inv in E as (_ & _ & ->).
    pose proof (preserves_for_each _ (walk_items target) (snapshot_item snapshot_id)
                  (references_snapshot_item snapshot_id)
                  (set_current (with_snapshot snapshot_id timestamp
                                  (current (conn w))) w)) as Hloop.
    destruct Hloop as [[Hc2 Hw2] _].
    { split; [split; [exact Hc|] |].
      - unfold references_hold in *. simpl.
        eapply Forall_impl; [exact Hw|]. intros f [H1 H2]. split; [exact H1|].
        rewrite map_app. apply elem_of_app. left. exact H2.
      - simpl. rewrite map_app. apply elem_of_app. right. left. }
    destruct (for_each _ _ _) as [[[]|e] w2]; simpl in *; split; assumption.
  - apply (preserves_list_snapshots _ store_references_hold_frame).
  - apply (preserves_restore _ store_references_hold_frame).
  - intros w [Hc Hw]. rewrite run_prune.
    destruct (select_ids_le threshold (current (conn w))); [split; assumption|].
    split; apply references_hold_pruned, Hw.
Qed.

(** X4. Every operation keeps the two foreign keys of the files table,
    which SQLite does not enforce here: if every file entry names a stored
    blob and a stored snapshot, in the database file and in the connection's
    view, the same holds after [snapshot], [list_snapshots], [restore] or
    [prune], however the call ends. *)
Theorem operations_keep_references :
  forall (c : Command) (w : World),
    store_references_hold w -> store_references_hold (snd (call c w)).
Proof. intros c w. apply store_references_hold_call. Qed.

Lemma operations_keep_references_witness :
  store_references_hold world2
  /\ store_references_hold (snd (call (CmdPrune 1) world2)).
Proof.
  split; [compute_done|].
  apply (operations_keep_references (CmdPrune 1) world2). compute_done.
Defined.

Lemma missing_reports_nil db rows :
  (forall p h, (p, h) ∈ rows -> is_Some (select_blob h db)) ->
  missing_reports db rows = [].
Proof.
  induction rows as [|[p h] rows IH]; intros Hall; [reflexivity|].
  simpl. destruct (Hall p h) as [b ->]; [left|]. simpl. apply IH.
  intros p' h' Hin. apply (Hall p'). right. exact Hin.
Qed.

Lemma select_files_elem snapshot_id db p h :
  (p, h) ∈ select_files snapshot_id db ->
  exists f, f ∈ files db /\ f_snapshot_id f = snapshot_id
            /\ f_path f = p /\ f_blob_hash f = h.
Proof.
  unfold select_files. intros Hin.
  apply list_elem_of_fmap in Hin as (f & [= -> ->] & Hin).
  apply list_elem_of_filter in Hin as [Hid Hin]. eauto.
Qed.

(** X5. In a store whose file entries all name stored blobs, [restore] of a
    stored snapshot into a place where its files can be written reports no
    missing blob: it prints only the final "restored" line, and every file
    entry of the snapshot has its file written with the bytes of its
    blob. *)
Theorem restore_of_sound_store :
  forall (snapshot_id : Z) (output_directory : path) (w : World),
    let db := current (conn w) in
    let rows := select_files snapshot_id db in
    references_hold db ->
    snapshot_id ∈ map s_id (snapshots db) ->
    restorable (fs w) output_directory (map fst rows) = true ->
    exists w',
      restore snapshot_id output_directory w = (Return tt, w')
      /\ stdout w' = stdout w ++ [SnapshotRestored snapshot_id output_directory]
      /\ forall p h, (p, h) ∈ rows ->
           exists b, select_blob h db = Some b
                     /\ fs w' !! (output_directory ++ p)
                        = Some (RegularFile (b_content b)).
Proof.
  intros snapshot_id out w db rows Hrefs Hid Hok.
  apply restorable_spec in Hok as (Hout & Hrows & Hfree).
  destruct (restore_spec snapshot_id out w Hid Hout Hrows Hfree)
    as (fs' & Hrun & _ & Hpaths).
  assert (forall p h, (p, h) ∈ rows -> is_Some (select_blob h db)) as Hall.
  { intros p h Hin. apply select_files_elem in Hin as (f & Hf & _ & _ & <-).
    unfold references_hold in Hrefs. rewrite Forall_forall in Hrefs.
    apply (Hrefs f Hf). }
  eexists. split; [exact Hrun|]. simpl. split.
  - fold db rows. rewrite (missing_reports_nil db rows Hall). reflexivity.
  - intros p h Hin. specialize (Hpaths p h Hin). fold db in Hpaths.
    destruct (Hall p h Hin) as [b Hb]. rewrite Hb in Hpaths. eauto.
Qed.

Lemma restore_of_sound_store_witness :
  let out := ["restore"%string] in
  let db := current (conn world2) in
  (references_hold db
   /\ 2 ∈ map s_id (snapshots db)
   /\ restorable (fs world2) out (map fst (select_files 2 db)) = true)
  /\ exists w',
       restore 2 out world2 = (Return tt, w')
       /\ stdout w' = stdout world2 ++ [SnapshotRestored 2 out].
Proof.
  intros out db. split; [repeat split; compute_done|].
  destruct (restore_of_sound_store 2 out world2) as (w' & Hrun & Hout & _);
    [compute_done..|].
  exists w'. split; assumption.
Defined.

(* ===================================================================== *)
(** ** What prune reclaims *)
(* ===================================================================== *)

(** X6. A [prune] that deletes at least one snapshot leaves no garbage:
    afterwards every blob is named by a file entry that is still in the
    files table, and every file entry has an id above the threshold. *)
Theorem prune_sweeps_unreferenced_blobs :
  forall (threshold : Z) (w : World) (s : SnapshotRow),
    s ∈ snapshots (current (conn w)) ->
    s_id s <= threshold ->
    let db' := current (conn (snd (prune threshold w))) in
    (forall b, b ∈ blobs db' ->
               exists f, f ∈ files db' /\ f_blob_hash f = b_hash b)
    /\ (forall f, f ∈ files db' -> threshold < f_snapshot_id f)
    /\ committed (conn (snd (prune threshold w))) = db'.
Proof.
  intros threshold w s Hs Hle db'. subst db'. rewrite run_prune.
  destruct (select_ids_le threshold (current (conn w))) eqn:E.
  { apply select_ids_le_nil with (s := s) in E; [lia | exact Hs]. }
  simpl. split; [|split; [|reflexivity]].
  - intros b Hb. apply list_elem_of_filter in Hb as [Href _].
    apply list_elem_of_In, in_map_iff in Href as (f & Hh & Hf).
    exists f. split; [apply list_elem_of_In, Hf | exact Hh].
  - intros f Hf. apply list_elem_of_filter in Hf as [Hgt _]. lia.
Qed.

Lemma prune_sweeps_unreferenced_blobs_witness :
  (snapshot2 ∈ snapshots (current (conn world2)) /\ s_id snapshot2 <= 2)
  /\ blobs (current (conn (snd (prune 2 world2)))) = []
  /\ files (current (conn (snd (prune 2 world2)))) = [].
Proof.
  split; [split; compute_done|].
  destruct (prune_sweeps_unreferenced_blobs 2 world2 snapshot2)
    as (Hb & Hf & _); [compute_done..|].
  split; vm_compute; reflexivity.
Defined.

(** X7. A [prune] at or above every id in the store, when there is a
    snapshot to delete, empties the three tables; the AUTOINCREMENT counter
    is kept, so the next snapshot does not start again at 1. *)
Theorem prune_everything :
  forall (threshold : Z) (w : World) (s : SnapshotRow),
    let db := current (conn w) in
    s ∈ snapshots db ->
    (forall s', s' ∈ snapshots db -> s_id s' <= threshold) ->
    (forall f, f ∈ files db -> f_snapshot_id f <= threshold) ->
    let db' := current (conn (snd (prune threshold w))) in
    snapshots db' = [] /\ files db' = [] /\ blobs db' = []
    /\ sqlite_sequence db' = sqlite_sequence db
    /\ committed (conn (snd (prune threshold w))) = db'.
Proof.
  intros threshold w s db Hs Hsnaps Hfiles db'. subst db'. rewrite run_prune.
  fold db. destruct (select_ids_le threshold db) eqn:E.
  { apply select_ids_le_nil with (s := s) in E; [|exact Hs].
    specialize (Hsnaps s Hs). lia. }
  simpl.
  assert (filter (fun f => ~ f_snapshot_id f <= threshold) (files db) = []) as Hf.
  { apply filter_none. intros f Hin Hn. apply Hn, Hfiles, Hin. }
  rewrite Hf. simpl. repeat split.
  - apply filter_none. intros s' Hin Hn. apply Hn, Hsnaps, Hin.
  - apply filter_none. intros b _ Hin. inversion Hin.
Qed.

Lemma prune_everything_witness :
  let db := current (conn world2) in
  (snapshot2 ∈ snapshots db
   /\ (forall s', s' ∈ snapshots db -> s_id s' <= 5)
   /\ (forall f, f ∈ files db -> f_snapshot_id f <= 5))
  /\ snapshots (current (conn (snd (prune 5 world2)))) = []
  /\ sqlite_sequence (current (conn (snd (prune 5 world2)))) = 2.
Proof.
  intros db.
  assert (forall s', s' ∈ snapshots db -> s_id s' <= 5) as H1.
  { apply Forall_forall. compute_done. }
  assert (forall f, f ∈ files db -> f_snapshot_id f <= 5) as H2.
  { apply Forall_forall. compute_done. }
  split; [split; [compute_done | split; assumption]|].
  destruct (prune_everything 5 world2 snapshot2) as (Hs & _ & _ & Hq & _);
    [compute_done | exact H1 | exact H2|].
  split; [exact Hs|]. rewrite Hq. vm_compute. reflexivity.
Defined.

(* ===================================================================== *)
(** ** restore, step by step *)
(* ===================================================================== *)

Lemma run_restore snapshot_id out w :
  restore snapshot_id out w =
    match select_snapshot snapshot_id (current (conn w)) with
    | None => (Return tt, printed (SnapshotNotFound snapshot_id) w)
    | Some _ =>
        match ensure_directory out (fs w) with
        | inl e => (Raise (OSException e), w)
        | inr fs0 =>
            match for_each (select_files snapshot_id (current (conn w)))
                           (restore_file out) (with_fs fs0 w) with
            | (Return _, w2) =>
                (Return tt, printed (SnapshotRestored snapshot_id out) w2)
            | (Raise e, w2) => (Raise e, w2)
            end
        end
    end.
Proof.
  unfold restore. rewrite run_bind. unfold query at 1.
  destruct (select_snapshot _ _); [|reflexivity].
  rewrite run_bind. unfold path_exists at 1, ensure_directory.
  rewrite run_bind. case_bool_decide.
  - simpl. rewrite run_bind. unfold query at 1.
    rewrite run_bind. destruct w as [c f o]. simpl.
    destruct (for_each _ _ _) as [[[]|e] w2]; reflexivity.
  - unfold unless, syscall at 1. destruct (makedirs out (fs w)); [reflexivity|].
    rewrite run_bind. unfold query at 1. rewrite run_bind.
    change (select_files snapshot_id (current (conn _)))
      with (select_files snapshot_id (current (conn w))).
    destruct (for_each _ _ _) as [[[]|e] w2]; reflexivity.
Qed.

(** The loop of [restore] reads the store only through the blobs of its
    rows. *)
Lemma restore_loop_congr out rows :
  forall w v,
    fs w = fs v ->
    (forall p h, (p, h) ∈ rows ->
       select_blob h (current (conn w)) = select_blob h (current (conn v))) ->
    fst (for_each rows (restore_file out) w)
    = fst (for_each rows (restore_file out) v)
    /\ fs (snd (for_each rows (restore_file out) w))
       = fs (snd (for_each rows (restore_file out) v))
    /\ conn (snd (for_each rows (restore_file out) w)) = conn w
    /\ conn (snd (for_each rows (restore_file out) v)) = conn v
    /\ exists msgs,
         stdout (snd (for_each rows (restore_file out) w)) = stdout w ++ msgs
         /\ stdout (snd (for_each rows (restore_file out) v)) = stdout v ++ msgs.
Proof.
  induction rows as [|[p h] rows IH]; intros w v Hfs Hblobs.
  { simpl. repeat split; try assumption. exists []. rewrite !app_nil_r. auto. }
  rewrite !run_for_each_cons, !run_restore_file, <- Hfs, <- (Hblobs p h) by left.
  destruct (makedirs _ (fs w)) as [e|fs1].
  { simpl. repeat split; try assumption. exists []. rewrite !app_nil_r. auto. }
  assert (forall w1 v1 m,
             fs w1 = fs v1 -> conn w1 = conn w -> conn v1 = conn v ->
             stdout w1 = stdout w ++ m -> stdout v1 = stdout v ++ m ->
             fst (for_each rows (restore_file out) w1)
             = fst (for_each rows (restore_file out) v1)
             /\ fs (snd (for_each rows (restore_file out) w1))
                = fs (snd (for_each rows (restore_file out) v1))
             /\ conn (snd (for_each rows (restore_file out) w1)) = conn w
             /\ conn (snd (for_each rows (restore_file out) v1)) = conn v
             /\ exists msgs,
                  stdout (snd (for_each rows (restore_file out) w1))
                  = stdout w ++ msgs
                  /\ stdout (snd (for_each rows (restore_file out) v1))
                     = stdout v ++ msgs) as Hrest.
  { intros w1 v1 m Hfs1 Hcw Hcv Hsw Hsv.
    destruct (IH w1 v1 Hfs1) as (H1 & H2 & H3 & H4 & msgs & H5 & H6).
    { intros p' h' Hin. rewrite Hcw, Hcv. apply (Hblobs p'). right. exact Hin. }
    split; [exact H1|]. split; [exact H2|].
    split; [congruence|]. split; [congruence|].
    exists (m ++ msgs). rewrite H5, H6, Hsw, Hsv, <- !app_assoc. auto. }
  destruct (select_blob h (current (conn w))) as [b|].
  - destruct (write_file _ _ fs1) as [e|fs2].
    + simpl. repeat split. exists []. rewrite !app_nil_r. auto.
    + apply (Hrest _ _ []); simpl; rewrite ?app_nil_r; reflexivity.
  - apply (Hrest _ _ [MissingBlob h p]); reflexivity.
Qed.

(** [restore] reads the store only through the row of its snapshot, the
    file entries of that snapshot and their blobs. *)
Lemma restore_congr snapshot_id out w v :
  fs w = fs v ->
  select_snapshot snapshot_id (current (conn w))
  = select_snapshot snapshot_id (current (conn v)) ->
  select_files snapshot_id (current (conn w))
  = select_files snapshot_id (current (conn v)) ->
  (forall p h, (p, h) ∈ select_files snapshot_id (current (conn w)) ->
     select_blob h (current (conn w)) = select_blob h (current (conn v))) ->
  fst (restore snapshot_id out w) = fst (restore snapshot_id out v)
  /\ fs (snd (restore snapshot_id out w)) = fs (snd (restore snapshot_id out v))
  /\ exists msgs,
       stdout (snd (restore snapshot_id out w)) = stdout w ++ msgs
       /\ stdout (snd (restore snapshot_id out v)) = stdout v ++ msgs.
Proof.
  intros Hfs Hsnap Hfiles Hblobs. rewrite !run_restore, <- Hsnap, <- Hfiles, <- Hfs.
  destruct (select_snapshot _ _).
  2: { simpl. repeat split; [exact Hfs|]. eauto. }
  destruct (ensure_directory out (fs w)) as [e|fs0].
  { simpl. repeat split; [exact Hfs|]. exists []. rewrite !app_nil_r. auto. }
  destruct (restore_loop_congr out (select_files snapshot_id (current (conn w)))
              (with_fs fs0 w) (with_fs fs0 v) eq_refl Hblobs)
    as (H1 & H2 & _ & _ & msgs & H5 & H6).
  destruct (for_each _ _ (with_fs fs0 w)) as [[[]|e1] w2];
    destruct (for_each _ _ (with_fs fs0 v)) as [[[]|e2] v2];
    simpl in *; try discriminate.
  - repeat split; [exact H2|].
    exists (msgs ++ [SnapshotRestored snapshot_id out]).
    rewrite H5, H6, <- !app_assoc. auto.
  - split; [exact H1|]. split; [exact H2|]. eauto.
Qed.

Lemma find_filter_same {A} (p : A -> bool) (P : A -> Prop)
    `{forall x, Decision (P x)} (l : list A) :
  (forall x, x ∈ l -> p x = true -> P x) -> find p (filter P l) = find p l.
Proof.
  induction l as [|x l IH]; intros Himp; [reflexivity|].
  assert (find p (filter P l) = find p l) as IH'.
  { apply IH. intros y Hy. apply Himp. right. exact Hy. }
  rewrite filter_cons. simpl. destruct (p x) eqn:Hpx.
  - rewrite decide_True by (apply Himp; [left | exact Hpx]).
    simpl. rewrite Hpx. reflexivity.
  - destruct (decide (P x)); [simpl; rewrite Hpx|]; exact IH'.
Qed.

Lemma filter_filter_same {A} (P Q : A -> Prop)
    `{forall x, Decision (P x)} `{forall x, Decision (Q x)} (l : list A) :
  (forall x, Q x -> P x) -> filter Q (filter P l) = filter Q l.
Proof.
  intros Himp. induction l as [|x l IH]; [reflexivity|].
  rewrite (filter_cons P). destruct (decide (P x)) as [HP|HP].
  - rewrite !(filter_cons Q), IH. reflexivity.
  - rewrite (filter_cons_False Q x l); [exact IH | auto].
Qed.

(** X8. Pruning does not change what a surviving snapshot restores to: for
    a snapshot id above the threshold, [restore] after [prune] ends the same
    way, leaves the same file system and prints the same lines as [restore]
    without the [prune]. *)
Theorem restore_after_prune :
  forall (threshold snapshot_id : Z) (output_directory : path) (w : World),
    threshold < snapshot_id ->
    let w' := snd (prune threshold w) in
    fst (restore snapshot_id output_directory w')
    = fst (restore snapshot_id output_directory w)
    /\ fs (snd (restore snapshot_id output_directory w'))
       = fs (snd (restore snapshot_id output_directory w))
    /\ exists msgs,
         stdout (snd (restore snapshot_id output_directory w')) = stdout w' ++ msgs
         /\ stdout (snd (restore snapshot_id output_directory w)) = stdout w ++ msgs.
Proof.
  intros threshold snapshot_id out w Hlt w'.
  assert (fs w' = fs w) as Hfs by apply keeps_fs_prune.
  subst w'. revert Hfs. rewrite run_prune.
  destruct (select_ids_le threshold (current (conn w))) eqn:E; intros Hfs.
  { apply restore_congr; auto. }
  set (db := current (conn w)) in *.
  assert (select_files snapshot_id (pruned threshold db)
          = select_files snapshot_id db) as Hfiles.
  { unfold select_files. simpl. f_equal. apply filter_filter_same.
    intros f ->. lia. }
  apply restore_congr; simpl; fold db.
  - reflexivity.
  - unfold select_snapshot. simpl. f_equal. apply find_filter_same.
    intros s _ Hs. apply bool_decide_eq_true in Hs. lia.
  - exact Hfiles.
  - rewrite Hfiles. intros p h Hin.
    apply select_files_elem in Hin as (f & Hf & Hid & _ & Hh).
    unfold select_blob. simpl. apply find_filter_same.
    intros b _ Hb. apply bool_decide_eq_true in Hb.
    apply list_elem_of_In, in_map_iff. exists f. split; [congruence|].
    apply list_elem_of_In, list_elem_of_filter. split; [lia | exact Hf].
Qed.

Lemma restore_after_prune_witness :
  1 < 2
  /\ fs (snd (restore 2 ["restore"%string] (snd (prune 1 world2))))
     = fs (snd (restore 2 ["restore"%string] world2)).
Proof.
  split; [lia|].
  apply (restore_after_prune 1 2 ["restore"%string] world2). lia.
Defined.

(* ===================================================================== *)
(** ** Where restore writes *)
(* ===================================================================== *)

Lemma fs_grows_refl out fs0 : fs_grows out fs0 fs0.
Proof. repeat split; auto. Qed.

Lemma fs_grows_trans out fs1 fs2 fs3 :
  fs_grows out fs1 fs2 -> fs_grows out fs2 fs3 -> fs_grows out fs1 fs3.
Proof.
  intros (A1 & B1 & C1 & D1) (A2 & B2 & C2 & D2). repeat split.
  - intros k Hk. apply A2, A1, Hk.
  - intros k Hk. apply B2, B1, Hk.
  - intros k e Hn Hk. apply C2, C1; assumption.
  - intros k Hn1 Hn2. rewrite D2, D1; auto.
Qed.

Lemma fs_grows_makedirs out name fs0 fs1 :
  (forall k, k `prefix_of` name -> out `prefix_of` k \/ k `prefix_of` out) ->
  makedirs name fs0 = inr fs1 -> fs_grows out fs0 fs1.
Proof.
  intros Hname Hmk. repeat split.
  - intros k [e Hk]. exists e. eapply makedirs_keeps; eassumption.
  - intros k Hk. eapply makedirs_keeps; eassumption.
  - intros k e _ Hk. eapply makedirs_keeps; eassumption.
  - intros k Hn1 Hn2. apply (makedirs_untouched _ _ _ _ Hmk).
    intros Hp. destruct (Hname k Hp); contradiction.
Qed.

Lemma fs_grows_write out p data fs1 fs2 :
  write_file (out ++ p) data fs1 = inr fs2 -> fs_grows out fs1 fs2.
Proof.
  intros Hw.
  assert (fs1 !! (out ++ p) <> Some Directory) as Hnd.
  { unfold write_file in Hw.
    destruct (fs1 !! removelast (out ++ p)) as [[d|]|]; try discriminate.
    destruct (fs1 !! (out ++ p)) as [[d|]|]; congruence. }
  apply write_file_inv in Hw as ->.
  assert (forall k, ~ out `prefix_of` k -> out ++ p <> k) as Hne.
  { intros k Hn <-. apply Hn. apply prefix_app_r. reflexivity. }
  repeat split.
  - intros k Hk. destruct (decide (out ++ p = k)) as [<-|Hk'].
    + rewrite lookup_insert_eq. eauto.
    + rewrite lookup_insert_ne; assumption.
  - intros k Hk. rewrite lookup_insert_ne; [exact Hk | congruence].
  - intros k e Hn Hk. rewrite lookup_insert_ne; [exact Hk | apply Hne, Hn].
  - intros k Hn _. apply lookup_insert_ne, Hne, Hn.
Qed.

Lemma prefix_of_join (out p k : path) :
  k `prefix_of` removelast (out ++ p) -> out `prefix_of` k \/ k `prefix_of` out.
Proof.
  intros Hk.
  assert (k `prefix_of` out ++ p) as Hk'
      by (etrans; [exact Hk | apply prefix_removelast]).
  destruct (prefix_weak_total k out (out ++ p) Hk'
              (prefix_app_r _ _ _ (reflexivity out))); auto.
Qed.

Lemma fs_grows_restore_file out row w :
  fs_grows out (fs w) (fs (snd (restore_file out row w))).
Proof.
  destruct row as [p h]. rewrite run_restore_file.
  destruct (makedirs _ (fs w)) as [e|fs1] eqn:Hmk; [apply fs_grows_refl|].
  pose proof (fs_grows_makedirs out _ _ _ (prefix_of_join out p) Hmk) as H1.
  destruct (select_blob h _) as [b|]; [|exact H1].
  destruct (write_file _ _ fs1) as [e|fs2] eqn:Hw; [exact H1|].
  simpl. eapply fs_grows_trans; [exact H1 | eapply fs_grows_write, Hw].
Qed.

Lemma fs_grows_restore_loop out rows :
  forall w, fs_grows out (fs w) (fs (snd (for_each rows (restore_file out) w))).
Proof.
  induction rows as [|row rows IH]; intros w; [apply fs_grows_refl|].
  rewrite run_for_each_cons.
  pose proof (fs_grows_restore_file out row w) as H1.
  destruct (restore_file out row w) as [[[]|e] w1]; [|exact H1].
  eapply fs_grows_trans; [exact H1 | apply IH].
Qed.



Example restore_stays_inside_sample :
  let fs' := fs (snd (restore 1 ["home"; "restore"]%string busy_world)) in
  fs' !! ["home"; "notes.txt"]%string = Some (RegularFile [x01])
  /\ fs' !! ["home"; "restore"; "file1.txt"]%string = Some (RegularFile hello)
  /\ fs' !! ["file1.txt"]%string = None.
Proof. vm_compute. repeat split; reflexivity. Qed.

(* ===================================================================== *)
(** ** restore onto a regular file *)
(* ===================================================================== *)

Lemma makedirs_from_blocked todo :
  forall done fs0 q,
    q `prefix_of` todo -> is_file (fs0 !! (done ++ q)) = true ->
    exists e, makedirs_from done todo fs0 = inl e
              /\ (e = FileExistsError \/ e = NotADirectoryError).
Proof.
  induction todo as [|name rest IH]; intros done fs0 q Hq Hfile; simpl.
  - apply prefix_nil_inv in Hq as ->. rewrite app_nil_r in Hfile.
    destruct (fs0 !! done) as [[d|]|]; try discriminate. eauto.
  - destruct (fs0 !! done) as [[d|]|] eqn:E; [eauto| |].
    + destruct q as [|n q]; [rewrite app_nil_r, E in Hfile; discriminate|].
      pose proof (prefix_cons_inv_1 _ _ _ _ Hq) as ->.
      apply prefix_cons_inv_2 in Hq.
      apply (IH (done ++ [name]) fs0 q Hq). rewrite <- app_assoc. exact Hfile.
    + destruct q as [|n q]; [rewrite app_nil_r, E in Hfile; discriminate|].
      pose proof (prefix_cons_inv_1 _ _ _ _ Hq) as ->.
      apply prefix_cons_inv_2 in Hq.
      apply (IH (done ++ [name]) _ q Hq). rewrite <- app_assoc.
      rewrite lookup_insert_ne; [exact Hfile|].
      intros Heq. apply (f_equal length) in Heq.
      rewrite length_app in Heq. simpl in Heq. lia.
Qed.

(** X13. When the output directory of [restore] is an existing regular
    file and the snapshot has a file entry, [restore] raises
    [FileExistsError] or [NotADirectoryError] at its first entry: nothing is
    written, nothing is printed and the store is untouched. *)
Theorem restore_onto_regular_file :
  forall (snapshot_id : Z) (output_directory : path) (w : World)
         (data : bytes) (p : path) (h : string) (rows : list (path * string)),
    fs w !! output_directory = Some (RegularFile data) ->
    snapshot_id ∈ map s_id (snapshots (current (conn w))) ->
    select_files snapshot_id (current (conn w)) = (p, h) :: rows ->
    p <> [] ->
    exists e,
      restore snapshot_id output_directory w = (Raise (OSException e), w)
      /\ (e = FileExistsError \/ e = NotADirectoryError).
Proof.
  intros snapshot_id out w data p h rows Hout Hid Hrows Hp.
  rewrite run_restore, (select_snapshot_Some _ _ Hid), Hrows.
  unfold ensure_directory. rewrite bool_decide_eq_true_2 by (rewrite Hout; eauto).
  rewrite run_for_each_cons, run_restore_file. simpl.
  destruct (makedirs_from_blocked (removelast (out ++ p)) [] (fs w) out)
    as (e & He & Hkind).
  { rewrite removelast_app by exact Hp. apply prefix_app_r. reflexivity. }
  { simpl. rewrite Hout. reflexivity. }
  unfold makedirs. rewrite He. exists e. destruct w. split; [reflexivity | exact Hkind].
Qed.

Lemma restore_onto_regular_file_witness :
  let out := ["restore"%string] in
  (fs blocked_world !! out = Some (RegularFile hello)
   /\ 1 ∈ map s_id (snapshots (current (conn blocked_world))))
  /\ exists e,
       restore 1 out blocked_world = (Raise (OSException e), blocked_world)
       /\ (e = FileExistsError \/ e = NotADirectoryError).
Proof.
  intros out. split; [split; compute_done|].
  apply (restore_onto_regular_file 1 out blocked_world hello
           ["file1.txt"%string] (SHA256.hexdigest hello)
           [(["subdir"; "file2.bin"]%string, SHA256.hexdigest [x00; xff; x10])]).
  - vm_compute. reflexivity.
  - compute_done.
  - vm_compute. reflexivity.
  - discriminate.
Defined.

(* ===================================================================== *)
(** ** One run of the program *)
(* ===================================================================== *)

(** X12. A run of the program on one command that ends in an exception
    leaves the database file exactly as it found it, and has announced no
    snapshot; in any case nothing is left uncommitted when the run ends. *)
Theorem failed_run_keeps_database :
  forall (c : Command) (w w' : World) (e : Exception),
    call c (connect w) = (Raise e, w') ->
    committed (conn (process w [c])) = committed (conn w)
    /\ current (conn (process w [c])) = committed (conn w)
    /\ taken_ids (stdout (process w [c])) = taken_ids (stdout w).
Proof.
  intros c w w' e Hrun. unfold process. rewrite run_for_each_cons, Hrun.
  unfold close. cbn [snd set_current conn committed current stdout].
  assert (committed (conn w') = committed (conn w)
          /\ taken_ids (stdout w') = taken_ids (stdout w)) as [Hc Ht];
    [|rewrite Hc; auto].
  destruct c as [target timestamp| |snapshot_id out|threshold]; simpl in Hrun.
  - destruct (snapshot_raises_frame _ _ _ _ _ Hrun) as (_ & Hc & Ht & _). auto.
  - rewrite run_list_snapshots in Hrun. discriminate.
  - destruct (quiet_restore snapshot_id out (connect w)) as [Hc Ht].
    rewrite Hrun in Hc, Ht. simpl in Hc, Ht. rewrite Hc. auto.
  - rewrite run_prune in Hrun. destruct (select_ids_le _ _); discriminate.
Qed.

Lemma failed_run_keeps_database_witness :
  let c := CmdRestore 1 ["restore"%string] in
  (exists e w', call c (connect blocked_world) = (Raise e, w'))
  /\ committed (conn (process blocked_world [c])) = committed (conn blocked_world).
Proof.
  intros c.
  assert (call c (connect blocked_world)
          = (Raise (OSException FileExistsError), connect blocked_world)) as H
      by (vm_compute; reflexivity).
  split; [eauto|].
  apply (failed_run_keeps_database c blocked_world _ _ H).
Defined.

(* ===================================================================== *)
(** ** Restoring twice *)
(* ===================================================================== *)

Lemma makedirs_from_prefixes todo :
  forall done fs0 fs1 q,
    makedirs_from done todo fs0 = inr fs1 ->
    q `prefix_of` todo -> fs1 !! (done ++ q) = Some Directory.
Proof.
  induction todo as [|name rest IH]; intros done fs0 fs1 q Hrun Hq.
  - apply prefix_nil_inv in Hq as ->.
    apply (makedirs_from_leaf [] done fs0 fs1 Hrun).
  - destruct q as [|n q].
    + rewrite app_nil_r. simpl in Hrun.
      destruct (fs0 !! done) as [[d|]|] eqn:E; try discriminate.
      * eapply makedirs_from_keeps; eassumption.
      * eapply makedirs_from_keeps; [eassumption | apply lookup_insert_eq].
    + pose proof (prefix_cons_inv_1 _ _ _ _ Hq) as ->.
      apply prefix_cons_inv_2 in Hq.
      replace (done ++ name :: q) with ((done ++ [name]) ++ q)
        by (rewrite <- app_assoc; reflexivity).
      simpl in Hrun. destruct (fs0 !! done) as [[d|]|]; try discriminate;
        eapply IH; eassumption.
Qed.

Lemma makedirs_from_noop todo :
  forall done fs0,
    (forall q, q `prefix_of` todo -> fs0 !! (done ++ q) = Some Directory) ->
    makedirs_from done todo fs0 = inr fs0.
Proof.
  induction todo as [|name rest IH]; intros done fs0 Hall; simpl.
  - pose proof (Hall [] (prefix_nil _)) as H0. rewrite app_nil_r in H0.
    rewrite H0. reflexivity.
  - pose proof (Hall [] (prefix_nil _)) as H0. rewrite app_nil_r in H0.
    rewrite H0. apply IH. intros q Hq. rewrite <- app_assoc.
    apply Hall, prefix_cons, Hq.
Qed.

(** An entry that no row names is still there after the loop. *)
Lemma restore_loop_keeps out rows :
  forall w w' k e,
    for_each rows (restore_file out) w = (Return tt, w') ->
    fs w !! k = Some e ->
    (forall p h, (p, h) ∈ rows -> out ++ p <> k) ->
    fs w' !! k = Some e.
Proof.
  induction rows as [|[p h] rows IH]; intros w w' k e Hrun Hk Hne.
  { injection Hrun as <-. exact Hk. }
  rewrite run_for_each_cons, run_restore_file in Hrun.
  destruct (makedirs _ (fs w)) as [e1|fs1] eqn:Hmk; [discriminate|].
  pose proof (makedirs_keeps _ _ _ _ _ Hmk Hk) as Hk1.
  assert (forall p' h', (p', h') ∈ rows -> out ++ p' <> k) as Hne'
      by (intros p' h' Hin; apply (Hne p' h'); right; exact Hin).
  destruct (select_blob h _) as [b|].
  - destruct (write_file _ _ fs1) as [e1|fs2] eqn:Hw; [discriminate|].
    apply write_file_inv in Hw as ->.
    apply (IH _ _ k e Hrun); [|exact Hne'].
    simpl. rewrite lookup_insert_ne; [exact Hk1 | apply (Hne p h); left].
  - apply (IH _ _ k e Hrun); [exact Hk1 | exact Hne'].
Qed.

(** After a loop that returned, the directory of every row exists, with
    all the directories above it, and every row with a blob has its file. *)
Lemma restore_loop_done out rows :
  forall w w',
    NoDup (map fst rows) ->
    for_each rows (restore_file out) w = (Return tt, w') ->
    forall p h, (p, h) ∈ rows ->
      (forall q, q `prefix_of` removelast (out ++ p) ->
                 fs w' !! q = Some Directory)
      /\ (forall b, select_blob h (current (conn w)) = Some b ->
                    fs w' !! (out ++ p) = Some (RegularFile (b_content b))).
Proof.
  induction rows as [|[p0 h0] rows IH]; intros w w' Hnd Hrun p h Hin.
  { inversion Hin. }
  simpl in Hnd. apply NoDup_cons in Hnd as [Hp0 Hnd].
  rewrite run_for_each_cons in Hrun.
  destruct (restore_file out (p0, h0) w) as [[[]|e1] w1] eqn:Hstep; [|discriminate].
  assert (conn w1 = conn w) as Hconn.
  { pose proof (proj1 (quiet_restore_file out (p0, h0) w)) as H.
    rewrite Hstep in H. exact H. }
  apply elem_of_cons in Hin as [[= -> ->]|Hin].
  2: { rewrite <- Hconn. apply (IH w1 w' Hnd Hrun p h Hin). }
  rewrite run_restore_file in Hstep.
  destruct (makedirs _ (fs w)) as [e1|fs1] eqn:Hmk; [discriminate|].
  pose proof (fs_grows_restore_loop out rows w1) as (_ & Hdirs & _).
  rewrite Hrun in Hdirs. simpl in Hdirs.
  assert (forall p' h', (p', h') ∈ rows -> out ++ p' <> out ++ p0) as Hother.
  { intros p' h' Hin Heq. apply app_inv_head in Heq. subst p'.
    apply Hp0. apply elem_of_map_fst. eauto. }
  destruct (select_blob h0 (current (conn w))) as [b|] eqn:Hb.
  - destruct (write_file _ _ fs1) as [e1|fs2] eqn:Hw; [discriminate|].
    injection Hstep as <-. simpl in *.
    assert (fs1 !! (out ++ p0) <> Some Directory) as Hnd0.
    { unfold write_file in Hw.
      destruct (fs1 !! removelast (out ++ p0)) as [[d|]|]; try discriminate.
      destruct (fs1 !! (out ++ p0)) as [[d|]|]; congruence. }
    apply write_file_inv in Hw as ->. split.
    + intros q Hq. apply Hdirs.
      pose proof (makedirs_from_prefixes _ [] _ _ q Hmk Hq) as Hd. simpl in Hd.
      rewrite lookup_insert_ne; [exact Hd | congruence].
    + intros b' [= <-].
      apply (restore_loop_keeps out rows _ _ _ _ Hrun);
        [apply lookup_insert_eq | exact Hother].
  - injection Hstep as <-. simpl in *. split; [|discriminate].
    intros q Hq. apply Hdirs.
    apply (makedirs_from_prefixes _ [] _ _ q Hmk Hq).
Qed.

(** A loop over rows whose directories and files are all in place changes
    nothing in the file system. *)
Lemma restore_loop_noop out rows :
  forall w,
    (forall p h, (p, h) ∈ rows ->
       (forall q, q `prefix_of` removelast (out ++ p) ->
                  fs w !! q = Some Directory)
       /\ (forall b, select_blob h (current (conn w)) = Some b ->
                     fs w !! (out ++ p) = Some (RegularFile (b_content b)))) ->
    for_each rows (restore_file out) w =
      (Return tt, {| conn := conn w; fs := fs w;
                     stdout := stdout w ++ missing_reports (current (conn w)) rows |}).
Proof.
  induction rows as [|[p h] rows IH]; intros w Hall.
  { simpl. rewrite app_nil_r. destruct w. reflexivity. }
  destruct (Hall p h) as [Hdirs Hfile]; [left|].
  rewrite run_for_each_cons, run_restore_file.
  unfold makedirs. rewrite (makedirs_from_noop _ [] (fs w) Hdirs).
  assert (forall p' h', (p', h') ∈ rows ->
            (forall q, q `prefix_of` removelast (out ++ p') ->
                       fs w !! q = Some Directory)
            /\ (forall b, select_blob h' (current (conn w)) = Some b ->
                          fs w !! (out ++ p') = Some (RegularFile (b_content b))))
    as Hrest by (intros p' h' Hin; apply Hall; right; exact Hin).
  simpl. destruct (select_blob h (current (conn w))) as [b|] eqn:Hb.
  - rewrite write_file_succeeds;
      [|apply Hdirs; reflexivity | rewrite (Hfile b eq_refl); reflexivity].
    rewrite insert_id by (apply Hfile; reflexivity).
    rewrite (IH {| conn := conn w; fs := fs w; stdout := stdout w |} Hrest).
    reflexivity.
  - rewrite (IH {| conn := conn w; fs := fs w;
                   stdout := stdout w ++ [MissingBlob h p] |} Hrest).
    simpl. rewrite <- app_assoc. reflexivity.
Qed.

Lemma restore_loop_stdout out rows :
  forall v v', for_each rows (restore_file out) v = (Return tt, v') ->
               stdout v' = stdout v ++ missing_reports (current (conn v)) rows.
Proof.
  induction rows as [|[p h] rows IH]; intros v v' Hr.
  - injection Hr as <-. simpl. rewrite app_nil_r. reflexivity.
  - rewrite run_for_each_cons, run_restore_file in Hr.
    destruct (makedirs _ (fs v)) as [e|fs1]; [discriminate|]. simpl.
    destruct (select_blob h (current (conn v))) as [b|].
    + destruct (write_file _ _ fs1) as [e|fs2]; [discriminate|].
      apply IH in Hr. exact Hr.
    + apply IH in Hr. simpl in Hr. rewrite Hr, <- app_assoc. reflexivity.
Qed.

(** X14. Restoring twice is restoring once.  If [restore] of a snapshot
    whose file entries have different paths returned normally, a second
    [restore] of the same snapshot into the same directory returns normally
    too, leaves every path of the file system as the first one left it, and
    prints the same report again. *)
Theorem restore_twice :
  forall (snapshot_id : Z) (output_directory : path) (w w1 : World),
    NoDup (map fst (select_files snapshot_id (current (conn w)))) ->
    restore snapshot_id output_directory w = (Return tt, w1) ->
    exists msgs,
      stdout w1 = stdout w ++ msgs
      /\ restore snapshot_id output_directory w1 =
           (Return tt, {| conn := conn w1; fs := fs w1;
                          stdout := stdout w1 ++ msgs |}).
Proof.
  intros snapshot_id out w w1 Hnd Hrun.
  assert (conn w1 = conn w) as Hconn.
  { pose proof (proj1 (quiet_restore snapshot_id out w)) as H.
    rewrite Hrun in H. exact H. }
  rewrite run_restore in Hrun. rewrite run_restore, Hconn.
  destruct (select_snapshot snapshot_id (current (conn w))) as [i|].
  2: { injection Hrun as <-. exists [SnapshotNotFound snapshot_id].
       split; reflexivity. }
  set (rows := select_files snapshot_id (current (conn w))) in *.
  destruct (ensure_directory out (fs w)) as [e|fs0] eqn:He; [discriminate|].
  destruct (for_each rows (restore_file out) (with_fs fs0 w))
    as [[[]|e] w2] eqn:Hloop; [|discriminate].
  injection Hrun as <-.
  assert (conn w2 = conn w) as Hconn2.
  { pose proof (proj1 (quiet_for_each rows (restore_file out)
                         (quiet_restore_file out) (with_fs fs0 w))) as H.
    rewrite Hloop in H. exact H. }
  assert (is_Some (fs0 !! out)) as Hout0.
  { unfold ensure_directory in He. case_bool_decide as Hex.
    - injection He as <-. exact Hex.
    - rewrite (makedirs_leaf _ _ _ He). eauto. }
  assert (is_Some (fs w2 !! out)) as Hout2.
  { pose proof (fs_grows_restore_loop out rows (with_fs fs0 w)) as (Hs & _).
    rewrite Hloop in Hs. apply Hs, Hout0. }
  pose proof (restore_loop_done out rows _ _ Hnd Hloop) as Hdone.
  simpl in Hdone.
  assert (for_each rows (restore_file out) w2 =
            (Return tt, {| conn := conn w2; fs := fs w2;
                           stdout := stdout w2
                                     ++ missing_reports (current (conn w2)) rows |}))
    as Hagain.
  { apply restore_loop_noop. rewrite Hconn2. exact Hdone. }
  assert (stdout w2 = stdout w ++ missing_reports (current (conn w)) rows) as Hout
      by (apply (restore_loop_stdout out rows _ _ Hloop)).
  exists (missing_reports (current (conn w)) rows
          ++ [SnapshotRestored snapshot_id out]).
  split; [simpl; rewrite Hout, <- app_assoc; reflexivity|].
  cbn [printed fs conn stdout]. unfold ensure_directory.
  rewrite bool_decide_eq_true_2 by exact Hout2.
  replace (with_fs (fs w2) (printed (SnapshotRestored snapshot_id out) w2))
    with (printed (SnapshotRestored snapshot_id out) w2)
    by (destruct w2; reflexivity).
  rewrite <- Hconn2.
  pose proof (restore_loop_noop out rows
                (printed (SnapshotRestored snapshot_id out) w2)) as Hnoop.
  simpl in Hnoop. rewrite Hnoop.
  - unfold printed. simpl. rewrite Hconn2, <- !app_assoc. reflexivity.
  - rewrite Hconn2. exact Hdone.
Qed.

Lemma restore_twice_witness :
  let out := ["restore"%string] in
  let w1 := snd (restore 1 out damaged_world) in
  (NoDup (map fst (select_files 1 (current (conn damaged_world))))
   /\ restore 1 out damaged_world = (Return tt, w1))
  /\ fs (snd (restore 1 out w1)) = fs w1.
Proof.
  intros out w1.
  assert (NoDup (map fst (select_files 1 (current (conn damaged_world))))) as H1
      by compute_done.
  assert (restore 1 out damaged_world = (Return tt, w1)) as H2
      by (vm_compute; reflexivity).
  split; [split; assumption|].
  destruct (restore_twice 1 out damaged_world w1 H1 H2) as (msgs & _ & Hrun).
  rewrite Hrun. reflexivity.
Defined.

(* ===================================================================== *)
(** ** Every state the tool can reach *)
(* ===================================================================== *)

Lemma history_references runs :
  forall w, references_hold (committed (conn w)) ->
            references_hold (committed (conn (history runs w))).
Proof.
  induction runs as [|cmds runs IH]; intros w Hw; [exact Hw|].
  simpl. apply IH. unfold process, close. simpl.
  apply (preserves_for_each store_references_hold cmds call
           store_references_hold_call (connect w)).
  split; exact Hw.
Qed.

(** X15. Whatever runs of whatever calls were made on a database file that
    was new at the start, the file is sound: primary keys are unique and
    snapshots are in ascending id order, every file entry names a stored
    snapshot and a stored blob, every blob is keyed by the SHA-256 digest of
    its content, no file entry carries an id that was not handed out, and
    nothing is left uncommitted.  So [restore] of a stored snapshot never
    meets a missing blob there. *)
Theorem reachable_store_is_sound :
  forall (runs : list (list Command)) (fs0 : FS),
    let w := history runs (new_world fs0) in
    let db := committed (conn w) in
    current (conn w) = db
    /\ keys_unique db
    /\ references_hold db
    /\ blobs_wf db
    /\ ids_bounded db
    /\ forall snapshot_id p h,
         (p, h) ∈ select_files snapshot_id db -> is_Some (select_blob h db).
Proof.
  intros runs fs0 w db.
  assert (references_hold db) as Hrefs.
  { apply (history_references runs (new_world fs0)). constructor. }
  split; [apply history_settled; reflexivity|].
  split; [apply (history_keys_unique runs (new_world fs0));
          repeat split; simpl; constructor|].
  split; [exact Hrefs|].
  split; [apply (history_consistent runs fs0)|].
  split; [apply (history_consistent runs fs0)|].
  intros snapshot_id p h Hin.
  apply select_files_elem in Hin as (f & Hf & _ & _ & <-).
  unfold references_hold in Hrefs. rewrite Forall_forall in Hrefs.
  apply (Hrefs f Hf).
Qed.

(* ===================================================================== *)
(** ** Content is stored once *)
(* ===================================================================== *)

Lemma filter_unique_key {A B} `{EqDecision B} (f : A -> B) (l : list A) (x : A) :
  NoDup (map f l) -> x ∈ l -> filter (fun y => f y = f x) l = [x].
Proof.
  induction l as [|y l IH]; intros Hnd Hin; [inversion Hin|].
  simpl in Hnd. apply NoDup_cons in Hnd as [Hy Hnd].
  apply elem_of_cons in Hin as [<-|Hin].
  - rewrite filter_cons_True by reflexivity. f_equal.
    apply filter_none. intros z Hz Heq. apply Hy. rewrite <- Heq.
    apply list_elem_of_In, in_map, list_elem_of_In, Hz.
  - rewrite filter_cons_False; [apply IH; assumption|].
    intros Heq. apply Hy. rewrite Heq.
    apply list_elem_of_In, in_map, list_elem_of_In, Hin.
Qed.

(** X16. After a [snapshot] that returned, the content of every file it
    read is stored exactly once: among the blob rows there is one, and only
    one, with the SHA-256 digest of that content, however many files of the
    directory and however many earlier snapshots have the same content. *)
Theorem snapshot_stores_content_once :
  forall (entries : list (string * Node)) (timestamp : string) (w w1 : World)
         (p : path) (content : bytes),
    well_formed (Dir entries) = true ->
    store_keys_unique w ->
    snapshot (Some (Dir entries)) timestamp w = (Return tt, w1) ->
    lookup_node p (Dir entries) = Some (File (Some content)) ->
    exists b,
      select_blob (SHA256.hexdigest content) (current (conn w1)) = Some b
      /\ filter (fun b' => b_hash b' = SHA256.hexdigest content)
                (blobs (current (conn w1))) = [b].
Proof.
  intros entries timestamp w w1 p content Hwf Hkeys Hrun Hl.
  pose proof (store_keys_unique_call (CmdSnapshot (Some (Dir entries)) timestamp)
                w Hkeys) as Hk1.
  simpl in Hk1. rewrite Hrun in Hk1. destruct Hk1 as [_ (_ & Hnd & _)].
  assert ((p, Some content) ∈ walk_items (Some (Dir entries))) as Hin.
  { apply (elem_of_items_of (Dir entries) Hwf). exists p.
    split; [intros ->; discriminate | auto]. }
  rewrite run_snapshot in Hrun.
  destruct (insert_snapshot timestamp _) as [[snapshot_id db1]|]; [|discriminate].
  destruct (for_each _ _ _) as [[[]|e] w2] eqn:Hloop; [|discriminate].
  injection Hrun as <-. simpl in *.
  destruct (snapshot_loop_stores _ _ _ _ Hloop p content Hin) as [b Hb].
  exists b. split; [exact Hb|].
  apply select_blob_elem in Hb as [Hbin Hh]. rewrite <- Hh.
  apply (filter_unique_key b_hash); assumption.
Qed.

Lemma snapshot_stores_content_once_witness :
  let w1 := snd (snapshot (Some (Dir entries3)) "2024-01-06 10:00:00" world1) in
  (well_formed (Dir entries3) = true
   /\ snapshot (Some (Dir entries3)) "2024-01-06 10:00:00" world1 = (Return tt, w1)
   /\ lookup_node ["d"; "copy.txt"]%string (Dir entries3) = Some (File (Some hello)))
  /\ exists b,
       select_blob (SHA256.hexdigest hello) (current (conn w1)) = Some b
       /\ filter (fun b' => b_hash b' = SHA256.hexdigest hello)
                 (blobs (current (conn w1))) = [b].
Proof.
  intros w1.
  assert (snapshot (Some (Dir entries3)) "2024-01-06 10:00:00" world1
          = (Return tt, w1)) as Hrun by (vm_compute; reflexivity).
  split; [split; [compute_done | split; [exact Hrun | vm_compute; reflexivity]]|].
  apply (snapshot_stores_content_once entries3 "2024-01-06 10:00:00" world1 w1
           ["d"; "copy.txt"]%string hello).
  - compute_done.
  - unfold store_keys_unique, keys_unique.
    repeat split; try compute_done; vm_compute; repeat constructor.
  - exact Hrun.
  - vm_compute. reflexivity.
Defined.
